(** * Package.resolved handle: a verified model of
      [tools/dogfooding/src/package_resolved.py]

    The Python class [PackageResolvedFile] loads a JSON lock file, lets the
    caller read and overwrite the resolution state of a pin, and writes the
    document back.  The model keeps the Python object store explicit: dicts
    and lists live in a heap and are reached through references, so that
    "a reference into the document" and "an independent copy" are different
    things, as they are in the source.

    Scope of the model.
    - A character is a code point below 256; text is a list of characters.
    - JSON numbers are integers.  The decoder answers [NotModelled] on a
      float literal, on [NaN]/[Infinity] and on a [\u] escape above 255.
    - The decoder counts its nested calls against a bound that it never
      reaches ([json_loads_bound]); the recursion limit of the interpreter
      is not modelled.
    - Writing a file always succeeds; a missing file is the only I/O error.
    - [a.items() ^ b.items()] hashes every item, as the interpreters before
      3.10 do (later ones hash only the items that differ), so a dict or a
      list among the values of a state makes it raise.  What is proved of
      [update_dependency] either takes the values of the state to be
      hashable or holds whether the operation raises there or not.
    - Location numbers are not observable (the source never calls [id]). *)

From Stdlib Require Import ZArith NArith Ascii String.
From stdpp Require Import gmap strings list.


(** ** Characters and text *)

Abbreviation text := (list ascii).

Definition txt (s : string) : text := list_ascii_of_string s.
Definition code (c : ascii) : N := N_of_ascii c.

Definition QUOTE : ascii := "034"%char.
Definition BACKSLASH : ascii := "092"%char.
Definition APOSTROPHE : ascii := "039"%char.
Definition NEWLINE : ascii := "010"%char.
Definition SPACE : ascii := " "%char.

(** ** Python values and the object store *)

Definition loc := nat.

Inductive val :=
| VNone
| VBool (b : bool)
| VInt (z : Z)
| VStr (s : string)
| VRef (l : loc).

(** A dict keeps its insertion order; every key of the documents handled
    here is a [str]. *)
Inductive obj :=
| ODict (d : list (string * val))
| OList (xs : list val).

Abbreviation heap := (list obj).

Global Instance val_eq_dec : EqDecision val.
Proof. solve_decision. Defined.

(** The value of a Python object, with the store abstracted away: what
    [json.load] produces and what [json.dump] consumes. *)
Unset Elimination Schemes.
Inductive json :=
| JNull
| JBool (b : bool)
| JInt (z : Z)
| JStr (s : string)
| JList (js : list json)
| JDict (d : list (string * json)).
Set Elimination Schemes.

Section json_induction.
Variable P : json → Prop.
Hypothesis Hnull : P JNull.
Hypothesis Hbool : ∀ b, P (JBool b).
Hypothesis Hint : ∀ z, P (JInt z).
Hypothesis Hstr : ∀ s, P (JStr s).
Hypothesis Hlist : ∀ js, Forall P js → P (JList js).
Hypothesis Hdict : ∀ d, Forall (λ kv, P kv.2) d → P (JDict d).

Fixpoint json_ind (j : json) : P j :=
  match j with
  | JNull => Hnull
  | JBool b => Hbool b
  | JInt z => Hint z
  | JStr s => Hstr s
  | JList js =>
      Hlist js ((fix all (l : list json) : Forall P l :=
                   match l with
                   | [] => Forall_nil_2 P
                   | x :: l' => Forall_cons_2 P x l' (json_ind x) (all l')
                   end) js)
  | JDict d =>
      Hdict d ((fix all (l : list (string * json)) : Forall (λ kv, P kv.2) l :=
                  match l with
                  | [] => Forall_nil_2 _
                  | x :: l' => Forall_cons_2 _ x l' (json_ind x.2) (all l')
                  end) d)
  end.
End json_induction.

(** ** Dicts as insertion-ordered association lists *)

Section dict.
Context {A : Type}.

(** [d[k]] *)
Fixpoint dict_get (d : list (string * A)) (k : string) : option A :=
  match d with
  | [] => None
  | (k', x) :: d' => if decide (k' = k) then Some x else dict_get d' k
  end.

(** [d[k] = x]: an existing key keeps its position, a new key goes last. *)
Fixpoint dict_set (d : list (string * A)) (k : string) (x : A) : list (string * A) :=
  match d with
  | [] => [(k, x)]
  | (k', y) :: d' =>
      if decide (k' = k) then (k', x) :: d' else (k', y) :: dict_set d' k x
  end.

(** [dict(pairs)]: a later pair overwrites an earlier one with its key. *)
Definition dict_of_pairs (pairs : list (string * A)) : list (string * A) :=
  foldl (λ d kv, dict_set d kv.1 kv.2) [] pairs.
End dict.

(** ** Errors, notices and the world *)

Inductive error :=
| FileNotFoundError (path : string)
| JSONDecodeError
| NotModelled
| KeyError (k : val)
| IndexError
| TypeError
| RecursionError
| Exception (msg : string).

Inductive res (A : Type) :=
| Ok (a : A)
| Err (e : error).
Arguments Ok {A} a.
Arguments Err {A} e.

(** One constructor per [print] statement of the source; the interpolated
    values are kept, the decoration of the message is not. *)
Inductive notice :=
| Opening (path : string)
| Updated (package_name : string)
| OldState (old_state : json)
| NewState (new_state : json)
| UpToDate (package_name : string)
| Saving (path : string).

Record world := World {
  store : heap;
  files : gmap string text;
  stdout : list notice
}.

Definition set_store (w : world) (h : heap) : world :=
  World h (files w) (stdout w).

(** A computation: it may raise, and whatever it did to the world before
    raising stays done. *)
Definition M (A : Type) : Type := world → res A * world.

Definition ret {A} (a : A) : M A := λ w, (Ok a, w).
Definition raise {A} (e : error) : M A := λ w, (Err e, w).
Definition bind {A B} (m : M A) (k : A → M B) : M B :=
  λ w, match m w with
       | (Ok a, w') => k a w'
       | (Err e, w') => (Err e, w')
       end.

Global Instance M_ret : MRet M := @ret.
Global Instance M_bind : MBind M := λ A B k m, bind m k.

Definition lift {A} (f : heap → res A) : M A := λ w, (f (store w), w).
Definition print (n : notice) : M unit :=
  λ w, (Ok tt, World (store w) (files w) (stdout w ++ [n])).

(** ** Python primitives on the store *)

(** [v[k]] for a [str] key [k]. *)
Definition py_getitem (v : val) (k : string) (h : heap) : res val :=
  match v with
  | VRef l =>
      match h !! l with
      | Some (ODict d) =>
          match dict_get d k with
          | Some x => Ok x
          | None => Err (KeyError (VStr k))
          end
      | _ => Err TypeError
      end
  | _ => Err TypeError
  end.

(** [v[k] = x] for a [str] key [k]. *)
Definition py_setitem (v : val) (k : string) (x : val) : M unit :=
  λ w, match v with
       | VRef l =>
           match store w !! l with
           | Some (ODict d) => (Ok tt, set_store w (<[l := ODict (dict_set d k x)]> (store w)))
           | _ => (Err TypeError, w)
           end
       | _ => (Err TypeError, w)
       end.

Definition chars (s : string) : list val :=
  (λ c, VStr (String c EmptyString)) <$> list_ascii_of_string s.

(** The elements [for p in v] runs through. *)
Definition py_iter (v : val) (h : heap) : res (list val) :=
  match v with
  | VRef l =>
      match h !! l with
      | Some (OList xs) => Ok xs
      | Some (ODict d) => Ok ((λ kv, VStr kv.1) <$> d)
      | None => Err TypeError
      end
  | VStr s => Ok (chars s)
  | _ => Err TypeError
  end.

(** [len(v)] *)
Definition py_len (v : val) (h : heap) : res nat :=
  match v with
  | VRef l =>
      match h !! l with
      | Some (OList xs) => Ok (length xs)
      | Some (ODict d) => Ok (length d)
      | None => Err TypeError
      end
  | VStr s => Ok (String.length s)
  | _ => Err TypeError
  end.

(** [v[i]] for an index [i] that [enumerate] produced. *)
Definition py_index (v : val) (i : nat) (h : heap) : res val :=
  match v with
  | VRef l =>
      match h !! l with
      | Some (OList xs) =>
          match xs !! i with Some x => Ok x | None => Err IndexError end
      | Some (ODict _) => Err (KeyError (VInt (Z.of_nat i)))
      | None => Err TypeError
      end
  | VStr s =>
      match chars s !! i with Some x => Ok x | None => Err IndexError end
  | _ => Err TypeError
  end.

(** [v == s] for a [str] [s]: only an equal [str] is equal to it. *)
Definition eq_str (v : val) (s : string) : bool :=
  match v with
  | VStr s' => bool_decide (s' = s)
  | _ => false
  end.

(** [v != z] for an [int] [z]; [True] and [False] are the integers 1 and 0. *)
Definition ne_int (v : val) (z : Z) : bool :=
  match v with
  | VInt z' => negb (Z.eqb z' z)
  | VBool b => negb (Z.eqb (if b then 1 else 0) z)
  | _ => true
  end.

(** ** Snapshots, [deepcopy] and object construction *)

Definition children (o : obj) : list val :=
  match o with
  | ODict d => d.*2
  | OList xs => xs
  end.

Definition with_children (o : obj) (vs : list val) : obj :=
  match o with
  | ODict d => ODict (zip d.*1 vs)
  | OList _ => OList vs
  end.

Definition assemble (o : obj) (js : list json) : json :=
  match o with
  | ODict d => JDict (zip d.*1 js)
  | OList _ => JList js
  end.

(** [snap n h v]: the value [v] stands for in [h], and the locations it is
    made of (its footprint, with repetitions when an object is shared).
    [n] bounds the nesting depth. *)
Fixpoint snap (n : nat) (h : heap) (v : val) : option (json * list loc) :=
  match v with
  | VNone => Some (JNull, [])
  | VBool b => Some (JBool b, [])
  | VInt z => Some (JInt z, [])
  | VStr s => Some (JStr s, [])
  | VRef l =>
      match n with
      | O => None
      | S n' =>
          o ← h !! l;
          rs ← mapM (snap n' h) (children o);
          Some (assemble o rs.*1, l :: mjoin rs.*2)
      end
  end.

Definition snapshot (h : heap) (v : val) : option json :=
  fst <$> snap (length h) h v.

Definition alloc (o : obj) (h : heap) : val * heap := (VRef (length h), h ++ [o]).

(** Run [f] over [xs] from left to right, threading the store. *)
Fixpoint thread {A B} (f : A → heap → B * heap) (xs : list A) (h : heap) : list B * heap :=
  match xs with
  | [] => ([], h)
  | x :: xs' =>
      let '(y, h1) := f x h in
      let '(ys, h2) := thread f xs' h1 in
      (y :: ys, h2)
  end.

Fixpoint thread_opt {A B} (f : A → heap → option (B * heap)) (xs : list A) (h : heap)
  : option (list B * heap) :=
  match xs with
  | [] => Some ([], h)
  | x :: xs' =>
      '(y, h1) ← f x h;
      '(ys, h2) ← thread_opt f xs' h1;
      Some (y :: ys, h2)
  end.

(** Fresh Python objects for a decoded document: children first, then the
    container that holds them. *)
Fixpoint build (j : json) (h : heap) : val * heap :=
  match j with
  | JNull => (VNone, h)
  | JBool b => (VBool b, h)
  | JInt z => (VInt z, h)
  | JStr s => (VStr s, h)
  | JList js =>
      let '(vs, h') := thread build js h in
      alloc (OList vs) h'
  | JDict d =>
      let '(vs, h') := thread (λ kv, build kv.2) d h in
      alloc (ODict (zip d.*1 vs)) h'
  end.

(** [copy.deepcopy]: atoms are returned as they are, a dict or a list is
    rebuilt from copies of its members.  The memo table of [deepcopy] only
    matters for shared or cyclic objects and is not modelled. *)
Fixpoint deepcopy_go (n : nat) (v : val) (h : heap) : option (val * heap) :=
  match v with
  | VRef l =>
      match n with
      | O => None
      | S n' =>
          o ← h !! l;
          '(vs, h') ← thread_opt (deepcopy_go n') (children o) h;
          Some (alloc (with_children o vs) h')
      end
  | _ => Some (v, h)
  end.

Definition deepcopy (v : val) : M val :=
  λ w, match deepcopy_go (length (store w)) v (store w) with
       | Some (v', h') => (Ok v', set_store w h')
       | None => (Err RecursionError, w)
       end.

(** ** [json.dump(obj, fp, indent=2, sort_keys=True)] *)

Global Instance res_ret : MRet res := @Ok.
Global Instance res_bind : MBind res := λ A B k r,
  match r with
  | Ok a => k a
  | Err e => Err e
  end.

Definition ch (c : ascii) (n : N) : bool := N.eqb (code c) n.
Definition is_digit (c : ascii) : bool := N.leb 48 (code c) && N.leb (code c) 57.

Definition digit_char (d : N) : ascii := ascii_of_N (48 + d).

Fixpoint digits_go (fuel : nat) (n : N) (acc : text) : text :=
  match fuel with
  | O => acc
  | S fuel' =>
      let acc' := digit_char (n mod 10) :: acc in
      if N.eqb (n / 10) 0 then acc' else digits_go fuel' (n / 10) acc'
  end.

(** Decimal digits of a natural number, most significant first. *)
Definition digits (n : N) : text := digits_go (S (N.to_nat (N.log2 n))) n [].

(** [int.__repr__] *)
Definition int_repr (z : Z) : text :=
  if Z.ltb z 0 then "-"%char :: digits (Z.abs_N z) else digits (Z.abs_N z).

Definition hex_char (n : N) : ascii :=
  if N.ltb n 10 then ascii_of_N (48 + n) else ascii_of_N (87 + n).

(** One character of [py_encode_basestring_ascii]: the short escapes of
    [ESCAPE_DCT], printable ASCII as it is, anything else as [\u00xx]. *)
Definition escape_char (c : ascii) : text :=
  if ch c 34 then [BACKSLASH; QUOTE]
  else if ch c 92 then [BACKSLASH; BACKSLASH]
  else if ch c 8 then [BACKSLASH; "b"%char]
  else if ch c 12 then [BACKSLASH; "f"%char]
  else if ch c 10 then [BACKSLASH; "n"%char]
  else if ch c 13 then [BACKSLASH; "r"%char]
  else if ch c 9 then [BACKSLASH; "t"%char]
  else if N.leb 32 (code c) && N.leb (code c) 126 then [c]
  else [BACKSLASH; "u"%char; "0"%char; "0"%char;
        hex_char (code c / 16); hex_char (code c mod 16)].

Definition encode_basestring_ascii (s : string) : text :=
  QUOTE :: mjoin (escape_char <$> list_ascii_of_string s) ++ [QUOTE].

(** ['\n' + indent * level] with [indent] two spaces. *)
Definition newline_indent (level : nat) : text :=
  NEWLINE :: replicate (2 * level) SPACE.

(** [sep.join(chunks)] *)
Definition join (sep : text) (chunks : list text) : text :=
  match chunks with
  | [] => []
  | c :: cs => c ++ mjoin ((λ x, sep ++ x) <$> cs)
  end.

(** [sorted(dct.items())]: a stable sort on the keys, compared as Python
    compares [str], code point by code point. *)
Fixpoint insert_item {A} (kv : string * A) (l : list (string * A)) : list (string * A) :=
  match l with
  | [] => [kv]
  | x :: l' => if String.leb kv.1 x.1 then kv :: l else x :: insert_item kv l'
  end.

Definition sorted_items {A} (d : list (string * A)) : list (string * A) :=
  foldr insert_item [] d.

Definition item_separator (level : nat) : text := ","%char :: newline_indent level.
Definition key_separator : text := [":"%char; SPACE].

Definition encode_item (kv : string * text) : text :=
  encode_basestring_ascii kv.1 ++ key_separator ++ kv.2.

(** The chunks [_iterencode] yields, concatenated.  [sort_keys] is the
    [sort_keys] argument of [json.dump]. *)
Fixpoint encode (sort_keys : bool) (level : nat) (j : json) : text :=
  match j with
  | JNull => txt "null"
  | JBool true => txt "true"
  | JBool false => txt "false"
  | JInt z => int_repr z
  | JStr s => encode_basestring_ascii s
  | JList js =>
      match js with
      | [] => txt "[]"
      | _ =>
          "["%char :: newline_indent (S level)
            ++ join (item_separator (S level)) (encode sort_keys (S level) <$> js)
            ++ newline_indent level ++ ["]"%char]
      end
  | JDict d =>
      match d with
      | [] => txt "{}"
      | _ =>
          let items := (λ kv, (kv.1, encode sort_keys (S level) kv.2)) <$> d in
          "{"%char :: newline_indent (S level)
            ++ join (item_separator (S level))
                 (encode_item <$> (if sort_keys then sorted_items items else items))
            ++ newline_indent level ++ ["}"%char]
      end
  end.

Definition json_dumps (v : val) (h : heap) : res text :=
  match snapshot h v with
  | Some j => Ok (encode true 0 j)
  | None => Err RecursionError
  end.

(** ** [json.load] *)

Definition is_ws (c : ascii) : bool := ch c 32 || ch c 9 || ch c 10 || ch c 13.

Fixpoint skip_ws (s : text) : text :=
  match s with
  | c :: s' => if is_ws c then skip_ws s' else s
  | [] => []
  end.

(** [strip p s]: what follows the prefix [p] of [s]. *)
Fixpoint strip (p s : text) : option text :=
  match p, s with
  | [], _ => Some s
  | a :: p', b :: s' => if Ascii.eqb a b then strip p' s' else None
  | _ :: _, [] => None
  end.

Definition hex_val (c : ascii) : option N :=
  let n := code c in
  if N.leb 48 n && N.leb n 57 then Some (n - 48)%N
  else if N.leb 97 n && N.leb n 102 then Some (n - 87)%N
  else if N.leb 65 n && N.leb n 70 then Some (n - 55)%N
  else None.

Definition hex4 (a b c d : ascii) : option N :=
  x ← hex_val a; y ← hex_val b; z ← hex_val c; t ← hex_val d;
  Some (4096 * x + 256 * y + 16 * z + t)%N.

(** The [BACKSLASH] table of the decoder. *)
Definition unescape (e : ascii) : option ascii :=
  if ch e 34 then Some QUOTE
  else if ch e 92 then Some BACKSLASH
  else if ch e 47 then Some "/"%char
  else if ch e 98 then Some "008"%char
  else if ch e 102 then Some "012"%char
  else if ch e 110 then Some "010"%char
  else if ch e 114 then Some "013"%char
  else if ch e 116 then Some "009"%char
  else None.

Definition push (c : ascii) (r : res (string * text)) : res (string * text) :=
  '(s, rest) ← r; Ok (String c s, rest).

(** [scanstring] in strict mode, started after the opening quote. *)
Fixpoint scanstring (s : text) : res (string * text) :=
  match s with
  | [] => Err JSONDecodeError
  | c :: s1 =>
      if ch c 34 then Ok (EmptyString, s1)
      else if ch c 92 then
        match s1 with
        | [] => Err JSONDecodeError
        | e :: s2 =>
            if ch e 117 then
              match s2 with
              | x :: y :: z :: t :: s3 =>
                  match hex4 x y z t with
                  | Some n =>
                      if N.ltb n 256 then push (ascii_of_N n) (scanstring s3)
                      else Err NotModelled
                  | None => Err JSONDecodeError
                  end
              | _ => Err JSONDecodeError
              end
            else
              match unescape e with
              | Some ch => push ch (scanstring s2)
              | None => Err JSONDecodeError
              end
        end
      else if N.ltb (code c) 32 then Err JSONDecodeError
      else push c (scanstring s1)
  end.

Fixpoint read_digits (s : text) (acc : N) : N * text :=
  match s with
  | c :: s' =>
      if is_digit c then read_digits s' (10 * acc + (code c - 48))%N else (acc, s)
  | [] => (acc, [])
  end.

(** Does a fraction [\.\d+] or an exponent [[eE][-+]?\d+] follow? *)
Definition float_follows (s : text) : bool :=
  match s with
  | c :: d :: rest =>
      if ch c 46 then is_digit d
      else if ch c 101 || ch c 69 then
        is_digit d
        || ((ch d 43 || ch d 45) && match rest with x :: _ => is_digit x | [] => false end)
      else false
  | _ => false
  end.

(** The integer part of [NUMBER_RE]: a single zero, or a non-zero digit
    followed by digits. *)
Definition scan_nat (s : text) : res (N * text) :=
  match s with
  | c :: s' =>
      if ch c 48 then Ok (0%N, s')
      else if is_digit c then Ok (read_digits s 0)
      else Err JSONDecodeError
  | [] => Err JSONDecodeError
  end.

(** The optional minus sign of [NUMBER_RE]. *)
Definition scan_sign (s : text) : res (bool * text) :=
  match s with
  | c :: s' => if ch c 45 then Ok (true, s') else Ok (false, s)
  | [] => Err JSONDecodeError
  end.

Definition scan_number (s : text) : res (json * text) :=
  '(neg, s1) ← scan_sign s;
  '(n, s2) ← scan_nat s1;
  if float_follows s2 then Err NotModelled
  else Ok (JInt (if neg : bool then - Z.of_N n else Z.of_N n), s2).

Definition literal (s : text) : option (res (json * text)) :=
  match strip (txt "null") s with
  | Some r => Some (Ok (JNull, r))
  | None =>
  match strip (txt "true") s with
  | Some r => Some (Ok (JBool true, r))
  | None =>
  match strip (txt "false") s with
  | Some r => Some (Ok (JBool false, r))
  | None =>
  match strip (txt "NaN") s, strip (txt "Infinity") s, strip (txt "-Infinity") s with
  | None, None, None => None
  | _, _, _ => Some (Err NotModelled)
  end end end end.

(** [scan_once], [JSONArray] and [JSONObject].  [n] bounds the number of
    nested calls, at most two for a character read; [json_loads] gives it
    twice the length of the text. *)
Fixpoint parse_value (n : nat) (s : text) : res (json * text) :=
  match n with
  | O => Err RecursionError
  | S n' =>
      match s with
      | [] => Err JSONDecodeError
      | c :: s' =>
          if ch c 34 then '(str, r) ← scanstring s'; Ok (JStr str, r)
          else if ch c 123 then
            match skip_ws s' with
            | [] => Err JSONDecodeError
            | c1 :: r1 =>
                if ch c1 125 then Ok (JDict [], r1)
                else '(pairs, r) ← parse_object n' (c1 :: r1);
                     Ok (JDict (dict_of_pairs pairs), r)
            end
          else if ch c 91 then
            match skip_ws s' with
            | [] => Err JSONDecodeError
            | c1 :: r1 =>
                if ch c1 93 then Ok (JList [], r1)
                else '(vs, r) ← parse_array n' (c1 :: r1); Ok (JList vs, r)
            end
          else
            match literal s with
            | Some r => r
            | None => scan_number s
            end
      end
  end
with parse_array (n : nat) (s : text) : res (list json * text) :=
  match n with
  | O => Err RecursionError
  | S n' =>
      '(v, s1) ← parse_value n' s;
      match skip_ws s1 with
      | [] => Err JSONDecodeError
      | c :: s2 =>
          if ch c 93 then Ok ([v], s2)
          else if ch c 44 then
            '(vs, r) ← parse_array n' (skip_ws s2); Ok (v :: vs, r)
          else Err JSONDecodeError
      end
  end
with parse_object (n : nat) (s : text) : res (list (string * json) * text) :=
  match n with
  | O => Err RecursionError
  | S n' =>
      match s with
      | [] => Err JSONDecodeError
      | q :: s0 =>
          if ch q 34 then
            '(key, s1) ← scanstring s0;
            match skip_ws s1 with
            | [] => Err JSONDecodeError
            | colon :: s2 =>
                if ch colon 58 then
                  '(v, s3) ← parse_value n' (skip_ws s2);
                  match skip_ws s3 with
                  | [] => Err JSONDecodeError
                  | c :: s4 =>
                      if ch c 125 then Ok ([(key, v)], s4)
                      else if ch c 44 then
                        '(kvs, r) ← parse_object n' (skip_ws s4); Ok ((key, v) :: kvs, r)
                      else Err JSONDecodeError
                  end
                else Err JSONDecodeError
            end
          else Err JSONDecodeError
      end
  end.

(** [json.loads]: one value, white space around it, nothing after it. *)
Definition json_loads (s : text) : res json :=
  '(j, rest) ← parse_value (S (2 * length s)) (skip_ws s);
  match skip_ws rest with
  | [] => Ok j
  | _ :: _ => Err JSONDecodeError
  end.

(** ** [str(x)] inside an f-string *)

Definition printable (n : N) : bool :=
  (N.leb 32 n && N.leb n 126) || (N.leb 161 n && negb (N.eqb n 173)).

Definition repr_char (quote c : ascii) : text :=
  if Ascii.eqb c quote || ch c 92 then [BACKSLASH; c]
  else if ch c 9 then [BACKSLASH; "t"%char]
  else if ch c 10 then [BACKSLASH; "n"%char]
  else if ch c 13 then [BACKSLASH; "r"%char]
  else if printable (code c) then [c]
  else [BACKSLASH; "x"%char; hex_char (code c / 16); hex_char (code c mod 16)].

Definition str_repr (s : string) : text :=
  let cs := list_ascii_of_string s in
  let quote :=
    if bool_decide (APOSTROPHE ∈ cs) && negb (bool_decide (QUOTE ∈ cs))
    then QUOTE else APOSTROPHE in
  quote :: mjoin (repr_char quote <$> cs) ++ [quote].

Fixpoint py_repr (j : json) : text :=
  match j with
  | JNull => txt "None"
  | JBool true => txt "True"
  | JBool false => txt "False"
  | JInt z => int_repr z
  | JStr s => str_repr s
  | JList js => "["%char :: join (txt ", ") (py_repr <$> js) ++ ["]"%char]
  | JDict d =>
      "{"%char :: join (txt ", ") ((λ kv, str_repr kv.1 ++ txt ": " ++ py_repr kv.2) <$> d)
        ++ ["}"%char]
  end.

Definition py_str (j : json) : string :=
  match j with
  | JStr s => s
  | _ => string_of_list_ascii (py_repr j)
  end.

(** The value interpolated into a message. *)
Definition format (v : val) (h : heap) : res string :=
  match snapshot h v with
  | Some j => Ok (py_str j)
  | None => Err RecursionError
  end.

Definition describe (v : val) (h : heap) : res json :=
  match snapshot h v with
  | Some j => Ok j
  | None => Err RecursionError
  end.

(** ** [old_state.items() ^ new_state.items()] *)

Definition items (v : val) (h : heap) : res (list (string * val)) :=
  match v with
  | VRef l =>
      match h !! l with
      | Some (ODict d) => Ok d
      | _ => Err TypeError
      end
  | _ => Err TypeError
  end.

Definition hashable (v : val) : bool :=
  match v with
  | VRef _ => false
  | _ => true
  end.

(** [a == b] on hashable values. *)
Definition atom_eq (a b : val) : bool :=
  match a, b with
  | VNone, VNone => true
  | VBool x, VBool y => bool_decide (x = y)
  | VInt x, VInt y => Z.eqb x y
  | VBool x, VInt y | VInt y, VBool x => Z.eqb (if x then 1 else 0) y
  | VStr x, VStr y => bool_decide (x = y)
  | _, _ => false
  end.

Definition item_in (kv : string * val) (d : list (string * val)) : bool :=
  existsb (λ kv', bool_decide (kv.1 = kv'.1) && atom_eq kv.2 kv'.2) d.

(** The symmetric difference of two sets of items: the items of one side
    that the other side does not have. *)
Definition xor_items (da db : list (string * val)) : list (string * val) :=
  List.filter (λ kv, negb (item_in kv db)) da
    ++ List.filter (λ kv, negb (item_in kv da)) db.

(** The items views are set-like as long as every value is hashable; a
    dict or a list among the values makes the operation raise. *)
Definition items_xor (a b : val) (h : heap) : res (list (string * val)) :=
  da ← items a h;
  db ← items b h;
  if forallb (λ kv, hashable kv.2) (da ++ db)
  then Ok (xor_items da db)
  else Err TypeError.

(** ** The class [PackageResolvedFile] *)

Record PackageResolvedFile := Handle {
  path : string;
  packages : val
}.

Definition SUPPORTED_PACKAGE_RESOLVED_VERSION : Z := 1.

Definition unsupported_message (path found : string) : string :=
  path +:+ " uses version " +:+ found
    +:+ " but `package_resolved.py` supports "
    +:+ "version " +:+ string_of_list_ascii (int_repr SUPPORTED_PACKAGE_RESOLVED_VERSION)
    +:+ ". Update `package_resolved.py` to new format.".

Definition pin_not_found_message (path package_name : string) : string :=
  path +:+ " does not contain pin named " +:+ String QUOTE package_name
    +:+ String QUOTE EmptyString.

Definition open_read (path : string) : M text :=
  λ w, match files w !! path with
       | Some content => (Ok content, w)
       | None => (Err (FileNotFoundError path), w)
       end.

(** [open(path, 'w')] truncates the file. *)
Definition open_write (path : string) : M unit :=
  λ w, (Ok tt, World (store w) (<[path := []]> (files w)) (stdout w)).

Definition file_write (path : string) (chunk : text) : M unit :=
  λ w, (Ok tt, World (store w)
                 (<[path := default [] (files w !! path) ++ chunk]> (files w))
                 (stdout w)).

Definition json_load (content : text) : M val :=
  λ w, match json_loads content with
       | Ok j => let '(v, h) := build j (store w) in (Ok v, set_store w h)
       | Err e => (Err e, w)
       end.

(** [__init__] *)
Definition init (path : string) : M PackageResolvedFile :=
  print (Opening path);;
  content ← open_read path;
  packages ← json_load content;
  version ← lift (py_getitem packages "version");
  if ne_int version SUPPORTED_PACKAGE_RESOLVED_VERSION then
    found ← lift (format version);
    raise (Exception (unsupported_message path found))
  else mret (Handle path packages).

(** The list comprehension of [__get_package]: the indices of the pins
    whose ['package'] equals the name, every pin being looked at. *)
Fixpoint matching (package_name : string) (index : nat) (pins : list val) (h : heap)
  : res (list nat) :=
  match pins with
  | [] => Ok []
  | p :: pins' =>
      name ← py_getitem p "package" h;
      rest ← matching package_name (S index) pins' h;
      Ok (if eq_str name package_name then index :: rest else rest)
  end.

(** [__get_package] *)
Definition get_package (self : PackageResolvedFile) (package_name : string) : M val :=
  object ← lift (py_getitem (packages self) "object");
  pins ← lift (py_getitem object "pins");
  elements ← lift (py_iter pins);
  package_pins ← lift (matching package_name 0 elements);
  match package_pins with
  | [] => raise (Exception (pin_not_found_message (path self) package_name))
  | package_pin_index :: _ =>
      object ← lift (py_getitem (packages self) "object");
      pins ← lift (py_getitem object "pins");
      lift (py_index pins package_pin_index)
  end.

Definition of_option (x : option string) : val :=
  match x with
  | Some s => VStr s
  | None => VNone
  end.

Definition update_dependency (self : PackageResolvedFile) (package_name : string)
    (new_branch new_revision new_version : option string) : M unit :=
  package ← get_package self package_name;
  state ← lift (py_getitem package "state");
  old_state ← deepcopy state;
  state ← lift (py_getitem package "state");
  py_setitem state "branch" (of_option new_branch);;
  state ← lift (py_getitem package "state");
  py_setitem state "revision" (of_option new_revision);;
  state ← lift (py_getitem package "state");
  py_setitem state "version" (of_option new_version);;
  state ← lift (py_getitem package "state");
  new_state ← deepcopy state;
  diff ← lift (items_xor old_state new_state);
  if Nat.ltb 0 (length diff) then
    print (Updated package_name);;
    old ← lift (describe old_state);
    print (OldState old);;
    new ← lift (describe new_state);
    print (NewState new)
  else print (UpToDate package_name).

Definition read_dependency (self : PackageResolvedFile) (package_name : string) : M val :=
  package ← get_package self package_name;
  state ← lift (py_getitem package "state");
  deepcopy state.

Definition get_number_of_dependencies (self : PackageResolvedFile) : M nat :=
  object ← lift (py_getitem (packages self) "object");
  pins ← lift (py_getitem object "pins");
  lift (py_len pins).

Definition save (self : PackageResolvedFile) : M unit :=
  print (Saving (path self));;
  open_write (path self);;
  payload ← lift (json_dumps (packages self));
  file_write (path self) payload;;
  file_write (path self) [NEWLINE].

(** * The vocabulary of the statements *)

(** ** Positions of keys *)

(** The position of a key among the keys of a dict. *)
Fixpoint key_index (ks : list string) (k : string) : option nat :=
  match ks with
  | [] => None
  | k' :: ks' => if decide (k' = k) then Some 0 else S <$> key_index ks' k
  end.

(** ** Fresh objects *)

Definition atom (v : val) : option json :=
  match v with
  | VNone => Some JNull
  | VBool b => Some (JBool b)
  | VInt z => Some (JInt z)
  | VStr s => Some (JStr s)
  | VRef _ => None
  end.

(** What [build] guarantees about the objects it has appended as [ext]. *)
Definition built (h : heap) (j : json) (v : val) (ext : heap) (fp : list loc) : Prop :=
  (∀ n more, length ext ≤ n → snap n (h ++ ext ++ more) v = Some (j, fp))
  ∧ NoDup fp
  ∧ ∀ l, l ∈ fp → length h ≤ l < length h + length ext.

Definition build_ok (j : json) : Prop :=
  ∀ h v h', build j h = (v, h') → ∃ ext fp, h' = h ++ ext ∧ built h j v ext fp.

(** ** Paths into a value *)

(** A path names a member of a value by the positions of the members gone
    through, the same in the store and in the snapshot. *)
Definition jchildren (j : json) : list json :=
  match j with
  | JList js => js
  | JDict d => d.*2
  | _ => []
  end.

Definition jwith (j : json) (js : list json) : json :=
  match j with
  | JList _ => JList js
  | JDict d => JDict (zip d.*1 js)
  | _ => j
  end.

Fixpoint jat (j : json) (p : list nat) : option json :=
  match p with
  | [] => Some j
  | i :: p' => jchildren j !! i ≫= λ c, jat c p'
  end.

Fixpoint jput (j : json) (p : list nat) (x : json) : json :=
  match p with
  | [] => x
  | i :: p' =>
      match jchildren j !! i with
      | Some c => jwith j (<[i := jput c p' x]> (jchildren j))
      | None => j
      end
  end.

Fixpoint walk (h : heap) (v : val) (p : list nat) : option val :=
  match p with
  | [] => Some v
  | i :: p' =>
      match v with
      | VRef l => h !! l ≫= λ o, children o !! i ≫= λ c, walk h c p'
      | _ => None
      end
  end.

(** ** The document seen through its snapshot *)

Definition jget (j : json) (k : string) : option json :=
  match j with
  | JDict d => dict_get d k
  | _ => None
  end.

Definition jset (j : json) (k : string) (x : json) : json :=
  match j with
  | JDict d => JDict (dict_set d k x)
  | _ => j
  end.

Definition val_of (j : json) : option val :=
  match j with
  | JNull => Some VNone
  | JBool b => Some (VBool b)
  | JInt z => Some (VInt z)
  | JStr s => Some (VStr s)
  | _ => None
  end.

(** ** Loaded documents *)

(** [loaded w self j]: in the world [w] the handle [self] holds the document
    [j], and no object of the document is shared. *)
Definition loaded (w : world) (self : PackageResolvedFile) (j : json) : Prop :=
  ∃ fp, snap (length (store w)) (store w) (packages self) = Some (j, fp) ∧ NoDup fp.

Definition pins_of (j : json) : option (list json) :=
  jget j "object" ≫= λ o, jget o "pins" ≫= λ p,
    match p with
    | JList ps => Some ps
    | _ => None
    end.

(** The document [j] with [ps] for its pins. *)
Definition with_pins (j : json) (ps : list json) : json :=
  match jget j "object" with
  | Some o => jset j "object" (jset o "pins" (JList ps))
  | None => j
  end.

Definition has_package (pin : json) : bool :=
  match jget pin "package" with
  | Some _ => true
  | None => false
  end.

Definition name_is (name : string) (pin : json) : bool :=
  match jget pin "package" with
  | Some (JStr s) => bool_decide (s = name)
  | _ => false
  end.

(** The positions, from [index] on, of the pins called [name]. *)
Fixpoint matches (name : string) (index : nat) (ps : list json) : list nat :=
  match ps with
  | [] => []
  | p :: ps' =>
      if name_is name p then index :: matches name (S index) ps'
      else matches name (S index) ps'
  end.

Definition find_pin (name : string) (ps : list json) : option nat :=
  head (matches name 0 ps).

(** [self.packages['object']['pins'][i]], read from the store. *)
Definition pin_ref (self : PackageResolvedFile) (i : nat) (h : heap) : res val :=
  object ← py_getitem (packages self) "object" h;
  pins ← py_getitem object "pins" h;
  py_index pins i h.

(** ** The state of a pin *)

Definition jof (x : option string) : json :=
  match x with
  | Some s => JStr s
  | None => JNull
  end.

(** [loaded_at w self j fp]: the document and the locations it is made of. *)
Definition loaded_at (w : world) (self : PackageResolvedFile) (j : json)
    (fp : list loc) : Prop :=
  snap (length (store w)) (store w) (packages self) = Some (j, fp) ∧ NoDup fp.

Definition hashable_json (j : json) : bool :=
  match j with
  | JList _ | JDict _ => false
  | _ => true
  end.

Definition to_val (j : json) : val := default VNone (val_of j).

(** The items of a state whose values are atoms. *)
Definition state_items (st : list (string * json)) : list (string * val) :=
  (λ kv, (kv.1, to_val kv.2)) <$> st.

(** The state after the three assignments. *)
Definition new_state (st : list (string * json)) (b r v : option string)
  : list (string * json) :=
  dict_set (dict_set (dict_set st "branch" (jof b)) "revision" (jof r))
    "version" (jof v).

(** What [update_dependency] prints for the states before and after. *)
Definition update_notices (name : string) (st st' : list (string * json)) : list notice :=
  if Nat.ltb 0 (length (xor_items (state_items st) (state_items st')))
  then [Updated name; OldState (JDict st); NewState (JDict st')]
  else [UpToDate name].

(** The symmetric difference of two states, taken as sets of items, is
    empty: the states have the same items. *)
Definition same_items (st st' : list (string * json)) : Prop :=
  ∀ kv, kv ∈ st ↔ kv ∈ st'.

(** The symmetric difference is not empty: one state has an item that the
    other does not have. *)
Definition differing_item (st st' : list (string * json)) : Prop :=
  ∃ kv, (kv ∈ st ∧ kv ∉ st') ∨ (kv ∈ st' ∧ kv ∉ st).

(** ** The outcome of [__init__] *)

(** [j != z] for an [int] [z], on the snapshot. *)
Definition jne_int (j : json) (z : Z) : bool :=
  match j with
  | JInt z' => negb (Z.eqb z' z)
  | JBool b => negb (Z.eqb (if b then 1 else 0) z)
  | _ => true
  end.

(** The outcome of the constructor on a file that decodes to [j]. *)
Definition init_result (path : string) (self : PackageResolvedFile) (j : json)
  : res PackageResolvedFile :=
  match j with
  | JDict d =>
      match dict_get d "version" with
      | Some ver =>
          if jne_int ver SUPPORTED_PACKAGE_RESOLVED_VERSION
          then Err (Exception (unsupported_message path (py_str ver)))
          else Ok self
      | None => Err (KeyError (VStr "version"))
      end
  | _ => Err TypeError
  end.

(** ** Encoded text *)

Definition digit_step (a : N) (c : ascii) : N := (10 * a + (code c - 48))%N.

(** What may follow an encoded value: the end of the text, a comma or a
    line break. *)
Definition terminated (rest : text) : Prop :=
  match rest with
  | [] => True
  | c :: _ => ch c 44 || ch c 10 = true
  end.

(** Every dict of the value has distinct keys, as every Python dict has. *)
Fixpoint unique_keys (j : json) : bool :=
  match j with
  | JList js => forallb unique_keys js
  | JDict d => bool_decide (NoDup d.*1) && forallb (λ kv, unique_keys kv.2) d
  | _ => true
  end.

(** The number of calls the decoder makes on the encoding of a value. *)
Fixpoint jsize (j : json) : nat :=
  match j with
  | JList js => S (foldr (λ x n, S (jsize x + n)) 0 js)
  | JDict d => S (foldr (λ kv n, S (jsize kv.2 + n)) 0 d)
  | _ => 1
  end.

Definition decodes (level : nat) (j : json) : Prop :=
  ∀ rest fuel, terminated rest → jsize j ≤ fuel →
    parse_value fuel (encode false level j ++ rest) = Ok (j, rest).

Definition plain_item (level : nat) (kv : string * json) : text :=
  encode_item (kv.1, encode false level kv.2).

(** The decoder has read at least one character of [s], or has failed
    otherwise than by running out of nested calls. *)
Definition progress {A} (s : text) (r : res (A * text)) : Prop :=
  match r with
  | Ok (_, rest) => length rest < length s
  | Err e => e ≠ RecursionError
  end.

(** ** Sorted keys *)

(** The value with the keys of every dict in sorted order. *)
Fixpoint canon (j : json) : json :=
  match j with
  | JList js => JList (canon <$> js)
  | JDict d => JDict (sorted_items ((λ kv, (kv.1, canon kv.2)) <$> d))
  | _ => j
  end.

(** Are the keys in sorted order, with no key twice? *)
Fixpoint is_sorted (ks : list string) : bool :=
  match ks with
  | k1 :: ks' =>
      match ks' with
      | k2 :: _ => String.ltb k1 k2
      | [] => true
      end && is_sorted ks'
  | [] => true
  end.

Fixpoint keys_sorted (j : json) : bool :=
  match j with
  | JList js => forallb keys_sorted js
  | JDict d => is_sorted d.*1 && forallb (λ kv, keys_sorted kv.2) d
  | _ => true
  end.

(** ** Vocabulary of the claims, and sample documents *)

(** [includes sub s]: the text [sub] occurs in [s]. *)
Definition includes (sub s : string) : Prop :=
  ∃ before after, s = before +:+ sub +:+ after.

(** A document used in the examples: two pins, the first one resolved to a
    version. *)
Definition sample_state : list (string * json) :=
  [("branch", JNull); ("revision", JNull); ("version", JStr "1.0.0")].

Definition sample_pin : json :=
  JDict [("package", JStr "X");
         ("repositoryURL", JStr "https://example.com/X");
         ("state", JDict sample_state)].

Definition other_pin : json :=
  JDict [("package", JStr "Y");
         ("repositoryURL", JStr "https://example.com/Y");
         ("state", JDict [("branch", JStr "main"); ("revision", JStr "0f1e2d");
                          ("version", JNull)])].

Definition sample_document : json :=
  JDict [("object", JDict [("pins", JList [sample_pin; other_pin])]);
         ("version", JInt 1)].

Definition sample_path : string := "Package.resolved".

Definition sample_handle : PackageResolvedFile :=
  Handle sample_path (build sample_document []).1.

Definition sample_world : world :=
  World (build sample_document []).2 ∅ [].

(** The locations a value is made of. *)
Definition footprint (h : heap) (v : val) : list loc :=
  match snap (length h) h v with
  | Some (_, fp) => fp
  | None => []
  end.

(** [mutated_through v w w']: from [w] to [w'] the caller has written to
    objects of the value [v] and created objects; every other object is as
    it was. *)
Definition mutated_through (v : val) (w w' : world) : Prop :=
  length (store w) ≤ length (store w')
  ∧ ∀ a, a < length (store w) → a ∉ footprint (store w) v →
         store w' !! a = store w !! a.

(** A document in which two pins have one name. *)
Definition twin_pin (revision : string) : json :=
  JDict [("package", JStr "X");
         ("state", JDict [("branch", JNull); ("revision", JStr revision);
                          ("version", JNull)])].

Definition twin_document : json :=
  JDict [("object", JDict [("pins", JList [other_pin; twin_pin "first";
                                           twin_pin "second"])]);
         ("version", JInt 1)].

Definition twin_handle : PackageResolvedFile :=
  Handle sample_path (build twin_document []).1.

Definition twin_world : world := World (build twin_document []).2 ∅ [].

(** ** Sequences of operations *)

(** The operations the class exposes. *)
Inductive operation :=
| UpdateDependency (package_name : string) (new_branch new_revision new_version : option string)
| ReadDependency (package_name : string)
| GetNumberOfDependencies
| Save.

(** The world after an operation, with whatever outcome. *)
Definition after (self : PackageResolvedFile) (w : world) (o : operation) : world :=
  match o with
  | UpdateDependency name b r v => (update_dependency self name b r v w).2
  | ReadDependency name => (read_dependency self name w).2
  | GetNumberOfDependencies => (get_number_of_dependencies self w).2
  | Save => (save self w).2
  end.

(** ** Indentation *)

Definition is_open (c : ascii) : bool := ch c 91 || ch c 123.

Definition is_close (c : ascii) : bool := ch c 93 || ch c 125.

(** Where the scan of a JSON text stands. *)
Inductive place :=
| Code
| InString
| Escaped
| Opened
| Separated
| Margin (n : nat).

(** One character read at [Code], outside a string and not at the start of
    a line: the depth and the place after it.  A closing bracket may not
    stand there. *)
Definition code_step (depth : nat) (c : ascii) : option (nat * place) :=
  if ch c 34 then Some (depth, InString)
  else if is_open c then Some (S depth, Opened)
  else if is_close c then None
  else if ch c 44 then Some (depth, Separated)
  else if ch c 10 then Some (depth, Margin 0)
  else Some (depth, Code).

(** The text is laid out with an indentation of two spaces.  Outside
    strings,
    - an opening bracket is followed by its closing bracket or by a line
      break ([Opened]);
    - the comma between two items is followed by a line break
      ([Separated]);
    - a line starts with two spaces for each bracket that is open
      ([Margin n], [n] counting the spaces read), and with two spaces less
      when a closing bracket comes first on it;
    - a closing bracket stands nowhere else than right after its opening
      bracket or first on its line.
    So the items of a list or object that is not empty stand one on a line,
    two spaces deeper than the line that opens it, and its closing bracket
    on a line of its own, at the depth of that line. *)
Fixpoint indented (depth : nat) (at_place : place) (s : text) : bool :=
  match s with
  | [] =>
      match at_place with
      | Code => true
      | Margin n => Nat.eqb n 0
      | _ => false
      end
  | c :: s' =>
      match at_place with
      | Code =>
          match code_step depth c with
          | Some (d, p) => indented d p s'
          | None => false
          end
      | InString =>
          if ch c 92 then indented depth Escaped s'
          else if ch c 34 then indented depth Code s'
          else indented depth InString s'
      | Escaped => indented depth InString s'
      | Opened =>
          if is_close c then indented (pred depth) Code s'
          else if ch c 10 then indented depth (Margin 0) s'
          else false
      | Separated =>
          if ch c 10 then indented depth (Margin 0) s' else false
      | Margin n =>
          if ch c 32 then indented depth (Margin (S n)) s'
          else if is_close c then
            Nat.ltb 0 depth && Nat.eqb n (2 * pred depth)
            && indented (pred depth) Code s'
          else
            Nat.eqb n (2 * depth)
            && match code_step depth c with
               | Some (d, p) => indented d p s'
               | None => false
               end
      end
  end.

(** A character that is neither a quote, a bracket, a comma nor a line
    break. *)
Definition plain (c : ascii) : bool :=
  negb (ch c 34 || is_open c || is_close c || ch c 44 || ch c 10).

Definition transparent (level : nat) (j : json) : Prop :=
  ∀ rest, indented level Code (encode false level j ++ rest)
          = indented level Code rest.

(** ** Content and key order *)

(** Two values with the same content: equal but for the order of the keys
    of their dicts.  Lists are compared position by position. *)
Unset Elimination Schemes.
Inductive same_content : json → json → Prop :=
  | same_null : same_content JNull JNull
  | same_bool b : same_content (JBool b) (JBool b)
  | same_int z : same_content (JInt z) (JInt z)
  | same_str s : same_content (JStr s) (JStr s)
  | same_list js js' :
      Forall2 same_content js js' → same_content (JList js) (JList js')
  | same_dict d d' :
      d.*1 ≡ₚ d'.*1 →
      (∀ k, option_Forall2 same_content (dict_get d k) (dict_get d' k)) →
      same_content (JDict d) (JDict d').
Set Elimination Schemes.

(** A document whose keys are not in sorted order. *)
Definition unsorted_document : json :=
  JDict [("version", JInt 1);
         ("object",
          JDict [("pins",
                  JList [JDict [("state", JDict [("version", JStr "1.0.0");
                                                 ("revision", JNull);
                                                 ("branch", JNull)]);
                                ("repositoryURL", JStr "https://example.com/X");
                                ("package", JStr "X")];
                         other_pin])])].

Definition unsorted_handle : PackageResolvedFile :=
  Handle sample_path (build unsorted_document []).1.

Definition unsorted_world : world :=
  World (build unsorted_document []).2 ∅ [].

(** ** Sample files *)

(** A document of format version 2. *)
Definition future_document : json :=
  JDict [("object", JDict [("pins", JList [])]); ("version", JInt 2)].

Definition future_world : world :=
  World [] {[ sample_path := encode true 0 future_document ++ [NEWLINE] ]} [].

(** A file that holds [unsorted_document], its keys in that order. *)
Definition unsorted_file_world : world :=
  World [] {[ sample_path := encode false 0 unsorted_document ++ [NEWLINE] ]} [].

(** ** Further documents and vocabulary *)

(** A document with pins and no version. *)
Definition versionless_document : json :=
  JDict [("object", JDict [("pins", JList [sample_pin])])].

Definition versionless_world : world :=
  World [] {[ sample_path := encode true 0 versionless_document ++ [NEWLINE] ]} [].

(** The first key that the path ['object']['pins'] does not find. *)
Definition missing_key (j : json) : option string :=
  match j with
  | JDict d =>
      match dict_get d "object" with
      | None => Some "object"
      | Some (JDict o) =>
          match dict_get o "pins" with
          | None => Some "pins"
          | Some _ => None
          end
      | Some _ => None
      end
  | _ => None
  end.

(** A document whose ['object'] has no pins. *)
Definition pinless_document : json :=
  JDict [("object", JDict [("version", JInt 1)]); ("version", JInt 1)].

Definition pinless_handle : PackageResolvedFile :=
  Handle sample_path (build pinless_document []).1.

Definition pinless_world : world := World (build pinless_document []).2 ∅ [].

(** A document whose second pin has no name. *)
Definition nameless_pin : json :=
  JDict [("repositoryURL", JStr "https://example.com/Y");
         ("state", JDict sample_state)].

Definition nameless_document : json :=
  JDict [("object", JDict [("pins", JList [sample_pin; nameless_pin])]);
         ("version", JInt 1)].

Definition nameless_handle : PackageResolvedFile :=
  Handle sample_path (build nameless_document []).1.

Definition nameless_world : world := World (build nameless_document []).2 ∅ [].

(** A document whose pin has no state, and one whose pin has [null] for
    its state. *)
Definition stateless_document : json :=
  JDict [("object", JDict [("pins", JList [JDict [("package", JStr "X")]])]);
         ("version", JInt 1)].

Definition stateless_handle : PackageResolvedFile :=
  Handle sample_path (build stateless_document []).1.

Definition stateless_world : world := World (build stateless_document []).2 ∅ [].

Definition unresolved_pin : json :=
  JDict [("package", JStr "X"); ("state", JNull)].

Definition unresolved_document : json :=
  JDict [("object", JDict [("pins", JList [unresolved_pin])]); ("version", JInt 1)].

Definition unresolved_handle : PackageResolvedFile :=
  Handle sample_path (build unresolved_document []).1.

Definition unresolved_world : world := World (build unresolved_document []).2 ∅ [].

(** The keys among [branch], [revision], [version] that a state lacks. *)
Definition absent_keys (st : list (string * json)) : list string :=
  (if decide ("branch" ∈ st.*1) then [] else ["branch"])
    ++ (if decide ("revision" ∈ st.*1) then [] else ["revision"])
    ++ (if decide ("version" ∈ st.*1) then [] else ["version"]).

(** A pin whose state holds a revision only. *)
Definition partial_pin : json :=
  JDict [("package", JStr "X"); ("state", JDict [("revision", JStr "0f1e2d")])].

Definition partial_document : json :=
  JDict [("object", JDict [("pins", JList [partial_pin])]); ("version", JInt 1)].

Definition partial_handle : PackageResolvedFile :=
  Handle sample_path (build partial_document []).1.

Definition partial_world : world := World (build partial_document []).2 ∅ [].

(** Is every character of the text an ASCII character? *)
Definition ascii_only (t : text) : bool := forallb (λ c, N.ltb (code c) 128) t.

(** A document with a name outside ASCII: its last character is an e with
    an acute accent, code point 233. *)
Definition accented_name : string :=
  String "C"%char (String "a"%char (String "f"%char (String "233"%char EmptyString))).

Definition accented_document : json :=
  JDict [("object",
          JDict [("pins", JList [JDict [("package", JStr accented_name);
                                        ("state", JDict sample_state)]])]);
         ("version", JInt 1)].

Definition accented_handle : PackageResolvedFile :=
  Handle sample_path (build accented_document []).1.

Definition accented_world : world := World (build accented_document []).2 ∅ [].

(** A file that holds [sample_document]. *)
Definition sample_file_world : world :=
  World [] {[ sample_path := encode true 0 sample_document ++ [NEWLINE] ]} [].

(** * Facts about dicts *)

Section dict_facts.
Context {A : Type}.
Implicit Types (d : list (string * A)) (k : string).

Lemma dict_get_set_eq d k x : dict_get (dict_set d k x) k = Some x.
Proof.
  induction d as [|[k' y] d IH]; csimpl.
  - by rewrite decide_True.
  - destruct (decide (k' = k)); csimpl.
    + by rewrite decide_True.
    + by rewrite decide_False.
Qed.

Lemma dict_get_set_ne d k k' x :
  k ≠ k' → dict_get (dict_set d k x) k' = dict_get d k'.
Proof.
  intros Hne. induction d as [|[k0 y] d IH]; csimpl.
  - by rewrite decide_False.
  - destruct (decide (k0 = k)) as [->|]; csimpl.
    + by rewrite !decide_False.
    + destruct (decide (k0 = k')); auto.
Qed.

Lemma dict_get_index d k : dict_get d k = key_index d.*1 k ≫= (d.*2 !!.).
Proof.
  induction d as [|[k' y] d IH]; csimpl; [done|].
  destruct (decide (k' = k)); csimpl; [done|].
  rewrite IH. by destruct (key_index d.*1 k).
Qed.

Lemma key_index_lt (ks : list string) k i : key_index ks k = Some i → i < length ks.
Proof.
  revert i. induction ks as [|k' ks IH]; intros i; csimpl; [done|].
  destruct (decide (k' = k)).
  - intros [= <-]. lia.
  - destruct (key_index ks k) as [i'|]; csimpl; [|done].
    intros [= <-]. specialize (IH i' eq_refl). lia.
Qed.

Lemma key_index_lookup (ks : list string) k i : key_index ks k = Some i → ks !! i = Some k.
Proof.
  revert i. induction ks as [|k' ks IH]; intros i; csimpl; [done|].
  destruct (decide (k' = k)) as [->|].
  - by intros [= <-].
  - destruct (key_index ks k) as [i'|]; csimpl; [|done].
    intros [= <-]. by apply IH.
Qed.

Lemma key_index_first (ks : list string) k i i' :
  key_index ks k = Some i → i' < i → ks !! i' ≠ Some k.
Proof.
  revert i i'. induction ks as [|k' ks IH]; intros i i'; csimpl; [done|].
  destruct (decide (k' = k)).
  - intros [= <-]. lia.
  - destruct (key_index ks k) as [i0|]; csimpl; [|done].
    intros [= <-] Hlt. destruct i'; csimpl; [congruence|].
    apply (IH i0); [done|lia].
Qed.

Lemma key_index_None (ks : list string) k : key_index ks k = None ↔ k ∉ ks.
Proof.
  induction ks as [|k' ks IH]; csimpl.
  - split; [intros _; apply not_elem_of_nil|done].
  - rewrite not_elem_of_cons. destruct (decide (k' = k)) as [->|].
    + split; [done|]. by intros [? _].
    + rewrite <-IH. destruct (key_index ks k); csimpl; intuition congruence.
Qed.

(** Overwriting a key keeps the keys and their order. *)
Lemma dict_set_present d k x i :
  key_index d.*1 k = Some i →
  (dict_set d k x).*1 = d.*1 ∧ (dict_set d k x).*2 = <[i := x]> d.*2.
Proof.
  revert i. induction d as [|[k' y] d IH]; intros i; csimpl; [done|].
  destruct (decide (k' = k)).
  - by intros [= <-].
  - destruct (key_index d.*1 k) as [i'|]; csimpl; [|done].
    intros [= <-]. destruct (IH i' eq_refl) as [-> ->]. done.
Qed.

(** A new key goes last. *)
Lemma dict_set_absent d k x :
  key_index d.*1 k = None → dict_set d k x = d ++ [(k, x)].
Proof.
  induction d as [|[k' y] d IH]; csimpl; [done|].
  destruct (decide (k' = k)); [done|].
  destruct (key_index d.*1 k); csimpl; [done|].
  intros _. by rewrite IH.
Qed.

Lemma dict_set_keys_NoDup d k x : NoDup d.*1 → NoDup (dict_set d k x).*1.
Proof.
  intros Hd. destruct (key_index d.*1 k) as [i|] eqn:Hi.
  - by destruct (dict_set_present d k x i Hi) as [-> _].
  - rewrite dict_set_absent by done. rewrite fmap_app. csimpl.
    apply NoDup_app. split_and!; [done| |apply NoDup_singleton].
    intros k' Hk' ->%list_elem_of_singleton. by apply key_index_None in Hi.
Qed.
End dict_facts.

(** * Facts about the store *)

Lemma snap_atom n h v j : atom v = Some j → snap n h v = Some (j, []).
Proof. destruct n, v; simpl; congruence. Qed.

Lemma snap_ref n h l :
  snap (S n) h (VRef l) =
    match h !! l with
    | Some o =>
        match mapM (snap n h) (children o) with
        | Some rs => Some (assemble o rs.*1, l :: mjoin rs.*2)
        | None => None
        end
    | None => None
    end.
Proof. done. Qed.

Lemma snap_ref_inv n h l j fp :
  snap n h (VRef l) = Some (j, fp) →
  ∃ n' o rs, n = S n' ∧ h !! l = Some o
    ∧ Forall2 (λ v r, snap n' h v = Some r) (children o) rs
    ∧ j = assemble o rs.*1 ∧ fp = l :: mjoin rs.*2.
Proof.
  destruct n as [|n']; [done|]. rewrite snap_ref.
  destruct (h !! l) as [o|]; [|done].
  destruct (mapM _ _) as [rs|] eqn:E; [|done]. intros [= <- <-].
  exists n', o, rs. split_and!; try done. by apply mapM_Some.
Qed.

Lemma snap_ref_intro n h l o rs :
  h !! l = Some o →
  Forall2 (λ v r, snap n h v = Some r) (children o) rs →
  snap (S n) h (VRef l) = Some (assemble o rs.*1, l :: mjoin rs.*2).
Proof.
  intros Hl Hrs. apply mapM_Some in Hrs. by rewrite snap_ref, Hl, Hrs.
Qed.

(** More fuel does not change a snapshot. *)
Lemma snap_mono n m h v r : snap n h v = Some r → n ≤ m → snap m h v = Some r.
Proof.
  revert m v r. induction n as [|n IH]; intros m v [j fp] Hs Hle.
  - destruct v; by destruct m.
  - destruct v; try (by destruct m).
    apply snap_ref_inv in Hs as (n' & o & rs & [= <-] & Hl & Hrs & -> & ->).
    destruct m as [|m]; [lia|].
    apply snap_ref_intro; [done|].
    eapply Forall2_impl; [done|]. intros v r Hv. apply IH; [done|lia].
Qed.

(** A footprint lies inside the store, and the fuel covers it. *)
Lemma snap_footprint_lt n h v j fp l :
  snap n h v = Some (j, fp) → l ∈ fp → l < length h.
Proof.
  revert v j fp. induction n as [|n IH]; intros v j fp Hs Hin.
  - destruct v; try done; simpl in Hs; simplify_eq; by apply elem_of_nil in Hin.
  - destruct v; try (simpl in Hs; simplify_eq; by apply elem_of_nil in Hin).
    apply snap_ref_inv in Hs as (n' & o & rs & [= <-] & Hl & Hrs & -> & ->).
    apply elem_of_cons in Hin as [->|Hin]; [by eapply lookup_lt_Some|].
    apply list_elem_of_join in Hin as (fp' & Hin & Hfp').
    apply list_elem_of_fmap in Hfp' as ([j' fp''] & -> & Hr).
    apply list_elem_of_lookup in Hr as [i Hi].
    destruct (Forall2_lookup_r _ _ _ _ _ Hrs Hi) as (v' & _ & Hv').
    by eapply IH.
Qed.

(** A snapshot only depends on the objects of its footprint. *)
Lemma snap_frame n h h' v j fp :
  snap n h v = Some (j, fp) →
  (∀ l, l ∈ fp → h' !! l = h !! l) →
  snap n h' v = Some (j, fp).
Proof.
  revert v j fp. induction n as [|n IH]; intros v j fp Hs Hagree.
  - by destruct v.
  - destruct v; try done.
    apply snap_ref_inv in Hs as (n' & o & rs & [= <-] & Hl & Hrs & -> & ->).
    apply snap_ref_intro.
    + rewrite Hagree; [done|]. apply elem_of_cons; by left.
    + apply Forall2_same_length_lookup. split; [by eapply Forall2_length|].
      intros i v [j' fp'] Hv Hr. apply IH.
      * by eapply Forall2_lookup_lr in Hrs.
      * intros l' Hl'. apply Hagree. apply elem_of_cons. right.
        apply list_elem_of_join. exists fp'. split; [done|].
        apply list_elem_of_fmap. exists (j', fp'). split; [done|].
        by eapply list_elem_of_lookup_2.
Qed.

Lemma snap_extend n h ext v r : snap n h v = Some r → snap n (h ++ ext) v = Some r.
Proof.
  destruct r as [j fp]. intros Hs. eapply snap_frame; [done|].
  intros l Hl. apply lookup_app_l. by eapply snap_footprint_lt.
Qed.

(** ** Building fresh objects *)

Lemma thread_fmap {A B C} (f : B → heap → C * heap) (g : A → B) xs h :
  thread (λ x, f (g x)) xs h = thread f (g <$> xs) h.
Proof.
  revert h. induction xs as [|x xs IH]; intros h; csimpl; [done|].
  destruct (f (g x) h) as [y h1]. by rewrite IH.
Qed.

Lemma thread_length {A B} (f : A → heap → B * heap) xs h ys h' :
  thread f xs h = (ys, h') → length ys = length xs.
Proof.
  revert h ys h'. induction xs as [|x xs IH]; intros h ys h'; simpl.
  - by intros [= <- <-].
  - destruct (f x h) as [y h1]. destruct (thread f xs h1) as [ys' h2] eqn:E.
    intros [= <- <-]. simpl. f_equal. by eapply IH.
Qed.

Lemma thread_build js :
  Forall build_ok js →
  ∀ h vs h', thread build js h = (vs, h') →
  ∃ ext fps, h' = h ++ ext
    ∧ (∀ n more, length ext ≤ n →
         Forall2 (λ v r, snap n (h ++ ext ++ more) v = Some r) vs (zip js fps))
    ∧ length fps = length js
    ∧ NoDup (mjoin fps)
    ∧ ∀ l, l ∈ mjoin fps → length h ≤ l < length h + length ext.
Proof.
  induction 1 as [|j js Hj _ IH]; intros h vs h'; simpl.
  - intros [= <- <-]. exists [], []. rewrite app_nil_r. split_and!; try done.
    + constructor.
    + intros l Hl. by apply elem_of_nil in Hl.
  - destruct (build j h) as [v h1] eqn:Hb.
    destruct (thread build js h1) as [vs' h2] eqn:Ht. intros [= <- <-].
    destruct (Hj _ _ _ Hb) as (ext1 & fp1 & -> & Hsnap1 & Hnd1 & Hin1).
    destruct (IH _ _ _ Ht) as (ext2 & fps & -> & Hsnap2 & Hlen & Hnd2 & Hin2).
    exists (ext1 ++ ext2), (fp1 :: fps). rewrite length_app in *.
    split_and!.
    + by rewrite app_assoc.
    + intros n more Hn. simpl. constructor.
      * rewrite <-(app_assoc ext1). apply Hsnap1. lia.
      * specialize (Hsnap2 n more). rewrite <-!app_assoc in Hsnap2.
        rewrite <-app_assoc. apply Hsnap2. lia.
    + simpl. by rewrite Hlen.
    + simpl. apply NoDup_app. split_and!; [done| |done].
      intros l Hl1 Hl2. apply Hin1 in Hl1. apply Hin2 in Hl2. lia.
    + intros l. simpl. rewrite elem_of_app. intros [Hl|Hl].
      * apply Hin1 in Hl. lia.
      * apply Hin2 in Hl. lia.
Qed.

Lemma zip_with_snaps (js : list json) (fps : list (list loc)) :
  length fps = length js → (zip js fps).*1 = js ∧ (zip js fps).*2 = fps.
Proof. intros Hlen. split; [apply fst_zip|apply snd_zip]; lia. Qed.

Lemma build_spec j : build_ok j.
Proof.
  induction j as [| | | |js IH|d IH] using json_ind; intros h v h'; simpl;
    try (intros [= <- <-]; exists [], []; rewrite app_nil_r;
         split; [done|]; split_and!;
         [intros; by apply snap_atom|constructor
         |intros l Hl; by apply elem_of_nil in Hl]).
  - destruct (thread build js h) as [vs h1] eqn:Ht. intros [= <- <-].
    destruct (thread_build js IH _ _ _ Ht) as (ext & fps & -> & Hsnap & Hlen & Hnd & Hin).
    destruct (zip_with_snaps js fps Hlen) as [Hz1 Hz2].
    exists (ext ++ [OList vs]), (length (h ++ ext) :: mjoin fps).
    rewrite app_assoc. split; [done|]. unfold built.
    rewrite !length_app. simpl. split_and!.
    + intros n more Hn. destruct n as [|n]; [lia|].
      pose proof (snap_ref_intro n ((h ++ ext) ++ [OList vs] ++ more)
                    (length (h ++ ext)) (OList vs) (zip js fps)) as Hs.
      rewrite Hz1, Hz2, length_app in Hs. rewrite <-!app_assoc in *.
      apply Hs.
      * rewrite app_assoc. apply list_lookup_middle. by rewrite length_app.
      * simpl. apply Hsnap. lia.
    + apply NoDup_cons. split; [|done]. intros Hl%Hin. lia.
    + intros l [->|Hl%Hin]%elem_of_cons; lia.
  - rewrite thread_fmap.
    destruct (thread build d.*2 h) as [vs h1] eqn:Ht. intros [= <- <-].
    assert (Forall build_ok d.*2) as IH' by (by apply Forall_fmap).
    destruct (thread_build _ IH' _ _ _ Ht) as (ext & fps & -> & Hsnap & Hlen & Hnd & Hin).
    destruct (zip_with_snaps d.*2 fps Hlen) as [Hz1 Hz2].
    apply thread_length in Ht. rewrite length_fmap in Ht, Hlen.
    exists (ext ++ [ODict (zip d.*1 vs)]), (length (h ++ ext) :: mjoin fps).
    rewrite app_assoc. split; [done|]. unfold built.
    rewrite !length_app. simpl. split_and!.
    + intros n more Hn. destruct n as [|n]; [lia|].
      pose proof (snap_ref_intro n ((h ++ ext) ++ [ODict (zip d.*1 vs)] ++ more)
                    (length (h ++ ext)) (ODict (zip d.*1 vs)) (zip d.*2 fps)) as Hs.
      simpl in Hs. rewrite Hz1, Hz2, length_app in Hs.
      rewrite fst_zip, zip_fst_snd in Hs by (rewrite length_fmap; lia).
      rewrite snd_zip in Hs by (rewrite length_fmap; lia).
      rewrite <-!app_assoc in *. apply Hs.
      * rewrite app_assoc. apply list_lookup_middle. by rewrite length_app.
      * apply Hsnap. lia.
    + apply NoDup_cons. split; [|done]. intros Hl%Hin. lia.
    + intros l [->|Hl%Hin]%elem_of_cons; lia.
Qed.

(** ** [deepcopy] rebuilds the snapshot *)

Lemma thread_opt_build n :
  (∀ h v j fp, snap n h v = Some (j, fp) → deepcopy_go n v h = Some (build j h)) →
  ∀ cs rs h,
    Forall2 (λ c r, snap n h c = Some r) cs rs →
    thread_opt (deepcopy_go n) cs h = Some (thread build rs.*1 h).
Proof.
  intros IH cs rs h Hrs. revert h Hrs.
  induction rs as [|[j fp] rs IHrs] in cs |- *; intros h Hrs.
  - by apply Forall2_nil_inv_r in Hrs as ->.
  - apply Forall2_cons_inv_r in Hrs as (c & cs' & Hc & Hcs & ->). csimpl.
    rewrite (IH _ _ _ _ Hc). csimpl.
    destruct (build j h) as [y h1] eqn:Hb.
    destruct (build_spec j _ _ _ Hb) as (ext & ? & -> & _).
    rewrite (IHrs cs' (h ++ ext)).
    + csimpl. by destruct (thread build rs.*1 (h ++ ext)).
    + eapply Forall2_impl; [done|]. intros c' r' ?. by apply snap_extend.
Qed.

Lemma deepcopy_go_build n :
  ∀ h v j fp, snap n h v = Some (j, fp) → deepcopy_go n v h = Some (build j h).
Proof.
  induction n as [|n IH]; intros h v j fp Hs.
  - destruct v; simpl in *; by simplify_eq.
  - destruct v; try (simpl in *; by simplify_eq).
    apply snap_ref_inv in Hs as (n' & o & rs & [= <-] & Hl & Hrs & -> & ->).
    cbn [deepcopy_go]. rewrite Hl. cbn [mbind option_bind].
    rewrite (thread_opt_build n IH _ _ _ Hrs). cbn [mbind option_bind].
    apply Forall2_length in Hrs.
    destruct o as [d|xs]; cbn [with_children assemble build children] in *.
    + rewrite (thread_fmap build snd). rewrite length_fmap in Hrs.
      rewrite snd_zip by (rewrite !length_fmap; lia).
      destruct (thread build rs.*1 h) as [vs h']. csimpl.
      by rewrite fst_zip by (rewrite !length_fmap; lia).
    + by destruct (thread build rs.*1 h) as [vs h'].
Qed.

Lemma deepcopy_spec w v j fp :
  snap (length (store w)) (store w) v = Some (j, fp) →
  ∃ v' ext fp',
    deepcopy v w = (Ok v', set_store w (store w ++ ext))
    ∧ built (store w) j v' ext fp'.
Proof.
  intros Hs. unfold deepcopy. rewrite (deepcopy_go_build _ _ _ _ _ Hs).
  destruct (build j (store w)) as [v' h'] eqn:Hb.
  destruct (build_spec j _ _ _ Hb) as (ext & fp' & -> & Hbuilt).
  by exists v', ext, fp'.
Qed.

Lemma built_snapshot h j v ext fp more :
  built h j v ext fp → snapshot (h ++ ext ++ more) v = Some j.
Proof.
  intros (Hs & _). unfold snapshot. rewrite Hs; [done|].
  rewrite !length_app. lia.
Qed.

(** ** Paths into a value *)

Lemma jchildren_assemble o js :
  length js = length (children o) → jchildren (assemble o js) = js.
Proof.
  destruct o as [d|xs]; simpl; [|done]. rewrite length_fmap. intros Hlen.
  apply snd_zip. rewrite length_fmap. lia.
Qed.

Lemma jwith_assemble o js js' :
  length js = length (children o) → jwith (assemble o js) js' = assemble o js'.
Proof.
  destruct o as [d|xs]; simpl; [|done]. rewrite length_fmap. intros Hlen.
  by rewrite fst_zip by (rewrite length_fmap; lia).
Qed.

Lemma join_lookup_subseteq {A} (ls : list (list A)) i l :
  ls !! i = Some l → l ⊆ mjoin ls.
Proof.
  intros Hi x Hx. apply list_elem_of_join. exists l. split; [done|].
  by eapply list_elem_of_lookup_2.
Qed.

Lemma join_split {A} (ls : list (list A)) i l :
  ls !! i = Some l →
  mjoin ls = mjoin (take i ls) ++ l ++ mjoin (drop (S i) ls).
Proof.
  intros Hi. rewrite <-(take_drop_middle ls i l Hi) at 1.
  by rewrite join_app.
Qed.

Lemma join_insert_split {A} (ls : list (list A)) i l l' :
  ls !! i = Some l →
  mjoin (<[i := l']> ls) = mjoin (take i ls) ++ l' ++ mjoin (drop (S i) ls).
Proof.
  intros Hi. rewrite insert_take_drop by (by eapply lookup_lt_Some).
  by rewrite join_app.
Qed.

Lemma join_lookup_disjoint {A} (ls : list (list A)) i k a b x :
  NoDup (mjoin ls) → ls !! i = Some a → ls !! k = Some b → i ≠ k →
  x ∈ a → x ∉ b.
Proof.
  intros Hnd Hi Hk Hne Ha Hb.
  rewrite (join_split ls i a Hi) in Hnd.
  apply NoDup_app in Hnd as (_ & Hl & Hnd). apply NoDup_app in Hnd as (_ & Hr & _).
  destruct (decide (k < i)).
  - apply (Hl x); [|apply elem_of_app; by left].
    apply list_elem_of_join. exists b. split; [done|].
    apply list_elem_of_lookup. exists k. rewrite lookup_take_lt by done. done.
  - apply (Hr x Ha). apply list_elem_of_join. exists b. split; [done|].
    apply list_elem_of_lookup. exists (k - S i). rewrite lookup_drop.
    by replace (S i + (k - S i)) with k by lia.
Qed.

Lemma join_insert_NoDup {A} (ls : list (list A)) i l l' :
  NoDup (mjoin ls) → ls !! i = Some l → l' ⊆ l → NoDup l' →
  NoDup (mjoin (<[i := l']> ls)) ∧ mjoin (<[i := l']> ls) ⊆ mjoin ls.
Proof.
  intros Hnd Hi Hsub Hnd'.
  rewrite (join_insert_split ls i l l' Hi). rewrite (join_split ls i l Hi) in Hnd |- *.
  apply NoDup_app in Hnd as (Hnd1 & Hl & Hnd). apply NoDup_app in Hnd as (_ & Hr & Hnd3).
  split.
  - apply NoDup_app. split_and!; [done| |].
    + intros x Hx [Hx'|Hx']%elem_of_app; apply (Hl x Hx); apply elem_of_app; auto.
    + apply NoDup_app. split_and!; [done| |done]. intros x Hx. apply Hr. auto.
  - intros x. rewrite !elem_of_app. intros [?|[?|?]]; auto.
Qed.

(** Following a path in the snapshot is following it in the store. *)
Lemma walk_snap p :
  ∀ n h v j fp jc,
    snap n h v = Some (j, fp) → jat j p = Some jc →
    ∃ vc fpc, walk h v p = Some vc
      ∧ snap (n - length p) h vc = Some (jc, fpc) ∧ fpc ⊆ fp.
Proof.
  induction p as [|i p IH]; intros n h v j fp jc Hs Hat.
  - simpl in Hat. simplify_eq. exists v, fp. rewrite Nat.sub_0_r. done.
  - simpl in Hat. destruct (jchildren j !! i) as [ji|] eqn:Hji; [|done].
    simpl in Hat.
    destruct v as [| | | |l]; try (destruct n; simpl in Hs; by simplify_eq).
    apply snap_ref_inv in Hs as (n' & o & rs & -> & Hl & Hrs & -> & ->).
    rewrite jchildren_assemble in Hji
      by (rewrite length_fmap; symmetry; by eapply Forall2_length).
    apply list_lookup_fmap_Some in Hji as ([ji' fpi] & ? & Hri). simplify_eq/=.
    destruct (Forall2_lookup_r _ _ _ _ _ Hrs Hri) as (c & Hc & Hsc).
    destruct (IH _ _ _ _ _ _ Hsc Hat) as (vc & fpc & Hw & Hsvc & Hsub).
    exists vc, fpc. rewrite Hl. simpl. rewrite Hc. simpl. split_and!; try done.
    intros x Hx. apply elem_of_cons. right.
    eapply join_lookup_subseteq; [|by apply Hsub].
    by rewrite list_lookup_fmap, Hri.
Qed.

Lemma snap_walk p :
  ∀ n h v j fp vc,
    snap n h v = Some (j, fp) → walk h v p = Some vc →
    ∃ jc fpc, jat j p = Some jc
      ∧ snap (n - length p) h vc = Some (jc, fpc) ∧ fpc ⊆ fp
      ∧ (NoDup fp → NoDup fpc).
Proof.
  induction p as [|i p IH]; intros n h v j fp vc Hs Hw.
  - simpl in Hw. simplify_eq. exists j, fp. rewrite Nat.sub_0_r. done.
  - destruct v as [| | | |l]; try done. simpl in Hw.
    destruct (h !! l) as [o|] eqn:Hl; [|done]. simpl in Hw.
    destruct (children o !! i) as [c|] eqn:Hc; [|done]. simpl in Hw.
    apply snap_ref_inv in Hs as (n' & o' & rs & -> & Hl' & Hrs & -> & ->).
    simplify_eq.
    destruct (Forall2_lookup_l _ _ _ _ _ Hrs Hc) as ([ji fpi] & Hri & Hsi).
    destruct (IH _ _ _ _ _ _ Hsi Hw) as (jc & fpc & Hat & Hsc & Hsub & Hnd).
    assert (rs.*2 !! i = Some fpi) as Hfpi by (by rewrite list_lookup_fmap, Hri).
    exists jc, fpc. split_and!; [|done| |].
    + simpl. rewrite jchildren_assemble
        by (rewrite length_fmap; symmetry; by eapply Forall2_length).
      rewrite list_lookup_fmap, Hri. done.
    + intros x Hx. apply elem_of_cons. right.
      eapply join_lookup_subseteq; [|by apply Hsub]. done.
    + intros [_ Hnd']%NoDup_cons. apply Hnd.
      rewrite (join_split _ _ _ Hfpi) in Hnd'.
      apply NoDup_app in Hnd' as (_ & _ & Hnd'). by apply NoDup_app in Hnd' as (? & _).
Qed.

(** Replacing what a path leads to, in a store where no object of the
    value is shared: the rest of the value is untouched. *)
Lemma snap_put p :
  ∀ n h h' v j fp vc jc fpc jc' fpc',
    snap n h v = Some (j, fp) → NoDup fp →
    walk h v p = Some vc →
    snap (n - length p) h vc = Some (jc, fpc) →
    (∀ l, l ∉ fpc → h' !! l = h !! l) →
    snap (n - length p) h' vc = Some (jc', fpc') →
    fpc' ⊆ fpc → NoDup fpc' →
    ∃ fp', snap n h' v = Some (jput j p jc', fp') ∧ fp' ⊆ fp ∧ NoDup fp'
      ∧ walk h' v p = Some vc.
Proof.
  induction p as [|i p IH]; intros n h h' v j fp vc jc fpc jc' fpc' Hs Hnd Hw Hsc Hagree Hsc' Hsub Hnd'.
  - simpl in *. rewrite Nat.sub_0_r in *. simplify_eq. by exists fpc'.
  - destruct v as [| | | |l]; try done. simpl in Hw.
    destruct (h !! l) as [o|] eqn:Hl; [|done]. simpl in Hw.
    destruct (children o !! i) as [c|] eqn:Hc; [|done]. simpl in Hw.
    apply snap_ref_inv in Hs as (n' & o' & rs & -> & Hl' & Hrs & -> & ->).
    simplify_eq. simpl in Hsc, Hsc'.
    apply NoDup_cons in Hnd as [Hl0 Hnd].
    destruct (Forall2_lookup_l _ _ _ _ _ Hrs Hc) as ([ji fpi] & Hri & Hsi).
    assert (rs.*2 !! i = Some fpi) as Hfpi by (by rewrite list_lookup_fmap, Hri).
    assert (rs.*1 !! i = Some ji) as Hji by (by rewrite list_lookup_fmap, Hri).
    assert (fpi ⊆ mjoin rs.*2) as Hfpi_sub by (by eapply join_lookup_subseteq).
    assert (NoDup fpi) as Hndi.
    { rewrite (join_split _ _ _ Hfpi) in Hnd.
      apply NoDup_app in Hnd as (_ & _ & Hnd). by apply NoDup_app in Hnd as (? & _). }
    assert (fpc ⊆ fpi) as Hfpc.
    { destruct (snap_walk p n' h c ji fpi vc Hsi Hw) as (jc0 & fpc0 & _ & Hs' & Hsub' & _).
      by simplify_eq. }
    destruct (IH _ _ _ _ _ _ _ _ _ _ _ Hsi Hndi Hw Hsc Hagree Hsc' Hsub Hnd')
      as (fpi' & Hsi' & Hsubi & Hndi' & Hw').
    assert (h' !! l = Some o') as Hl1.
    { rewrite Hagree; [done|]. intros Hin. apply Hl0, Hfpi_sub, Hfpc, Hin. }
    destruct (join_insert_NoDup _ _ _ fpi' Hnd Hfpi Hsubi Hndi') as [Hnd2 Hsub2].
    exists (l :: mjoin (<[i := fpi']> rs.*2)).
    assert (length rs.*1 = length (children o')) as Hlen
      by (rewrite length_fmap; symmetry; by eapply Forall2_length).
    split_and!.
    + simpl. rewrite jchildren_assemble, Hji, jwith_assemble by done.
      pose proof (snap_ref_intro n' h' l o' (<[i := (jput ji p jc', fpi')]> rs)) as Hintro.
      rewrite !list_fmap_insert in Hintro. apply Hintro.
      * done.
      * apply Forall2_same_length_lookup. split.
        { rewrite length_insert. by eapply Forall2_length. }
        intros k ck rk Hck Hrk. destruct (decide (k = i)) as [->|Hne].
        { rewrite list_lookup_insert_eq in Hrk by (by eapply lookup_lt_Some).
          by simplify_eq. }
        rewrite list_lookup_insert_ne in Hrk by done.
        destruct rk as [jk fpk]. eapply snap_frame.
        { by eapply Forall2_lookup_lr in Hrs. }
        intros x Hx. apply Hagree. intros Hin%Hfpc.
        eapply (join_lookup_disjoint rs.*2 i k fpi fpk x); try done.
        by rewrite list_lookup_fmap, Hrk.
    + intros x [->|Hx]%elem_of_cons; apply elem_of_cons; [by left|right; by apply Hsub2].
    + apply NoDup_cons. split; [|done]. intros Hin. by apply Hl0, Hsub2.
    + simpl. rewrite Hl1. simpl. rewrite Hc. done.
Qed.

(** ** The document seen through its snapshot *)

Lemma walk_app h v p q : walk h v (p ++ q) = walk h v p ≫= λ c, walk h c q.
Proof.
  revert v. induction p as [|i p IH]; intros v; simpl; [done|].
  destruct v; try done. destruct (h !! l) as [o|]; [|done]. simpl.
  destruct (children o !! i); [|done]. simpl. apply IH.
Qed.

Lemma jat_app j p q : jat j (p ++ q) = jat j p ≫= λ c, jat c q.
Proof.
  revert j. induction p as [|i p IH]; intros j; simpl; [done|].
  destruct (jchildren j !! i); [|done]. simpl. apply IH.
Qed.

Lemma jput_app j p q x c :
  jat j p = Some c → jput j (p ++ q) x = jput j p (jput c q x).
Proof.
  revert j. induction p as [|i p IH]; intros j; simpl.
  - by intros [= ->].
  - destruct (jchildren j !! i) as [ji|]; [|done]. simpl. intros Hat.
    by rewrite (IH _ Hat).
Qed.

(** A snapshot that is an atom comes from that atom. *)
Lemma snap_val_of n h v j fp x :
  snap n h v = Some (j, fp) → val_of j = Some x → v = x ∧ fp = [].
Proof.
  intros Hs Hj. destruct v as [| | | |l].
  1-4: destruct n; simpl in Hs; simplify_eq; simpl in Hj; by simplify_eq.
  apply snap_ref_inv in Hs as (n' & o & rs & -> & _ & _ & -> & ->).
  by destruct o.
Qed.

(** A snapshot that is a dict comes from a dict with the same keys. *)
Lemma snap_dict_inv n h v dj fp :
  snap n h v = Some (JDict dj, fp) →
  ∃ n' l d rs, n = S n' ∧ v = VRef l ∧ h !! l = Some (ODict d)
    ∧ Forall2 (λ c r, snap n' h c = Some r) d.*2 rs
    ∧ dj = zip d.*1 rs.*1 ∧ fp = l :: mjoin rs.*2
    ∧ dj.*1 = d.*1 ∧ dj.*2 = rs.*1.
Proof.
  intros Hs. destruct v as [| | | |l]; try (destruct n; simpl in Hs; by simplify_eq).
  apply snap_ref_inv in Hs as (n' & o & rs & -> & Hl & Hrs & Hj & ->).
  destruct o as [d|xs]; [|done]. simpl in Hj, Hrs. simplify_eq.
  exists n', l, d, rs. split_and!; try done.
  - apply fst_zip. apply Forall2_length in Hrs. rewrite !length_fmap in *. lia.
  - apply snd_zip. apply Forall2_length in Hrs. rewrite !length_fmap in *. lia.
Qed.

Lemma snap_list_inv n h v js fp :
  snap n h v = Some (JList js, fp) →
  ∃ n' l xs rs, n = S n' ∧ v = VRef l ∧ h !! l = Some (OList xs)
    ∧ Forall2 (λ c r, snap n' h c = Some r) xs rs
    ∧ js = rs.*1 ∧ fp = l :: mjoin rs.*2.
Proof.
  intros Hs. destruct v as [| | | |l]; try (destruct n; simpl in Hs; by simplify_eq).
  apply snap_ref_inv in Hs as (n' & o & rs & -> & Hl & Hrs & Hj & ->).
  destruct o as [d|xs]; [done|]. simpl in Hj, Hrs. simplify_eq.
  by exists n', l, xs, rs.
Qed.

(** [v[k]] on a dict is one step of a path. *)
Lemma getitem_step n h v j fp k jc :
  snap n h v = Some (j, fp) → jget j k = Some jc →
  ∃ i vc, py_getitem v k h = Ok vc
    ∧ walk h v [i] = Some vc ∧ jat j [i] = Some jc
    ∧ ∀ p x, jput j (i :: p) x = jset j k (jput jc p x).
Proof.
  intros Hs Hget. destruct j as [| | | | |dj]; try done. simpl in Hget.
  destruct (snap_dict_inv _ _ _ _ _ Hs)
    as (n' & l & d & rs & -> & -> & Hl & Hrs & _ & _ & Hk1 & Hk2).
  rewrite dict_get_index in Hget.
  destruct (key_index dj.*1 k) as [i|] eqn:Hi; [|done]. simpl in Hget.
  assert (is_Some (d.*2 !! i)) as [vc Hvc].
  { apply lookup_lt_is_Some. apply lookup_lt_Some in Hget.
    apply Forall2_length in Hrs. rewrite Hk2 in Hget. rewrite !length_fmap in *. lia. }
  exists i, vc. split_and!.
  - simpl. rewrite Hl, dict_get_index, <-Hk1, Hi. simpl. by rewrite Hvc.
  - simpl. rewrite Hl. simpl. by rewrite Hvc.
  - simpl. by rewrite Hget.
  - intros p x. simpl. rewrite Hget.
    destruct (dict_set_present dj k (jput jc p x) i Hi) as [Hs1 Hs2].
    by rewrite <-Hs1, <-Hs2, zip_fst_snd.
Qed.

Lemma getitem_KeyError n h v dj fp k :
  snap n h v = Some (JDict dj, fp) → dict_get dj k = None →
  py_getitem v k h = Err (KeyError (VStr k)).
Proof.
  intros Hs Hget.
  destruct (snap_dict_inv _ _ _ _ _ Hs)
    as (n' & l & d & rs & -> & -> & Hl & Hrs & _ & _ & Hk1 & Hk2).
  simpl. rewrite Hl. rewrite dict_get_index. rewrite dict_get_index in Hget.
  rewrite <-Hk1.
  destruct (key_index dj.*1 k) as [i|] eqn:Hi; [|done]. csimpl in *.
  apply lookup_ge_None in Hget. apply key_index_lt in Hi.
  rewrite !length_fmap in *. lia.
Qed.

Lemma val_of_atom j x : val_of j = Some x → atom x = Some j.
Proof. destruct j; simpl; intros; by simplify_eq. Qed.

(** [d[k] = x] with an atom [x], seen in the snapshot of the dict: the same
    assignment, and no location gained. *)
Lemma snap_setitem n h l d dj fp k x jx :
  snap n h (VRef l) = Some (JDict dj, fp) → NoDup fp →
  h !! l = Some (ODict d) → val_of jx = Some x →
  ∃ fp', snap n (<[l := ODict (dict_set d k x)]> h) (VRef l)
           = Some (JDict (dict_set dj k jx), fp')
    ∧ fp' ⊆ fp ∧ NoDup fp'.
Proof.
  intros Hs Hnd Hl Hx.
  destruct (snap_dict_inv _ _ _ _ _ Hs)
    as (n' & l' & d' & rs & -> & [= <-] & Hl' & Hrs & _ & -> & Hk1 & Hk2).
  simplify_eq. apply NoDup_cons in Hnd as [Hl0 Hnd].
  set (h1 := <[l := ODict (dict_set d k x)]> h).
  assert (h1 !! l = Some (ODict (dict_set d k x))) as Hl1.
  { apply list_lookup_insert_eq. by eapply lookup_lt_Some. }
  assert (Forall2 (λ c r, snap n' h1 c = Some r) d.*2 rs) as Hrs1.
  { apply Forall2_same_length_lookup. split; [by eapply Forall2_length|].
    intros i c [jc fpc] Hc Hr. eapply snap_frame.
    { by eapply Forall2_lookup_lr in Hrs. }
    intros x' Hx'. apply list_lookup_insert_ne. intros <-. apply Hl0.
    eapply join_lookup_subseteq; [|done]. by rewrite list_lookup_fmap, Hr. }
  apply val_of_atom in Hx.
  destruct (key_index d.*1 k) as [i|] eqn:Hi.
  - destruct (dict_set_present d k x i Hi) as [Hd1 Hd2].
    assert (is_Some (rs !! i)) as [[ji fpi] Hri].
    { apply lookup_lt_is_Some. apply key_index_lt in Hi.
      apply Forall2_length in Hrs. rewrite !length_fmap in *. lia. }
    pose proof (snap_ref_intro n' h1 l _ (<[i := (jx, [])]> rs) Hl1) as Hintro.
    set (s1 := snap (S n') h1 (VRef l)) in *. csimpl in Hintro. rewrite Hd1, Hd2, !list_fmap_insert in Hintro. csimpl in Hintro.
    destruct (join_insert_NoDup rs.*2 i fpi [] Hnd) as [Hnd' Hsub'].
    { by rewrite list_lookup_fmap, Hri. }
    { intros ? ?%elem_of_nil. done. }
    { constructor. }
    exists (l :: mjoin (<[i := []]> rs.*2)). split_and!.
    + rewrite Hintro.
      * rewrite <-Hk1 in Hi.
        destruct (dict_set_present dj k jx i Hi) as [Hj1 Hj2].
        rewrite <-(zip_fst_snd (dict_set dj k jx)), Hj1, Hj2, Hk1, Hk2. done.
      * apply Forall2_insert; [done|]. by apply snap_atom.
    + intros y [->|Hy]%elem_of_cons; apply elem_of_cons; auto.
    + apply NoDup_cons. split; [|done]. intros Hin. by apply Hl0, Hsub'.
  - rewrite (dict_set_absent d k x Hi) in *.
    pose proof (snap_ref_intro n' h1 l _ (rs ++ [(jx, [])]) Hl1) as Hintro.
    set (s1 := snap (S n') h1 (VRef l)) in *.
    csimpl in Hintro. rewrite !fmap_app in Hintro. csimpl in Hintro.
    rewrite join_app in Hintro. csimpl in Hintro. rewrite !app_nil_r in Hintro.
    exists (l :: mjoin rs.*2). split_and!; [|done|by apply NoDup_cons].
    rewrite Hintro.
    + rewrite <-Hk1 in Hi. rewrite (dict_set_absent dj k jx Hi).
      rewrite <-(zip_fst_snd (dj ++ [(k, jx)])), !fmap_app, Hk1, Hk2. done.
    + apply Forall2_app; [done|]. constructor; [|constructor]. by apply snap_atom.
Qed.

(** * The operations on a loaded document *)

Lemma bind_ok {A B} (m : M A) (k : A → M B) w a w' :
  m w = (Ok a, w') → (m ≫= k) w = k a w'.
Proof. intros H. unfold mbind, M_bind, bind. by rewrite H. Qed.

Lemma bind_err {A B} (m : M A) (k : A → M B) w e w' :
  m w = (Err e, w') → (m ≫= k) w = (Err e, w').
Proof. intros H. unfold mbind, M_bind, bind. by rewrite H. Qed.

Lemma lift_ok {A B} (f : heap → res A) (k : A → M B) w a :
  f (store w) = Ok a → (lift f ≫= k) w = k a w.
Proof. intros H. apply bind_ok. unfold lift. by rewrite H. Qed.

Lemma lift_err {A B} (f : heap → res A) (k : A → M B) w e :
  f (store w) = Err e → (lift f ≫= k) w = (Err e, w).
Proof. intros H. apply bind_err. unfold lift. by rewrite H. Qed.

Lemma getitem_snap n h v j fp k jc :
  snap n h v = Some (j, fp) → jget j k = Some jc →
  ∃ i vc fpc, py_getitem v k h = Ok vc
    ∧ walk h v [i] = Some vc ∧ jat j [i] = Some jc
    ∧ snap (n - 1) h vc = Some (jc, fpc) ∧ fpc ⊆ fp
    ∧ ∀ p x, jput j (i :: p) x = jset j k (jput jc p x).
Proof.
  intros Hs Hget.
  destruct (getitem_step _ _ _ _ _ _ _ Hs Hget) as (i & vc & Hg & Hw & Hat & Hput).
  destruct (snap_walk [i] _ _ _ _ _ _ Hs Hw) as (jc' & fpc & Hat' & Hsc & Hsub & _).
  exists i, vc, fpc. by simplify_eq.
Qed.

Lemma eq_str_snap n h v j fp name :
  snap n h v = Some (j, fp) →
  eq_str v name = match j with JStr s => bool_decide (s = name) | _ => false end.
Proof.
  intros Hs. destruct v as [| | | |l].
  1-4: destruct n; simpl in Hs; by simplify_eq.
  apply snap_ref_inv in Hs as (n' & o & rs & -> & _ & _ & -> & _). by destruct o.
Qed.

Lemma matching_spec n h name xs rs index :
  Forall2 (λ x r, snap n h x = Some r) xs rs →
  Forall (λ p, has_package p = true) rs.*1 →
  matching name index xs h = Ok (matches name index rs.*1).
Proof.
  intros Hrs. revert index. induction Hrs as [|x [p fp] xs rs Hx _ IH]; intros index Hall.
  - done.
  - csimpl in *. apply Forall_cons in Hall as [Hp Hall].
    unfold has_package in Hp. destruct (jget p "package") as [jn|] eqn:Hjn; [|done].
    destruct (getitem_snap _ _ _ _ _ _ _ Hx Hjn) as (i & vc & fpc & -> & _ & _ & Hsc & _).
    csimpl. rewrite (IH _ Hall). csimpl.
    rewrite (eq_str_snap _ _ _ _ _ name Hsc). unfold name_is. rewrite Hjn. done.
Qed.

Lemma matches_ge name index ps i : i ∈ matches name index ps → index ≤ i.
Proof.
  revert index. induction ps as [|p ps IH]; intros index; simpl.
  - by intros ?%elem_of_nil.
  - destruct (name_is name p).
    + intros [->|Hi%IH]%elem_of_cons; lia.
    + intros Hi%IH. lia.
Qed.

(** The pin [find_pin] answers is the first one with the name. *)
Lemma matches_head name index ps i :
  head (matches name index ps) = Some i →
  ∃ pin, ps !! (i - index) = Some pin ∧ index ≤ i ∧ name_is name pin = true
    ∧ ∀ i' pin', i' < i - index → ps !! i' = Some pin' → name_is name pin' = false.
Proof.
  revert index. induction ps as [|p ps IH]; intros index; simpl; [done|].
  destruct (name_is name p) eqn:Hp.
  - simpl. intros [= <-]. exists p. rewrite Nat.sub_diag. split_and!; try done.
    intros; lia.
  - intros Hh. destruct (IH _ Hh) as (pin & Hpin & Hle & Hname & Hfirst).
    exists pin. replace (i - index) with (S (i - S index)) by lia.
    split_and!; try done; [lia|].
    intros [|i'] pin'; simpl.
    + by intros _ [= <-].
    + intros Hlt. apply Hfirst. lia.
Qed.

Lemma find_pin_Some name ps i :
  find_pin name ps = Some i →
  ∃ pin, ps !! i = Some pin ∧ name_is name pin = true
    ∧ ∀ i' pin', i' < i → ps !! i' = Some pin' → name_is name pin' = false.
Proof.
  intros (pin & Hpin & _ & Hname & Hfirst)%matches_head.
  rewrite Nat.sub_0_r in *. by exists pin.
Qed.

Lemma find_pin_None name ps :
  find_pin name ps = None ↔ Forall (λ pin, name_is name pin = false) ps.
Proof.
  unfold find_pin. generalize 0. induction ps as [|p ps IH]; intros index; simpl.
  - split; [constructor|done].
  - rewrite Forall_cons. destruct (name_is name p); simpl.
    + split; [done|]. by intros [? _].
    + rewrite IH. split; [by split|by intros [_ ?]].
Qed.

(** [__get_package]: the first pin with the name, as the very reference the
    pins list of the document holds; the world is left as it was. *)
Lemma get_package_spec w self j ps name :
  loaded w self j → pins_of j = Some ps →
  Forall (λ p, has_package p = true) ps →
  match find_pin name ps with
  | Some i =>
      ∃ l p pin fpp,
        get_package self name w = (Ok (VRef l), w)
        ∧ ps !! i = Some pin
        ∧ walk (store w) (packages self) p = Some (VRef l)
        ∧ jat j p = Some pin
        ∧ snap (length (store w) - length p) (store w) (VRef l) = Some (pin, fpp)
        ∧ (∀ q x, jput j (p ++ q) x = with_pins j (<[i := jput pin q x]> ps))
        ∧ pin_ref self i (store w) = Ok (VRef l)
  | None =>
      get_package self name w
      = (Err (Exception (pin_not_found_message (path self) name)), w)
  end.
Proof.
  intros (fp & Hs & Hnd) Hpins Hall. unfold pins_of in Hpins.
  destruct (jget j "object") as [jo|] eqn:Hjo; [|done]. simpl in Hpins.
  destruct (jget jo "pins") as [jp|] eqn:Hjp; [|done]. simpl in Hpins.
  destruct jp as [| | | |ps'|]; try done. simplify_eq.
  destruct (getitem_snap _ _ _ _ _ _ _ Hs Hjo)
    as (i1 & vo & fpo & Hgo & Hwo & Hato & Hso & _ & Hputo).
  destruct (getitem_snap _ _ _ _ _ _ _ Hso Hjp)
    as (i2 & vp & fpp & Hgp & Hwp & Hatp & Hsp & _ & Hputp).
  destruct (snap_list_inv _ _ _ _ _ Hsp)
    as (n' & lp & xs & rs & Hn & -> & Hlp & Hrs & -> & _).
  unfold get_package.
  rewrite (lift_ok _ _ _ _ Hgo), (lift_ok _ _ _ _ Hgp).
  rewrite (lift_ok (py_iter (VRef lp)) _ w xs) by (simpl; by rewrite Hlp).
  rewrite (lift_ok _ _ _ _ (matching_spec _ _ name _ _ 0 Hrs Hall)).
  unfold find_pin. destruct (matches name 0 rs.*1) as [|i rest] eqn:Hm; simpl; [done|].
  destruct (matches_head name 0 rs.*1 i) as (pin & Hpin & _ & Hname & _).
  { by rewrite Hm. }
  rewrite Nat.sub_0_r in Hpin.
  apply list_lookup_fmap_Some in Hpin as ([pin' fpi] & Heq & Hri).
  simpl in Heq. subst pin.
  destruct (Forall2_lookup_r _ _ _ _ _ Hrs Hri) as (x & Hx & Hsx).
  assert (∃ l, x = VRef l) as [l ->].
  { unfold name_is in Hname. destruct pin' as [| | | | |dp]; try done.
    destruct (snap_dict_inv _ _ _ _ _ Hsx) as (? & l & ? & ? & _ & -> & _). by exists l. }
  rewrite (lift_ok _ _ _ _ Hgo), (lift_ok _ _ _ _ Hgp).
  exists l, [i1; i2; i], pin', fpi. split_and!.
  - unfold lift. simpl. by rewrite Hlp, Hx.
  - by rewrite list_lookup_fmap, Hri.
  - change [i1; i2; i] with ([i1] ++ [i2] ++ [i]).
    rewrite walk_app, Hwo. cbn [mbind option_bind].
    rewrite walk_app, Hwp. simpl. rewrite Hlp. simpl. by rewrite Hx.
  - change [i1; i2; i] with ([i1] ++ [i2] ++ [i]).
    rewrite jat_app, Hato. cbn [mbind option_bind].
    rewrite jat_app, Hatp. simpl. by rewrite list_lookup_fmap, Hri.
  - simpl. replace (length (store w) - 3) with n' by lia. done.
  - intros q x. change ([i1; i2; i] ++ q) with (i1 :: i2 :: i :: q).
    rewrite Hputo, Hputp. unfold with_pins. rewrite Hjo.
    simpl. by rewrite list_lookup_fmap, Hri.
  - unfold pin_ref. rewrite Hgo. simpl. rewrite Hgp. simpl. by rewrite Hlp, Hx.
Qed.

(** ** Assigning to the state of a pin *)

Lemma val_of_jof x : val_of (jof x) = Some (of_option x).
Proof. by destruct x. Qed.

Lemma walk_extend h ext v p vc : walk h v p = Some vc → walk (h ++ ext) v p = Some vc.
Proof.
  revert v. induction p as [|i p IH]; intros v; simpl; [done|].
  destruct v as [| | | |l]; try done.
  destruct (h !! l) as [o|] eqn:Hl; [|done]. simpl.
  rewrite (lookup_app_l_Some _ _ _ _ Hl). simpl.
  destruct (children o !! i); [|done]. simpl. apply IH.
Qed.

Lemma getitem_extend h ext v k x :
  py_getitem v k h = Ok x → py_getitem v k (h ++ ext) = Ok x.
Proof.
  destruct v as [| | | |l]; try done. simpl.
  destruct (h !! l) as [o|] eqn:Hl; [|done].
  by rewrite (lookup_app_l_Some _ _ _ _ Hl).
Qed.

Lemma loaded_at_extend w self j fp ext :
  loaded_at w self j fp → loaded_at (set_store w (store w ++ ext)) self j fp.
Proof.
  intros (Hs & Hnd). split; [|done]. simpl.
  apply snap_extend. eapply snap_mono; [done|]. rewrite length_app. lia.
Qed.

Lemma loaded_at_loaded w self j fp : loaded_at w self j fp → loaded w self j.
Proof. intros ?. by exists fp. Qed.

Lemma jat_jput j p x c : jat j p = Some c → jat (jput j p x) p = Some x.
Proof.
  revert j. induction p as [|i p IH]; intros j; simpl; [done|].
  destruct (jchildren j !! i) as [ji|] eqn:Hji; [|done]. simpl. intros Hat.
  assert (jchildren (jwith j (<[i := jput ji p x]> (jchildren j)))
          = <[i := jput ji p x]> (jchildren j)) as ->.
  { destruct j as [| | | |js|d]; try done. simpl.
    apply snd_zip. rewrite length_insert, !length_fmap. lia. }
  rewrite list_lookup_insert_eq by (by eapply lookup_lt_Some). simpl. by eapply IH.
Qed.

Lemma jput_jput j p x y c : jat j p = Some c → jput (jput j p x) p y = jput j p y.
Proof.
  revert j. induction p as [|i p IH]; intros j; simpl; [done|].
  destruct (jchildren j !! i) as [ji|] eqn:Hji; [|done]. simpl. intros Hat.
  assert (jchildren (jwith j (<[i := jput ji p x]> (jchildren j)))
          = <[i := jput ji p x]> (jchildren j)) as Hch.
  { destruct j as [| | | |js|d]; try done. simpl.
    apply snd_zip. rewrite length_insert, !length_fmap. lia. }
  rewrite Hch. rewrite list_lookup_insert_eq by (by eapply lookup_lt_Some).
  rewrite list_insert_insert_eq, (IH _ Hat).
  destruct j as [| | | |js|d]; try done. simpl.
  rewrite fst_zip; [done|]. rewrite length_insert, !length_fmap. lia.
Qed.

Lemma dict_set_set {A} (d : list (string * A)) k x y :
  dict_set (dict_set d k x) k y = dict_set d k y.
Proof.
  induction d as [|[k' z] d IH]; simpl.
  - by rewrite decide_True.
  - destruct (decide (k' = k)); simpl.
    + by rewrite decide_True.
    + by rewrite decide_False, IH.
Qed.

(** [package['state'][k] = x] for a pin [package] of the document: the one
    object written is the state dict, which belongs to the document. *)
Lemma assign_state w self j fp p l pin st k x jx :
  loaded_at w self j fp →
  walk (store w) (packages self) p = Some (VRef l) →
  jat j p = Some pin → jget pin "state" = Some (JDict st) →
  val_of jx = Some x →
  ∃ ls w' fp',
    py_getitem (VRef l) "state" (store w) = Ok (VRef ls)
    ∧ py_setitem (VRef ls) k x w = (Ok tt, w')
    ∧ loaded_at w' self (jput j p (jset pin "state" (JDict (dict_set st k jx)))) fp'
    ∧ fp' ⊆ fp
    ∧ walk (store w') (packages self) p = Some (VRef l)
    ∧ length (store w') = length (store w)
    ∧ (∀ a, a ∉ fp → store w' !! a = store w !! a)
    ∧ files w' = files w ∧ stdout w' = stdout w.
Proof.
  intros (Hs & Hnd) Hw Hat Hst Hx.
  destruct (snap_walk _ _ _ _ _ _ _ Hs Hw) as (pin' & fpp & Hat' & Hsp & Hsubp0 & Hndp).
  specialize (Hndp Hnd). simplify_eq.
  destruct (getitem_snap _ _ _ _ _ _ _ Hsp Hst)
    as (i3 & vs & fps & Hg & Hws & Hats & Hss & Hsubs & Hput).
  destruct (snap_dict_inv _ _ _ _ _ Hss) as (m & ls & d & rs & Hm & -> & Hls & _).
  destruct (snap_walk _ _ _ _ _ _ _ Hsp Hws) as (jc & fpc & _ & Hsc & _ & Hndc).
  simpl in Hsc. rewrite Hss in Hsc. simplify_eq. specialize (Hndc Hndp).
  destruct (snap_setitem _ _ _ _ _ _ k x jx Hss Hndc Hls Hx) as (fps' & Hss' & Hsub & Hnd').
  set (h' := <[ls := ODict (dict_set d k x)]> (store w)) in *.
  assert (ls ∈ fpc) as Hin.
  { apply snap_ref_inv in Hss as (? & ? & ? & _ & _ & _ & _ & ->).
    apply elem_of_cons. by left. }
  assert (∀ a, a ∉ fpc → h' !! a = store w !! a) as Hagree.
  { intros a Ha. apply list_lookup_insert_ne. by intros ->. }
  destruct (snap_put [i3] _ _ h' _ _ _ _ _ _ _ _ Hsp Hndp Hws Hss Hagree Hss' Hsub Hnd')
    as (fpp' & Hsp' & Hsubp & Hndp' & _).
  assert (∀ a, a ∉ fpp → h' !! a = store w !! a) as Hagree'.
  { intros a Ha. apply Hagree. intros Ha'. by apply Ha, Hsubs. }
  destruct (snap_put p _ _ h' _ _ _ _ _ _ _ _ Hs Hnd Hw Hsp Hagree' Hsp' Hsubp Hndp')
    as (fp' & Hs' & Hsubfp & Hndfp' & Hwalk').
  exists ls, (set_store w h'), fp'. split_and!; try done.
  - unfold py_setitem. by rewrite Hls.
  - split; [|done]. simpl. unfold h' at 1. rewrite length_insert.
    by rewrite Hs', Hput.
  - simpl. unfold h'. by rewrite length_insert.
  - intros a Ha. simpl. apply Hagree'. intros Ha'. by apply Ha, Hsubp0.
Qed.

(** [deepcopy(package['state'])] for a pin [package] of the document. *)
Lemma copy_state w self j fp p l pin jst :
  loaded_at w self j fp →
  walk (store w) (packages self) p = Some (VRef l) →
  jat j p = Some pin → jget pin "state" = Some jst →
  ∃ vs c ext fpc,
    py_getitem (VRef l) "state" (store w) = Ok vs
    ∧ deepcopy vs w = (Ok c, set_store w (store w ++ ext))
    ∧ built (store w) jst c ext fpc.
Proof.
  intros (Hs & Hnd) Hw Hat Hst.
  destruct (snap_walk _ _ _ _ _ _ _ Hs Hw) as (pin' & fpp & Hat' & Hsp & _).
  simplify_eq.
  destruct (getitem_snap _ _ _ _ _ _ _ Hsp Hst)
    as (i3 & vs & fps & Hg & _ & _ & Hss & _).
  destruct (deepcopy_spec w vs jst fps) as (c & ext & fpc & Hc & Hb).
  { eapply snap_mono; [done|lia]. }
  by exists vs, c, ext, fpc.
Qed.

Lemma snap_hashable n h c jc fp :
  snap n h c = Some (jc, fp) →
  hashable c = hashable_json jc ∧ (hashable_json jc = true → c = to_val jc).
Proof.
  intros Hs. destruct c as [| | | |l].
  1-4: destruct n; simpl in Hs; by simplify_eq.
  apply snap_ref_inv in Hs as (n' & o & rs & -> & _ & _ & -> & _). by destruct o.
Qed.

Lemma items_snap n h v st fp :
  snap n h v = Some (JDict st, fp) →
  ∃ d, items v h = Ok d
    ∧ forallb (λ kv, hashable kv.2) d = forallb (λ kv, hashable_json kv.2) st
    ∧ (forallb (λ kv, hashable_json kv.2) st = true → d = state_items st).
Proof.
  intros Hs.
  destruct (snap_dict_inv _ _ _ _ _ Hs) as (m & l & d & rs & -> & -> & Hl & Hrs & -> & _).
  exists d. simpl. rewrite Hl. split; [done|]. clear Hl Hs.
  revert rs Hrs. induction d as [|[k c] d IH]; intros rs Hrs.
  - by apply Forall2_nil_inv_l in Hrs as ->.
  - csimpl in Hrs. apply Forall2_cons_inv_l in Hrs as ([jc fpc] & rs' & Hc & Hrs & ->).
    destruct (IH _ Hrs) as [IH1 IH2].
    destruct (snap_hashable _ _ _ _ _ Hc) as [Hh1 Hh2].
    csimpl. rewrite Hh1, IH1. split; [done|].
    intros [Hjc Hrest]%andb_prop. unfold state_items. csimpl.
    rewrite <-(Hh2 Hjc). f_equal. by apply IH2.
Qed.

(** ** [update_dependency] *)

Lemma jget_jset_eq j k x y : jget j k = Some x → jget (jset j k y) k = Some y.
Proof. destruct j; try done. simpl. intros _. apply dict_get_set_eq. Qed.

Lemma jset_jset j k x y : jset (jset j k x) k y = jset j k y.
Proof. destruct j; try done. simpl. by rewrite dict_set_set. Qed.

Lemma hashable_dict_set st k jx :
  hashable_json jx = true →
  forallb (λ kv : string * json, hashable_json kv.2) st = true →
  forallb (λ kv : string * json, hashable_json kv.2) (dict_set st k jx) = true.
Proof.
  intros Hx. induction st as [|[k' y] st IH]; simpl.
  - by rewrite Hx.
  - intros [Hy Hst]%andb_prop. destruct (decide (k' = k)); simpl.
    + by rewrite Hx, Hst.
    + by rewrite Hy, IH.
Qed.

Lemma hashable_jof x : hashable_json (jof x) = true.
Proof. by destruct x. Qed.

Lemma print_ok {B} (n : notice) (k : unit → M B) w :
  (print n ≫= k) w = k tt (World (store w) (files w) (stdout w ++ [n])).
Proof. done. Qed.

Lemma update_dependency_spec w self j fp ps name i pin st b r v :
  loaded_at w self j fp → pins_of j = Some ps →
  Forall (λ p, has_package p = true) ps →
  find_pin name ps = Some i → ps !! i = Some pin →
  jget pin "state" = Some (JDict st) →
  let st' := new_state st b r v in
  let j' := with_pins j (<[i := jset pin "state" (JDict st')]> ps) in
  ∃ w' fp',
    loaded_at w' self j' fp' ∧ fp' ⊆ fp
    ∧ (∀ a, a ∉ fp → a < length (store w) → store w' !! a = store w !! a)
    ∧ length (store w) ≤ length (store w')
    ∧ files w' = files w
    ∧ if forallb (λ kv, hashable_json kv.2) st
      then update_dependency self name b r v w = (Ok tt, w')
           ∧ stdout w' = stdout w ++ update_notices name st st'
      else update_dependency self name b r v w = (Err TypeError, w')
           ∧ stdout w' = stdout w.
Proof.
  intros Hld Hpins Hall Hfind Hpin Hst st' j'.
  pose proof (get_package_spec w self j ps name (loaded_at_loaded _ _ _ _ Hld) Hpins Hall)
    as Hgp.
  rewrite Hfind in Hgp.
  destruct Hgp as (l & p & pin0 & fpp & Hget & Hpin0 & Hw & Hat & _ & Hput & _).
  simplify_eq.
  assert (∀ a, a ∈ fp → a < length (store w)) as Hfp.
  { intros a Ha. destruct Hld as [Hs _]. by eapply snap_footprint_lt. }
  (* old_state = deepcopy(package['state']) *)
  destruct (copy_state _ _ _ _ _ _ _ _ Hld Hw Hat Hst)
    as (vs0 & c1 & ext1 & fpc1 & Hg0 & Hcopy1 & Hb1).
  set (w1 := set_store w (store w ++ ext1)) in *.
  pose proof (loaded_at_extend _ _ _ _ ext1 Hld) as Hld1. fold w1 in Hld1.
  pose proof (walk_extend _ ext1 _ _ _ Hw) as Hw1.
  (* the three assignments *)
  destruct (assign_state w1 _ _ _ _ _ _ _ "branch" _ _ Hld1 Hw1 Hat Hst (val_of_jof b))
    as (ls1 & w2 & fp2 & Hg1 & Hset1 & Hld2 & Hsub2 & Hw2 & Hlen2 & Hag2 & Hf2 & Ho2).
  destruct (assign_state w2 _ _ _ _ _ _ _ "revision" _ _ Hld2 Hw2
              (jat_jput _ _ _ _ Hat) (jget_jset_eq _ _ _ _ Hst) (val_of_jof r))
    as (ls2 & w3 & fp3 & Hg2 & Hset2 & Hld3 & Hsub3 & Hw3 & Hlen3 & Hag3 & Hf3 & Ho3).
  rewrite (jput_jput _ _ _ _ _ Hat), jset_jset in Hld3.
  destruct (assign_state w3 _ _ _ _ _ _ _ "version" _ _ Hld3 Hw3
              (jat_jput _ _ _ _ Hat) (jget_jset_eq _ _ _ _ Hst) (val_of_jof v))
    as (ls3 & w4 & fp4 & Hg3 & Hset3 & Hld4 & Hsub4 & Hw4 & Hlen4 & Hag4 & Hf4 & Ho4).
  rewrite (jput_jput _ _ _ _ _ Hat), jset_jset in Hld4.
  fold (new_state st b r v) in Hld4. fold st' in Hld4.
  (* new_state = deepcopy(package['state']) *)
  destruct (copy_state _ _ _ _ _ _ _ _ Hld4 Hw4
              (jat_jput _ _ _ _ Hat) (jget_jset_eq _ _ _ _ Hst))
    as (vs4 & c2 & ext2 & fpc2 & Hg4 & Hcopy2 & Hb2).
  set (w5 := set_store w4 (store w4 ++ ext2)) in *.
  pose proof (loaded_at_extend _ _ _ _ ext2 Hld4) as Hld5. fold w5 in Hld5.
  assert (jput j p (jset pin "state" (JDict st')) = j') as Hj'.
  { rewrite <-(app_nil_r p), Hput. done. }
  rewrite Hj' in Hld5.
  (* the stores agree away from the document *)
  assert (∀ a, a ∉ fp → a < length (store w1) → store w4 !! a = store w1 !! a) as Hag.
  { intros a Ha _. rewrite Hag4, Hag3, Hag2; [done| | |].
    - done.
    - intros ?. by apply Ha, Hsub2.
    - intros ?. by apply Ha, Hsub2, Hsub3. }
  assert (length (store w4) = length (store w) + length ext1) as Hlen.
  { rewrite Hlen4, Hlen3, Hlen2. simpl. by rewrite length_app. }
  (* the two copies in the final store *)
  destruct Hb1 as (Hs1 & _ & Hin1). destruct Hb2 as (Hs2 & _ & _).
  assert (snap (length (store w5)) (store w5) c1 = Some (JDict st, fpc1)) as Hc1.
  { eapply snap_frame.
    - apply (Hs1 (length (store w5)) []). simpl. rewrite !length_app. lia.
    - intros a Ha. apply Hin1 in Ha. rewrite app_nil_r. simpl.
      rewrite lookup_app_l by lia. apply Hag.
      + intros Ha'%Hfp. lia.
      + simpl. rewrite length_app. lia. }
  assert (snap (length (store w5)) (store w5) c2 = Some (JDict st', fpc2)) as Hc2.
  { specialize (Hs2 (length (store w5)) []). rewrite app_nil_r in Hs2.
    apply Hs2. simpl. rewrite !length_app. lia. }
  destruct (items_snap _ _ _ _ _ Hc1) as (d1 & Hi1 & Hh1 & Hd1).
  destruct (items_snap _ _ _ _ _ Hc2) as (d2 & Hi2 & Hh2 & Hd2).
  assert (update_dependency self name b r v w
          = (lift (items_xor c1 c2) ≫= λ diff,
               if Nat.ltb 0 (length diff) then
                 print (Updated name);;
                 old ← lift (describe c1);
                 print (OldState old);;
                 new ← lift (describe c2);
                 print (NewState new)
               else print (UpToDate name)) w5) as ->.
  { unfold update_dependency.
    rewrite (bind_ok _ _ _ _ _ Hget), (lift_ok _ _ _ _ Hg0), (bind_ok _ _ _ _ _ Hcopy1).
    fold w1.
    rewrite (lift_ok _ _ _ _ Hg1), (bind_ok _ _ _ _ _ Hset1).
    rewrite (lift_ok _ _ _ _ Hg2), (bind_ok _ _ _ _ _ Hset2).
    rewrite (lift_ok _ _ _ _ Hg3), (bind_ok _ _ _ _ _ Hset3).
    rewrite (lift_ok _ _ _ _ Hg4), (bind_ok _ _ _ _ _ Hcopy2). done. }
  assert (∀ a, a ∉ fp → a < length (store w) → store w5 !! a = store w !! a) as Hag5.
  { intros a Ha Hlt. simpl. rewrite lookup_app_l by lia.
    rewrite Hag; [|done|simpl; rewrite length_app; lia].
    simpl. by rewrite lookup_app_l. }
  assert (fp4 ⊆ fp) as Hsub by (intros a ?; by apply Hsub2, Hsub3, Hsub4).
  assert (files w5 = files w) as Hfiles by (simpl; by rewrite Hf4, Hf3, Hf2).
  assert (stdout w5 = stdout w) as Hout by (simpl; by rewrite Ho4, Ho3, Ho2).
  assert (length (store w) ≤ length (store w5)) as Hle
    by (simpl; rewrite length_app; lia).
  destruct (forallb (λ kv, hashable_json kv.2) st) eqn:Hhash.
  - assert (forallb (λ kv, hashable_json kv.2) st' = true) as Hhash'.
    { unfold st', new_state. auto using hashable_dict_set, hashable_jof. }
    rewrite (Hd1 eq_refl) in *. rewrite (Hd2 Hhash') in *.
    assert (items_xor c1 c2 (store w5)
            = Ok (xor_items (state_items st) (state_items st'))) as Hxor.
    { unfold items_xor. rewrite Hi1, Hi2. csimpl.
      by rewrite forallb_app, Hh1, Hh2, Hhash'. }
    rewrite (lift_ok _ _ _ _ Hxor). unfold update_notices.
    destruct (Nat.ltb 0 _).
    + exists (World (store w5) (files w5) (stdout w5 ++ [Updated name; OldState (JDict st);
                                                       NewState (JDict st')])), fp4.
      split_and!; try done.
      * assert (describe c1 (store w5) = Ok (JDict st)) as Hdesc1
          by (unfold describe, snapshot; by rewrite Hc1).
        assert (describe c2 (store w5) = Ok (JDict st')) as Hdesc2
          by (unfold describe, snapshot; by rewrite Hc2).
        rewrite print_ok. erewrite lift_ok by exact Hdesc1.
        rewrite print_ok. erewrite lift_ok by exact Hdesc2.
        unfold print. simpl. by rewrite <-!app_assoc.
      * simpl in *. by rewrite Hout.
    + exists (World (store w5) (files w5) (stdout w5 ++ [UpToDate name])), fp4.
      split_and!; try done. simpl in *. by rewrite Hout.
  - exists w5, fp4. split_and!; try done.
    apply lift_err. unfold items_xor. rewrite Hi1, Hi2. csimpl.
    by rewrite forallb_app, Hh1.
Qed.

(** ** [read_dependency], [get_number_of_dependencies], [save] *)

Lemma read_dependency_spec w self j fp ps name i pin jst :
  loaded_at w self j fp → pins_of j = Some ps →
  Forall (λ p, has_package p = true) ps →
  find_pin name ps = Some i → ps !! i = Some pin →
  jget pin "state" = Some jst →
  ∃ c ext fpc,
    read_dependency self name w = (Ok c, set_store w (store w ++ ext))
    ∧ built (store w) jst c ext fpc.
Proof.
  intros Hld Hpins Hall Hfind Hpin Hst.
  pose proof (get_package_spec w self j ps name (loaded_at_loaded _ _ _ _ Hld) Hpins Hall)
    as Hgp.
  rewrite Hfind in Hgp.
  destruct Hgp as (l & p & pin0 & fpp & Hget & Hpin0 & Hw & Hat & _ & Hput & _).
  simplify_eq.
  destruct (copy_state _ _ _ _ _ _ _ _ Hld Hw Hat Hst)
    as (vs & c & ext & fpc & Hg & Hcopy & Hb).
  exists c, ext, fpc. split; [|done].
  unfold read_dependency.
  by rewrite (bind_ok _ _ _ _ _ Hget), (lift_ok _ _ _ _ Hg).
Qed.

Lemma not_found_spec w self j ps name :
  loaded w self j → pins_of j = Some ps →
  Forall (λ p, has_package p = true) ps →
  find_pin name ps = None →
  let e := Exception (pin_not_found_message (path self) name) in
  get_package self name w = (Err e, w)
  ∧ read_dependency self name w = (Err e, w)
  ∧ ∀ b r v, update_dependency self name b r v w = (Err e, w).
Proof.
  intros Hld Hpins Hall Hfind e.
  pose proof (get_package_spec w self j ps name Hld Hpins Hall) as Hgp.
  rewrite Hfind in Hgp. split_and!; [done| |intros b r v].
  - unfold read_dependency. by rewrite (bind_err _ _ _ _ _ Hgp).
  - unfold update_dependency. by rewrite (bind_err _ _ _ _ _ Hgp).
Qed.

Lemma pins_of_inv j ps :
  pins_of j = Some ps →
  ∃ jo, jget j "object" = Some jo ∧ jget jo "pins" = Some (JList ps).
Proof.
  unfold pins_of. destruct (jget j "object") as [jo|]; [|done]. simpl.
  destruct (jget jo "pins") as [[| | | |ps'|]|] eqn:Hp; try done. simpl.
  intros [= ->]. by exists jo.
Qed.

Lemma get_number_of_dependencies_spec w self j ps :
  loaded w self j → pins_of j = Some ps →
  get_number_of_dependencies self w = (Ok (length ps), w).
Proof.
  intros (fp & Hs & _) (jo & Hjo & Hjp)%pins_of_inv.
  destruct (getitem_snap _ _ _ _ _ _ _ Hs Hjo) as (i1 & vo & fpo & Hgo & _ & _ & Hso & _).
  destruct (getitem_snap _ _ _ _ _ _ _ Hso Hjp) as (i2 & vp & fpp & Hgp & _ & _ & Hsp & _).
  destruct (snap_list_inv _ _ _ _ _ Hsp) as (n' & lp & xs & rs & _ & -> & Hlp & Hrs & -> & _).
  unfold get_number_of_dependencies.
  rewrite (lift_ok _ _ _ _ Hgo), (lift_ok _ _ _ _ Hgp).
  unfold lift. simpl. rewrite Hlp, length_fmap.
  by rewrite (Forall2_length _ _ _ Hrs).
Qed.

Lemma save_spec w self j :
  loaded w self j →
  save self w
  = (Ok tt, World (store w)
              (<[path self := encode true 0 j ++ [NEWLINE]]> (files w))
              (stdout w ++ [Saving (path self)])).
Proof.
  intros (fp & Hs & _). unfold save. rewrite print_ok.
  unfold open_write at 1. unfold mbind at 1, M_bind at 1, bind at 1. simpl.
  erewrite lift_ok; last first.
  { unfold json_dumps, snapshot. simpl. by rewrite Hs. }
  unfold file_write, mbind, M_bind, bind. simpl.
  rewrite !lookup_insert_eq. simpl. by rewrite !insert_insert_eq.
Qed.

(** ** [__init__] *)

Lemma ne_int_snap n h v j fp z : snap n h v = Some (j, fp) → ne_int v z = jne_int j z.
Proof.
  intros Hs. destruct v as [| | | |l].
  1-4: destruct n; simpl in Hs; by simplify_eq.
  apply snap_ref_inv in Hs as (n' & o & rs & -> & _ & _ & -> & _). by destruct o.
Qed.

Lemma init_spec w p content j :
  files w !! p = Some content → json_loads content = Ok j →
  ∃ self ext fp,
    let w' := World (store w ++ ext) (files w) (stdout w ++ [Opening p]) in
    path self = p
    ∧ built (store w) j (packages self) ext fp
    ∧ loaded_at w' self j fp
    ∧ init p w = (init_result p self j, w').
Proof.
  intros Hfile Hload.
  destruct (build j (store w)) as [v h'] eqn:Hb.
  destruct (build_spec j _ _ _ Hb) as (ext & fp & -> & Hbuilt).
  exists (Handle p v), ext, fp. simpl. split; [done|]. split; [done|].
  pose proof Hbuilt as (Hs & Hnd & _).
  specialize (Hs (length (store w ++ ext)) []). rewrite app_nil_r in Hs.
  specialize (Hs ltac:(rewrite length_app; lia)).
  split; [by split|].
  unfold init. rewrite print_ok.
  set (w0 := World (store w) (files w) (stdout w ++ [Opening p])).
  rewrite (bind_ok _ _ w0 content w0) by (unfold open_read; simpl; by rewrite Hfile).
  set (w' := World (store w ++ ext) (files w) (stdout w ++ [Opening p])).
  rewrite (bind_ok _ _ w0 v w') by (unfold json_load; simpl; by rewrite Hload, Hb).
  unfold init_result. destruct j as [| | | |js|d].
  1-4: simpl in Hb; simplify_eq; by apply lift_err.
  - destruct (snap_list_inv _ _ _ _ _ Hs) as (? & l & xs & ? & _ & -> & Hl & _).
    apply lift_err. simpl. by rewrite Hl.
  - destruct (dict_get d "version") as [ver|] eqn:Hver.
    + destruct (getitem_snap _ _ _ _ _ "version" ver Hs Hver)
        as (i & vc & fpc & Hg & _ & _ & Hsc & _).
      rewrite (lift_ok (py_getitem _ "version") _ w' vc Hg).
      rewrite (ne_int_snap _ _ _ _ _ _ Hsc).
      destruct (jne_int ver SUPPORTED_PACKAGE_RESOLVED_VERSION); [|done].
      erewrite lift_ok; [done|]. unfold format, snapshot.
      pose proof (snap_mono _ (length (store w')) _ _ _ Hsc ltac:(simpl; lia)) as Hm.
      simpl in Hm |- *. by rewrite Hm.
    + apply lift_err. by eapply getitem_KeyError.
Qed.

(** * Decoding what the encoder wrote *)

(** ** Characters *)

Lemma ch_eq c n : ch c n = true → c = ascii_of_N n.
Proof.
  unfold ch, code. intros H%N.eqb_eq. rewrite <-H. by rewrite ascii_N_embedding.
Qed.

Lemma code_lt c : (code c < 256)%N.
Proof. apply N_ascii_bounded. Qed.

Lemma code_digit_char d : (d < 10)%N → code (digit_char d) = (48 + d)%N.
Proof.
  intros Hd. unfold code, digit_char. apply N_ascii_embedding. lia.
Qed.

Lemma is_digit_digit_char d : (d < 10)%N → is_digit (digit_char d) = true.
Proof.
  intros Hd. unfold is_digit. rewrite code_digit_char by done.
  apply andb_true_intro. split; apply N.leb_le; lia.
Qed.

(** ** Integers *)

Lemma read_digits_app ds rest a :
  Forall (λ c, is_digit c = true) ds →
  match rest with [] => True | c :: _ => is_digit c = false end →
  read_digits (ds ++ rest) a = (foldl digit_step a ds, rest).
Proof.
  intros Hds Hrest. revert a. induction Hds as [|c ds Hc _ IH]; intros a; simpl.
  - destruct rest as [|c rest]; [done|]. simpl. by rewrite Hrest.
  - rewrite Hc. apply IH.
Qed.

Lemma digits_go_S f n acc :
  digits_go (S f) n acc =
    if N.eqb (n / 10) 0 then digit_char (n mod 10) :: acc
    else digits_go f (n / 10) (digit_char (n mod 10) :: acc).
Proof. done. Qed.

Lemma digits_go_spec f : ∀ n acc,
  (n < 10 ^ N.of_nat (S f))%N →
  ∃ ds, digits_go (S f) n acc = ds ++ acc
    ∧ Forall (λ c, is_digit c = true) ds
    ∧ (∀ a, foldl digit_step a ds = (a * 10 ^ N.of_nat (length ds) + n)%N)
    ∧ match ds with
      | [] => False
      | c :: _ => (0 < n)%N → ch c 48 = false
      end.
Proof.
  induction f as [|f IH]; intros n acc Hn.
  - assert (n < 10)%N as Hlt by (simpl in Hn; lia).
    simpl. rewrite (N.div_small n 10), (N.mod_small n 10) by done. simpl.
    exists [digit_char n]. split_and!; [done| | |].
    + constructor; [by apply is_digit_digit_char|constructor].
    + intros a. simpl. unfold digit_step. rewrite code_digit_char by done. lia.
    + intros Hpos. unfold ch. rewrite code_digit_char by done.
      apply N.eqb_neq. lia.
  - rewrite digits_go_S. destruct (N.eqb_spec (n / 10) 0) as [Hz|Hnz].
    + assert (n < 10)%N as Hlt.
      { apply N.div_small_iff in Hz; lia. }
      rewrite (N.mod_small n 10) by done.
      exists [digit_char n]. split_and!; [done| | |].
      * constructor; [by apply is_digit_digit_char|constructor].
      * intros a. simpl. unfold digit_step. rewrite code_digit_char by done. lia.
      * intros Hpos. unfold ch. rewrite code_digit_char by done.
        apply N.eqb_neq. lia.
    + assert (n / 10 < 10 ^ N.of_nat (S f))%N as Hdiv.
      { apply N.Div0.div_lt_upper_bound.
        replace (N.of_nat (S (S f))) with (N.succ (N.of_nat (S f))) in Hn by lia.
        rewrite N.pow_succ_r' in Hn. lia. }
      destruct (IH (n / 10)%N (digit_char (n mod 10) :: acc) Hdiv)
        as (ds & Hgo & Hall & Hval & Hhead).
      assert (n mod 10 < 10)%N as Hmod by (apply N.mod_lt; lia).
      exists (ds ++ [digit_char (n mod 10)]). split_and!.
      * rewrite Hgo. by rewrite <-app_assoc.
      * apply Forall_app. split; [done|].
        constructor; [by apply is_digit_digit_char|constructor].
      * intros a. rewrite foldl_app, Hval. simpl. unfold digit_step.
        rewrite code_digit_char by done. rewrite length_app. simpl.
        replace (N.of_nat (length ds + 1)) with (N.succ (N.of_nat (length ds))) by lia.
        rewrite N.pow_succ_r'. pose proof (N.div_mod n 10 ltac:(lia)) as Hdm.
        generalize dependent (10 ^ N.of_nat (length ds))%N. intros P.
        generalize dependent (n / 10)%N. generalize dependent (n mod 10)%N.
        intros m ? q **. nia.
      * destruct ds as [|c ds]; [done|]. simpl. intros _. apply Hhead.
        by apply N.neq_0_lt_0.
Qed.

Lemma digits_spec n :
  ∃ ds, digits n = ds
    ∧ Forall (λ c, is_digit c = true) ds
    ∧ foldl digit_step 0%N ds = n
    ∧ match ds with
      | [] => False
      | c :: _ => (0 < n)%N → ch c 48 = false
      end.
Proof.
  destruct (digits_go_spec (N.to_nat (N.log2 n)) n []) as (ds & Hgo & Hall & Hval & Hhead).
  - destruct (N.eq_dec n 0%N) as [->|Hn].
    + simpl. lia.
    + eapply N.lt_le_trans; [apply N.log2_spec; lia|].
      replace (N.of_nat (S (N.to_nat (N.log2 n)))) with (N.succ (N.log2 n)) by lia.
      apply N.pow_le_mono_l. lia.
  - exists ds. unfold digits. rewrite Hgo, app_nil_r.
    split_and!; try done.
Qed.

Lemma terminated_not_digit rest :
  terminated rest → match rest with [] => True | c :: _ => is_digit c = false end.
Proof.
  destruct rest as [|c rest]; [done|]. simpl.
  intros [->%ch_eq| ->%ch_eq]%orb_prop; done.
Qed.

Lemma terminated_not_float rest : terminated rest → float_follows rest = false.
Proof.
  destruct rest as [|c [|d rest]]; try done. simpl.
  intros [->%ch_eq| ->%ch_eq]%orb_prop; done.
Qed.

Lemma scan_nat_digits n rest :
  terminated rest → scan_nat (digits n ++ rest) = Ok (n, rest).
Proof.
  intros Hrest. destruct (N.eq_dec n 0%N) as [->|Hn]; [done|].
  destruct (digits_spec n) as (ds & -> & Hall & Hval & Hhead).
  destruct ds as [|c ds]; [done|]. cbn [app]. unfold scan_nat.
  rewrite Hhead by lia.
  pose proof Hall as [Hc _]%Forall_cons. rewrite Hc.
  change (c :: ds ++ rest) with ((c :: ds) ++ rest).
  rewrite read_digits_app; [by rewrite Hval|done|by apply terminated_not_digit].
Qed.

Lemma is_digit_not_minus c : is_digit c = true → ch c 45 = false.
Proof.
  unfold is_digit, ch. intros [Hc%N.leb_le _]%andb_prop. apply N.eqb_neq. lia.
Qed.

Lemma digits_head n : ∃ c t, digits n = c :: t ∧ is_digit c = true.
Proof.
  destruct (digits_spec n) as (ds & -> & Hall & _ & Hne).
  destruct ds as [|c ds]; [done|]. apply Forall_cons in Hall as [Hc _]. eauto.
Qed.

Lemma int_repr_head z :
  ∃ c t, int_repr z = c :: t ∧ (ch c 45 = true ∨ is_digit c = true).
Proof.
  unfold int_repr. destruct (Z.ltb z 0).
  - eexists _, _. split; [done|]. by left.
  - destruct (digits_head (Z.abs_N z)) as (c & t & -> & Hc). eauto.
Qed.

Lemma scan_number_int_repr z rest :
  terminated rest → scan_number (int_repr z ++ rest) = Ok (JInt z, rest).
Proof.
  intros Hrest. unfold int_repr, scan_number.
  destruct (Z.ltb_spec z 0) as [Hneg|Hpos].
  - simpl. rewrite scan_nat_digits by done. simpl.
    rewrite terminated_not_float by done. rewrite N2Z.inj_abs_N.
    by replace (- Z.abs z)%Z with z by lia.
  - assert (scan_sign (digits (Z.abs_N z) ++ rest)
            = Ok (false, digits (Z.abs_N z) ++ rest)) as ->.
    { destruct (digits_head (Z.abs_N z)) as (c & t & -> & Hc).
      simpl. by rewrite (is_digit_not_minus c Hc). }
    cbn [mbind res_bind]. rewrite scan_nat_digits by done. cbn [mbind res_bind].
    rewrite terminated_not_float by done. rewrite N2Z.inj_abs_N.
    by replace (Z.abs z) with z by lia.
Qed.

(** ** Strings *)

Lemma scanstring_escape_char c rest :
  scanstring (escape_char c ++ rest) = push c (scanstring rest).
Proof. destruct c as [[] [] [] [] [] [] [] []]; reflexivity. Qed.

Lemma scanstring_escaped cs rest :
  scanstring (mjoin (escape_char <$> cs) ++ QUOTE :: rest)
  = Ok (string_of_list_ascii cs, rest).
Proof.
  induction cs as [|c cs IH]; [done|]. csimpl.
  by rewrite <-app_assoc, scanstring_escape_char, IH.
Qed.

Lemma scanstring_encoded s rest :
  ∃ t, encode_basestring_ascii s ++ rest = QUOTE :: t
    ∧ scanstring t = Ok (s, rest).
Proof.
  unfold encode_basestring_ascii.
  exists (mjoin (escape_char <$> list_ascii_of_string s) ++ QUOTE :: rest). split.
  - simpl. by rewrite <-app_assoc.
  - by rewrite scanstring_escaped, string_of_list_ascii_of_string.
Qed.

(** ** Values *)

Lemma skip_ws_stop c s : is_ws c = false → skip_ws (c :: s) = c :: s.
Proof. intros Hc. simpl. by rewrite Hc. Qed.

Lemma skip_ws_spaces n s : skip_ws (replicate n SPACE ++ s) = skip_ws s.
Proof. induction n as [|n IH]; [done|]. simpl. apply IH. Qed.

Lemma skip_ws_newline_indent level s : skip_ws (newline_indent level ++ s) = skip_ws s.
Proof. unfold newline_indent. simpl. apply skip_ws_spaces. Qed.

Lemma is_digit_start c :
  is_digit c = true → is_ws c = false ∧ ch c 93 = false ∧ ch c 125 = false.
Proof.
  unfold is_digit, is_ws, ch.
  intros [H1%N.leb_le H2%N.leb_le]%andb_prop.
  split_and!; [rewrite !orb_false_iff; split_and!| |]; apply N.eqb_neq; lia.
Qed.

(** An encoded value starts with a character that is neither white space
    nor a closing bracket. *)
Lemma encode_head sort level j :
  ∃ c t, encode sort level j = c :: t
    ∧ is_ws c = false ∧ ch c 93 = false ∧ ch c 125 = false.
Proof.
  destruct j as [|[]|z|s|[|j js]|[|kv d]]; simpl; try by eauto 10.
  destruct (int_repr_head z) as (c & t & -> & [->%ch_eq|Hc]); [by eauto 10|].
  destruct (is_digit_start c Hc) as (? & ? & ?). by eauto 10.
Qed.

Lemma skip_ws_encode sort level j s :
  skip_ws (encode sort level j ++ s) = encode sort level j ++ s.
Proof.
  destruct (encode_head sort level j) as (c & t & -> & Hc & _).
  by apply skip_ws_stop.
Qed.

Lemma strip_head_ne a p d s : Ascii.eqb a d = false → strip (a :: p) (d :: s) = None.
Proof. intros H. simpl. by rewrite H. Qed.

Lemma strip_head_eq a p s : strip (a :: p) (a :: s) = strip p s.
Proof. simpl. by rewrite Ascii.eqb_refl. Qed.

Lemma eqb_digit a d : is_digit d = true → is_digit a = false → Ascii.eqb a d = false.
Proof. intros Hd Ha. destruct (Ascii.eqb_spec a d) as [->|]; [congruence|done]. Qed.

Lemma join_cons sep c cs :
  join sep (c :: cs) = c ++ mjoin ((λ x, sep ++ x) <$> cs).
Proof. done. Qed.

Lemma join_cons_cons sep c c' cs :
  join sep (c :: c' :: cs) = c ++ sep ++ join sep (c' :: cs).
Proof. simpl. by rewrite <-!app_assoc. Qed.

Lemma join_singleton sep c : join sep [c] = c.
Proof. simpl. by rewrite app_nil_r. Qed.

Lemma skip_ws_join sort level sep j js s :
  skip_ws (join sep (encode sort level <$> j :: js) ++ s)
  = join sep (encode sort level <$> j :: js) ++ s.
Proof.
  rewrite fmap_cons, join_cons, <-app_assoc. apply skip_ws_encode.
Qed.

Lemma literal_int_repr z rest : literal (int_repr z ++ rest) = None.
Proof.
  unfold int_repr. destruct (Z.ltb z 0).
  - destruct (digits_head (Z.abs_N z)) as (d & t & -> & Hd).
    unfold literal, txt. cbn [list_ascii_of_string app].
    rewrite strip_head_eq. by rewrite !strip_head_ne by (done || by apply eqb_digit).
  - destruct (digits_head (Z.abs_N z)) as (d & t & -> & Hd).
    unfold literal, txt. cbn [list_ascii_of_string app].
    by rewrite !strip_head_ne by (by apply eqb_digit).
Qed.

Lemma parse_value_int n z rest :
  terminated rest → parse_value (S n) (int_repr z ++ rest) = Ok (JInt z, rest).
Proof.
  intros Hrest. pose proof (literal_int_repr z rest) as Hlit.
  pose proof (scan_number_int_repr z rest Hrest) as Hnum.
  destruct (int_repr_head z) as (c & t & Hz & Hc). rewrite Hz in *.
  cbn [parse_value app]. cbn [app] in Hlit, Hnum. rewrite Hlit, Hnum.
  destruct Hc as [->%ch_eq|Hc]; [done|].
  unfold is_digit, ch in *. apply andb_prop in Hc as [H1%N.leb_le H2%N.leb_le].
  repeat match goal with
  | |- context [N.eqb (code c) ?k] =>
      destruct (N.eqb_spec (code c) k); [lia|]
  end. done.
Qed.

Lemma parse_value_str n s rest :
  parse_value (S n) (encode_basestring_ascii s ++ rest) = Ok (JStr s, rest).
Proof.
  destruct (scanstring_encoded s rest) as (t & -> & Ht). simpl. by rewrite Ht.
Qed.

Lemma terminated_newline_indent level s : terminated (newline_indent level ++ s).
Proof. done. Qed.

Lemma terminated_item_separator level s : terminated (item_separator level ++ s).
Proof. done. Qed.

Lemma parse_array_end n v level rest s :
  parse_value n s = Ok (v, newline_indent level ++ "]"%char :: rest) →
  parse_array (S n) s = Ok ([v], rest).
Proof.
  intros H. cbn [parse_array]. rewrite H. cbn [mbind res_bind].
  by rewrite skip_ws_newline_indent.
Qed.

Lemma parse_array_continue n v level s s' :
  parse_value n s = Ok (v, item_separator level ++ s') →
  parse_array (S n) s = parse_array n (skip_ws s') ≫= λ '(vs, r), Ok (v :: vs, r).
Proof.
  intros H. cbn [parse_array]. rewrite H. cbn [mbind res_bind].
  unfold item_separator. rewrite <-app_comm_cons, skip_ws_stop by done.
  change (ch ","%char 93) with false. change (ch ","%char 44) with true.
  cbn match. by rewrite skip_ws_newline_indent.
Qed.

(** [JSONArray] on the members of an encoded list. *)
Lemma parse_array_encoded level j js rest fuel :
  Forall (decodes (S level)) (j :: js) →
  foldr (λ x n, S (jsize x + n)) 0 (j :: js) ≤ fuel →
  parse_array fuel
    (join (item_separator (S level)) (encode false (S level) <$> j :: js)
       ++ newline_indent level ++ "]"%char :: rest)
  = Ok (j :: js, rest).
Proof.
  revert j fuel. induction js as [|j' js IH]; intros j fuel Hall Hfuel.
  - apply Forall_cons in Hall as [Hj _]. simpl in Hfuel.
    destruct fuel as [|fuel]; [lia|].
    rewrite fmap_cons, fmap_nil, join_singleton.
    eapply parse_array_end, Hj; [done|lia].
  - apply Forall_cons in Hall as [Hj Hall]. cbn [foldr] in Hfuel.
    destruct fuel as [|fuel]; [lia|].
    rewrite fmap_cons, fmap_cons, join_cons_cons, <-fmap_cons, <-!app_assoc.
    erewrite parse_array_continue; [|apply Hj; [done|lia]].
    rewrite skip_ws_join.
    rewrite IH; [done|done|]. cbn [foldr]. lia.
Qed.

Lemma parse_object_item n k sv :
  skip_ws sv = sv →
  parse_object (S n) (encode_basestring_ascii k ++ key_separator ++ sv)
  = parse_value n sv ≫= λ '(v, s3),
      match skip_ws s3 with
      | [] => Err JSONDecodeError
      | c :: s4 =>
          if ch c 125 then Ok ([(k, v)], s4)
          else if ch c 44 then
            parse_object n (skip_ws s4) ≫= λ '(kvs, r), Ok ((k, v) :: kvs, r)
          else Err JSONDecodeError
      end.
Proof.
  intros Hsv. destruct (scanstring_encoded k (key_separator ++ sv)) as (t & -> & Ht).
  cbn [parse_object]. change (ch QUOTE 34) with true. cbn match.
  rewrite Ht. cbn [mbind res_bind]. unfold key_separator.
  rewrite <-app_comm_cons, skip_ws_stop by done.
  change (ch ":"%char 58) with true. cbn match.
  change ([SPACE] ++ sv) with (replicate 1 SPACE ++ sv).
  by rewrite skip_ws_spaces, Hsv.
Qed.

Lemma parse_object_end n k v level rest sv :
  skip_ws sv = sv →
  parse_value n sv = Ok (v, newline_indent level ++ "}"%char :: rest) →
  parse_object (S n) (encode_basestring_ascii k ++ key_separator ++ sv)
  = Ok ([(k, v)], rest).
Proof.
  intros Hsv H. rewrite parse_object_item, H by done. cbn [mbind res_bind].
  by rewrite skip_ws_newline_indent.
Qed.

Lemma parse_object_continue n k v level sv s' :
  skip_ws sv = sv →
  parse_value n sv = Ok (v, item_separator level ++ s') →
  parse_object (S n) (encode_basestring_ascii k ++ key_separator ++ sv)
  = parse_object n (skip_ws s') ≫= λ '(kvs, r), Ok ((k, v) :: kvs, r).
Proof.
  intros Hsv H. rewrite parse_object_item, H by done. cbn [mbind res_bind].
  unfold item_separator. rewrite <-app_comm_cons, skip_ws_stop by done.
  change (ch ","%char 125) with false. change (ch ","%char 44) with true.
  cbn match. by rewrite skip_ws_newline_indent.
Qed.

Lemma skip_ws_item level kv s : skip_ws (plain_item level kv ++ s) = plain_item level kv ++ s.
Proof. done. Qed.

(** [JSONObject] on the items of an encoded dict. *)
Lemma parse_object_encoded level kv d rest fuel :
  Forall (λ kv, decodes (S level) kv.2) (kv :: d) →
  foldr (λ kv n, S (jsize kv.2 + n)) 0 (kv :: d) ≤ fuel →
  parse_object fuel
    (join (item_separator (S level)) (plain_item (S level) <$> kv :: d)
       ++ newline_indent level ++ "}"%char :: rest)
  = Ok (kv :: d, rest).
Proof.
  revert kv fuel. induction d as [|kv' d IH]; intros [k v] fuel Hall Hfuel.
  - apply Forall_cons in Hall as [Hv _]. simpl in Hfuel, Hv.
    destruct fuel as [|fuel]; [lia|].
    rewrite fmap_cons, fmap_nil, join_singleton.
    unfold plain_item, encode_item. cbn [fst snd]. rewrite <-!app_assoc.
    eapply parse_object_end; [apply skip_ws_encode|]. apply Hv; [done|lia].
  - apply Forall_cons in Hall as [Hv Hall]. cbn [foldr snd] in Hfuel. simpl in Hv.
    destruct fuel as [|fuel]; [lia|].
    rewrite fmap_cons, fmap_cons, join_cons_cons, <-fmap_cons.
    unfold plain_item at 1, encode_item. cbn [fst snd]. rewrite <-!app_assoc.
    erewrite parse_object_continue; [|apply skip_ws_encode|apply Hv; [done|lia]].
    rewrite fmap_cons, join_cons, <-app_assoc, skip_ws_item.
    rewrite app_assoc, <-join_cons, <-fmap_cons.
    rewrite IH; [done|done|]. cbn [foldr]. lia.
Qed.

Lemma dict_of_pairs_unique {A} (pairs : list (string * A)) :
  NoDup pairs.*1 → dict_of_pairs pairs = pairs.
Proof.
  unfold dict_of_pairs.
  assert (∀ acc : list (string * A),
            NoDup (acc.*1 ++ pairs.*1) →
            foldl (λ d kv, dict_set d kv.1 kv.2) acc pairs = acc ++ pairs) as H.
  { induction pairs as [|[k x] pairs IH]; intros acc Hnd; simpl.
    - by rewrite app_nil_r.
    - rewrite dict_set_absent.
      + rewrite IH; [by rewrite <-app_assoc|].
        rewrite fmap_app. simpl. by rewrite <-app_assoc.
      + apply key_index_None. csimpl in Hnd. apply NoDup_app in Hnd as (_ & Hnd & _).
        intros Hk. apply (Hnd k Hk). apply elem_of_cons. by left. }
  intros Hnd. by apply (H []).
Qed.

Lemma forallb_Forall {A} (f : A → bool) (l : list A) :
  forallb f l = true ↔ Forall (λ x, f x = true) l.
Proof.
  induction l as [|x l IH]; simpl.
  - split; [constructor|done].
  - rewrite andb_true_iff, Forall_cons, IH. done.
Qed.

(** The decoder reads back what the encoder wrote. *)
Lemma parse_encode j : unique_keys j = true → ∀ level, decodes level j.
Proof.
  induction j as [|b|z|s|js IH|d IH] using json_ind; intros Hu level rest fuel Hrest Hfuel;
    (destruct fuel as [|fuel]; [simpl in Hfuel; lia|]).
  - done.
  - by destruct b.
  - by apply parse_value_int.
  - apply parse_value_str.
  - destruct js as [|j js]; [done|].
    assert (Forall (decodes (S level)) (j :: js)) as Hall.
    { cbn [unique_keys] in Hu. apply forallb_Forall in Hu.
      rewrite Forall_forall in IH, Hu |- *. intros x Hx. apply IH; auto. }
    cbn [encode]. rewrite <-app_comm_cons. cbn [parse_value].
    change (ch "["%char 34) with false. change (ch "["%char 123) with false.
    change (ch "["%char 91) with true. cbn match.
    rewrite <-!app_assoc, skip_ws_newline_indent, skip_ws_join.
    destruct (encode_head false (S level) j) as (c & t & Hc & _ & Hc93 & _).
    rewrite fmap_cons, join_cons, <-app_assoc, Hc, <-app_comm_cons, Hc93.
    rewrite app_comm_cons, <-Hc, app_assoc, <-join_cons, <-fmap_cons.
    change (["]"%char] ++ rest) with ("]"%char :: rest).
    rewrite parse_array_encoded; [done|done|]. simpl in Hfuel |- *. lia.
  - destruct d as [|kv d]; [done|].
    cbn [unique_keys] in Hu. apply andb_prop in Hu as [Hnd%bool_decide_eq_true Hu].
    assert (Forall (λ kv, decodes (S level) kv.2) (kv :: d)) as Hall.
    { apply forallb_Forall in Hu.
      rewrite Forall_forall in IH, Hu |- *. intros x Hx. apply IH; auto. }
    cbn [encode]. rewrite <-app_comm_cons. cbn [parse_value].
    change (ch "{"%char 34) with false. change (ch "{"%char 123) with true.
    cbn match. rewrite <-list_fmap_compose.
    change (encode_item ∘ _) with (plain_item (S level)).
    rewrite <-!app_assoc, skip_ws_newline_indent.
    change (["}"%char] ++ rest) with ("}"%char :: rest).
    pose proof (skip_ws_item (S level) kv
                  (mjoin ((λ x, item_separator (S level) ++ x) <$> (plain_item (S level) <$> d))
                     ++ newline_indent level ++ "}"%char :: rest)) as Hskip.
    rewrite app_assoc, <-join_cons, <-fmap_cons in Hskip. rewrite Hskip.
    assert (∃ t, join (item_separator (S level)) (plain_item (S level) <$> kv :: d)
                   ++ newline_indent level ++ "}"%char :: rest = QUOTE :: t) as [t Ht].
    { rewrite fmap_cons, join_cons. by eexists. }
    rewrite Ht. change (ch QUOTE 125) with false. cbn match. rewrite <-Ht.
    rewrite (parse_object_encoded level kv d rest fuel Hall) by (simpl in Hfuel |- *; lia).
    cbn [mbind res_bind]. by rewrite dict_of_pairs_unique.
Qed.

Lemma size_join {A} (f : A → nat) (g : A → text) sep xs :
  Forall (λ x, f x ≤ length (g x)) xs → 1 ≤ length sep →
  foldr (λ x n, S (f x + n)) 0 xs ≤ length (join sep (g <$> xs)) + 1.
Proof.
  intros Hall Hsep.
  assert (∀ ys, Forall (λ x, f x ≤ length (g x)) ys →
            foldr (λ x n, S (f x + n)) 0 ys
            ≤ length (mjoin ((λ x, sep ++ x) <$> (g <$> ys)))) as Hrest.
  { induction 1 as [|y ys Hy _ IH]; csimpl; [done|]. rewrite !length_app. lia. }
  destruct Hall as [|x xs Hx Hxs]; [simpl; lia|].
  rewrite fmap_cons, join_cons, length_app. specialize (Hrest xs Hxs). simpl. lia.
Qed.

Lemma jsize_le level j : jsize j ≤ length (encode false level j).
Proof.
  revert level. induction j as [|b|z|s|js IH|d IH] using json_ind; intros level.
  - simpl. lia.
  - destruct b; simpl; lia.
  - destruct (int_repr_head z) as (c & t & Hz & _). simpl. rewrite Hz. simpl. lia.
  - simpl. lia.
  - destruct js as [|j js]; [simpl; lia|].
    cbn [encode jsize length]. rewrite !length_app.
    pose proof (size_join jsize (encode false (S level)) (item_separator (S level)) (j :: js))
      as Hsize.
    unfold newline_indent. cbn [length].
    assert (1 ≤ length (item_separator (S level))) by (simpl; lia).
    assert (Forall (λ x, jsize x ≤ length (encode false (S level) x)) (j :: js)).
    { eapply Forall_impl; [done|]. intros x Hx. apply Hx. }
    specialize (Hsize ltac:(done) ltac:(done)). cbn [length]. lia.
  - destruct d as [|kv d]; [simpl; lia|].
    cbn [encode jsize length]. rewrite !length_app.
    rewrite <-list_fmap_compose.
    pose proof (size_join (λ kv, jsize kv.2) (plain_item (S level))
                  (item_separator (S level)) (kv :: d)) as Hsize.
    unfold newline_indent. cbn [length].
    assert (1 ≤ length (item_separator (S level))) by (simpl; lia).
    assert (Forall (λ x, jsize x.2 ≤ length (plain_item (S level) x)) (kv :: d)).
    { eapply Forall_impl; [done|]. intros x Hx. specialize (Hx (S level)).
      unfold plain_item, encode_item. cbn [fst snd]. rewrite !length_app. lia. }
    specialize (Hsize ltac:(done) ltac:(done)). cbn [length].
    change (encode_item ∘ _) with (plain_item (S level)). lia.
Qed.

Lemma json_loads_encode j :
  unique_keys j = true → json_loads (encode false 0 j ++ [NEWLINE]) = Ok j.
Proof.
  intros Hu. unfold json_loads. rewrite skip_ws_encode.
  rewrite (parse_encode j Hu 0 [NEWLINE]); [done|done|].
  rewrite length_app. pose proof (jsize_le 0 j). lia.
Qed.

(** ** Sorted keys *)

Lemma insert_item_fmap {A B} (g : string * A → string * B) kv l :
  (∀ x, (g x).1 = x.1) →
  insert_item (g kv) (g <$> l) = g <$> insert_item kv l.
Proof.
  intros Hg. induction l as [|x l IH]; csimpl; [done|].
  rewrite !Hg. destruct (String.leb kv.1 x.1); csimpl; [done|]. by rewrite IH.
Qed.

Lemma sorted_items_fmap {A B} (g : string * A → string * B) d :
  (∀ x, (g x).1 = x.1) →
  sorted_items (g <$> d) = g <$> sorted_items d.
Proof.
  intros Hg. unfold sorted_items. induction d as [|kv d IH]; csimpl; [done|].
  by rewrite IH, insert_item_fmap.
Qed.

Lemma insert_item_perm {A} (kv : string * A) l : insert_item kv l ≡ₚ kv :: l.
Proof.
  induction l as [|x l IH]; simpl; [done|].
  destruct (String.leb kv.1 x.1); [done|]. rewrite IH. apply Permutation_swap.
Qed.

Lemma sorted_items_perm {A} (d : list (string * A)) : sorted_items d ≡ₚ d.
Proof.
  unfold sorted_items. induction d as [|kv d IH]; simpl; [done|].
  by rewrite insert_item_perm, IH.
Qed.

Lemma sorted_items_nil {A} (d : list (string * A)) : sorted_items d = [] → d = [].
Proof.
  intros H. apply Permutation_nil_r. rewrite <-H. symmetry. apply sorted_items_perm.
Qed.

(** Sorting the keys while encoding is encoding the sorted value. *)
Lemma encode_sorted j : ∀ level, encode true level j = encode false level (canon j).
Proof.
  induction j as [|b|z|s|js IH|d IH] using json_ind; intros level; try done.
  - destruct js as [|j js]; [done|].
    assert (encode true (S level) <$> j :: js
            = encode false (S level) <$> (canon <$> j :: js)) as Heq.
    { rewrite <-list_fmap_compose. apply Forall_fmap_ext_1.
      eapply Forall_impl; [done|]. intros x Hx. apply Hx. }
    cbn [encode canon]. rewrite Heq. by rewrite fmap_cons.
  - destruct d as [|kv d]; [done|].
    set (cd := (λ kv0 : string * json, (kv0.1, canon kv0.2)) <$> kv :: d).
    assert ((λ kv0, (kv0.1, encode true (S level) kv0.2)) <$> kv :: d
            = (λ kv0, (kv0.1, encode false (S level) kv0.2)) <$> cd) as Heq.
    { unfold cd. rewrite <-list_fmap_compose. apply Forall_fmap_ext_1.
      eapply Forall_impl; [done|]. intros x Hx. simpl. by rewrite Hx. }
    cbn [encode canon]. fold cd. rewrite Heq.
    rewrite (sorted_items_fmap (λ kv0, (kv0.1, encode false (S level) kv0.2))) by done.
    destruct (sorted_items cd) as [|kv' d'] eqn:Hs; [|done].
    by apply sorted_items_nil in Hs.
Qed.

Lemma dict_get_elem {A} (d : list (string * A)) k x :
  NoDup d.*1 → dict_get d k = Some x ↔ (k, x) ∈ d.
Proof.
  induction d as [|[k' y] d IH]; csimpl; intros Hnd.
  - split; [done|]. by intros ?%elem_of_nil.
  - apply NoDup_cons in Hnd as [Hk' Hnd]. rewrite elem_of_cons.
    destruct (decide (k' = k)) as [->|Hne].
    + split; [intros [= ->]; by left|].
      intros [[= ->]|Hin]; [done|]. exfalso. apply Hk'.
      apply list_elem_of_fmap. by exists (k, x).
    + rewrite IH by done. split; [by right|]. intros [[= -> ->]|?]; done.
Qed.

Lemma dict_get_perm {A} (d d' : list (string * A)) k :
  d ≡ₚ d' → NoDup d.*1 → dict_get d k = dict_get d' k.
Proof.
  intros Hp Hnd. assert (NoDup d'.*1) as Hnd' by (by rewrite <-Hp).
  apply option_eq. intros x. rewrite !dict_get_elem by done. by rewrite Hp.
Qed.

Lemma dict_get_fmap {A B} (f : A → B) (d : list (string * A)) k :
  dict_get ((λ kv, (kv.1, f kv.2)) <$> d) k = f <$> dict_get d k.
Proof.
  induction d as [|[k' y] d IH]; csimpl; [done|].
  by destruct (decide (k' = k)).
Qed.

Lemma fmap_fst_values {A B} (f : A → B) (d : list (string * A)) :
  ((λ kv, (kv.1, f kv.2)) <$> d).*1 = d.*1.
Proof. rewrite <-list_fmap_compose. by apply list_fmap_ext. Qed.

Lemma canon_keys d :
  (sorted_items ((λ kv : string * json, (kv.1, canon kv.2)) <$> d)).*1 ≡ₚ d.*1.
Proof. by rewrite sorted_items_perm, fmap_fst_values. Qed.

(** Sorting the keys leaves every lookup as it was. *)
Lemma jget_canon j k : unique_keys j = true → jget (canon j) k = canon <$> jget j k.
Proof.
  destruct j as [| | | | |d]; try done. cbn [unique_keys canon jget].
  intros [Hnd%bool_decide_eq_true _]%andb_prop.
  rewrite (dict_get_perm _ _ k (sorted_items_perm _)).
  - apply dict_get_fmap.
  - by rewrite canon_keys.
Qed.

Lemma unique_keys_canon j : unique_keys j = true → unique_keys (canon j) = true.
Proof.
  induction j as [|b|z|s|js IH|d IH] using json_ind; try done; cbn [unique_keys canon].
  - rewrite !forallb_Forall, Forall_fmap. intros Hu.
    rewrite Forall_forall in IH, Hu |- *. intros x Hx. apply IH; auto.
  - intros [Hnd%bool_decide_eq_true Hu]%andb_prop. apply andb_true_intro. split.
    + apply bool_decide_eq_true. by rewrite canon_keys.
    + apply forallb_Forall. rewrite sorted_items_perm, Forall_fmap.
      apply forallb_Forall in Hu.
      rewrite Forall_forall in IH, Hu |- *. intros x Hx. apply IH; auto.
Qed.

Lemma unique_keys_jget j k x :
  unique_keys j = true → jget j k = Some x → unique_keys x = true.
Proof.
  destruct j as [| | | | |d]; try done. cbn [unique_keys jget].
  intros [Hnd%bool_decide_eq_true Hu%forallb_Forall]%andb_prop Hget.
  apply dict_get_elem in Hget; [|done].
  rewrite Forall_forall in Hu. by apply (Hu (k, x)).
Qed.

(** The pins are the same pins in the same order. *)
Lemma pins_of_canon j ps :
  unique_keys j = true → pins_of j = Some ps →
  pins_of (canon j) = Some (canon <$> ps).
Proof.
  intros Hu (jo & Hjo & Hjp)%pins_of_inv. unfold pins_of.
  rewrite (jget_canon j _ Hu), Hjo. simpl.
  rewrite (jget_canon jo _ (unique_keys_jget _ _ _ Hu Hjo)), Hjp. done.
Qed.

Lemma leb_ne_ltb s1 s2 : String.leb s1 s2 = true → s1 ≠ s2 → String.ltb s1 s2 = true.
Proof.
  unfold String.leb, String.ltb. intros Hle Hne.
  destruct (String.compare s1 s2) eqn:Hc; try done.
  by apply String.compare_eq_iff in Hc.
Qed.

Lemma leb_false_ltb s1 s2 : String.leb s1 s2 = false → String.ltb s2 s1 = true.
Proof.
  unfold String.leb, String.ltb. rewrite (String.compare_antisym s1 s2).
  by destruct (String.compare s2 s1).
Qed.

Lemma is_sorted_cons k ks :
  is_sorted (k :: ks)
  = match ks with k2 :: _ => String.ltb k k2 | [] => true end && is_sorted ks.
Proof. done. Qed.

Lemma insert_item_sorted {A} (kv : string * A) l :
  kv.1 ∉ l.*1 → is_sorted l.*1 = true → is_sorted (insert_item kv l).*1 = true.
Proof.
  induction l as [|x l IH]; [done|].
  rewrite fmap_cons, not_elem_of_cons, is_sorted_cons.
  intros [Hne Hnin] [Hhead Hrest]%andb_prop. cbn [insert_item].
  destruct (String.leb kv.1 x.1) eqn:Hle.
  - rewrite !fmap_cons, is_sorted_cons, (leb_ne_ltb _ _ Hle Hne).
    by rewrite is_sorted_cons, Hhead, Hrest.
  - rewrite fmap_cons, is_sorted_cons, (IH Hnin Hrest), andb_true_r.
    destruct l as [|y l]; cbn [insert_item].
    + by apply leb_false_ltb.
    + destruct (String.leb kv.1 y.1); [by apply leb_false_ltb|done].
Qed.

Lemma sorted_items_sorted {A} (d : list (string * A)) :
  NoDup d.*1 → is_sorted (sorted_items d).*1 = true.
Proof.
  unfold sorted_items. induction d as [|kv d IH]; [done|]. csimpl.
  intros [Hnin Hnd]%NoDup_cons. apply insert_item_sorted; [|by apply IH].
  fold (sorted_items d). by rewrite sorted_items_perm.
Qed.

(** In the sorted value the keys of every dict are in strictly increasing
    order. *)
Lemma keys_sorted_canon j : unique_keys j = true → keys_sorted (canon j) = true.
Proof.
  induction j as [|b|z|s|js IH|d IH] using json_ind; try done;
    cbn [unique_keys keys_sorted canon].
  - rewrite !forallb_Forall, Forall_fmap. intros Hu.
    rewrite Forall_forall in IH, Hu |- *. intros x Hx. apply IH; auto.
  - intros [Hnd%bool_decide_eq_true Hu]%andb_prop. apply andb_true_intro. split.
    + apply sorted_items_sorted. by rewrite fmap_fst_values.
    + apply forallb_Forall. rewrite sorted_items_perm, Forall_fmap.
      apply forallb_Forall in Hu.
      rewrite Forall_forall in IH, Hu |- *. intros x Hx. apply IH; auto.
Qed.

(** ** What the decoder returns has distinct keys *)

Lemma dict_of_pairs_keys {A} (pairs : list (string * A)) :
  NoDup (dict_of_pairs pairs).*1
  ∧ ∀ kv, kv ∈ dict_of_pairs pairs → kv ∈ pairs.
Proof.
  unfold dict_of_pairs.
  assert (∀ acc : list (string * A), NoDup acc.*1 →
            NoDup (foldl (λ d kv, dict_set d kv.1 kv.2) acc pairs).*1
            ∧ ∀ kv, kv ∈ foldl (λ d kv, dict_set d kv.1 kv.2) acc pairs →
                    kv ∈ acc ∨ kv ∈ pairs) as H.
  { induction pairs as [|[k x] pairs IH]; intros acc Hnd; simpl.
    - split; [done|]. auto.
    - destruct (IH (dict_set acc k x) (dict_set_keys_NoDup _ _ _ Hnd)) as [H1 H2].
      split; [done|]. intros kv Hkv. destruct (H2 kv Hkv) as [Hin|Hin].
      + assert (kv ∈ acc ∨ kv = (k, x)) as [?| ->]; [|by left|right; by left].
        clear -Hin. induction acc as [|[k' y] acc IHacc]; simpl in Hin.
        * apply list_elem_of_singleton in Hin. by right.
        * destruct (decide (k' = k)) as [->|].
          -- apply elem_of_cons in Hin as [-> |Hin]; [by right|].
             left. by right.
          -- apply elem_of_cons in Hin as [-> |Hin]; [left; by left|].
             destruct (IHacc Hin) as [?|?]; [left; by right|by right].
      + right. by right. }
  destruct (H [] (NoDup_nil_2)) as [H1 H2]. split; [done|].
  intros kv Hkv. destruct (H2 kv Hkv) as [?%elem_of_nil|?]; done.
Qed.

Lemma res_bind_Ok {A B} (r : res A) (k : A → res B) b :
  r ≫= k = Ok b → ∃ a, r = Ok a ∧ k a = Ok b.
Proof. destruct r as [a|e]; [|done]. by exists a. Qed.

Lemma literal_unique s j r : literal s = Some (Ok (j, r)) → unique_keys j = true.
Proof. unfold literal. intros H. repeat (case_match; simplify_eq/=; try done). Qed.

Lemma scan_number_unique s j r : scan_number s = Ok (j, r) → unique_keys j = true.
Proof.
  unfold scan_number. intros ([neg s1] & _ & ([m s2] & _ & H)%res_bind_Ok)%res_bind_Ok.
  by case_match; simplify_eq.
Qed.

Lemma parse_unique n :
  (∀ s j r, parse_value n s = Ok (j, r) → unique_keys j = true)
  ∧ (∀ s js r, parse_array n s = Ok (js, r) → forallb unique_keys js = true)
  ∧ (∀ s kvs r, parse_object n s = Ok (kvs, r) →
       forallb (λ kv : string * json, unique_keys kv.2) kvs = true).
Proof.
  induction n as [|n (IHv & IHa & IHo)]; [done|]. split_and!.
  - intros s j r. cbn [parse_value]. intros H.
    repeat (case_match; simplify_eq/=; try done).
    + by apply res_bind_Ok in H as ([str r'] & _ & [= <- _]).
    + apply res_bind_Ok in H as ([pairs r'] & Hp%IHo & [= <- _]).
      cbn [unique_keys]. destruct (dict_of_pairs_keys pairs) as [Hnd Hin].
      apply andb_true_intro. split; [by apply bool_decide_eq_true|].
      apply forallb_Forall in Hp. apply forallb_Forall.
      rewrite Forall_forall in Hp |- *. auto.
    + apply res_bind_Ok in H as ([vs r'] & Hp%IHa & [= <- _]). done.
    + by eapply literal_unique.
    + by eapply scan_number_unique.
  - intros s js r. cbn [parse_array].
    intros ([v s1] & Hv%IHv & H)%res_bind_Ok.
    repeat (case_match; simplify_eq/=; try done).
    + by rewrite Hv.
    + apply res_bind_Ok in H as ([vs r'] & Hp%IHa & [= <- _]).
      simpl. by rewrite Hv, Hp.
  - intros s kvs r. cbn [parse_object]. intros H.
    repeat (case_match; simplify_eq/=; try done).
    apply res_bind_Ok in H as ([key s1] & _ & H).
    repeat (case_match; simplify_eq/=; try done).
    apply res_bind_Ok in H as ([v s3] & Hv%IHv & H).
    repeat (case_match; simplify_eq/=; try done).
    + by rewrite Hv.
    + apply res_bind_Ok in H as ([kvs' r'] & Hp%IHo & [= <- _]).
      simpl. by rewrite Hv, Hp.
Qed.

Lemma json_loads_unique s j : json_loads s = Ok j → unique_keys j = true.
Proof.
  unfold json_loads. intros ([j' r] & Hp & H)%res_bind_Ok.
  destruct (skip_ws r); simplify_eq.
  by eapply (parse_unique (S (2 * length s))).
Qed.

(** ** The bound of the decoder is never reached *)

Lemma skip_ws_length s : length (skip_ws s) ≤ length s.
Proof.
  induction s as [|c s IH]; simpl; [done|]. destruct (is_ws c); simpl; lia.
Qed.

Lemma progress_push c s s' (r : res (string * text)) :
  progress s' r → length s' ≤ length s → progress s (push c r).
Proof. destruct r as [[x rest]|e]; simpl; [lia|done]. Qed.

Lemma scanstring_progress n : ∀ s, length s ≤ n → s ≠ [] → progress s (scanstring s).
Proof.
  induction n as [|n IH]; intros s Hn Hs.
  { destruct s; [done|simpl in Hn; lia]. }
  destruct s as [|c s1]; [done|]. cbn [scanstring]. simpl in Hn.
  assert (∀ c' s', length s' ≤ length s1 → progress (c :: s1) (push c' (scanstring s')))
    as Hpush.
  { intros c' s' Hle. destruct s' as [|x s'].
    - done.
    - eapply progress_push; [apply IH; [simpl in *; lia|done]|simpl in *; lia]. }
  destruct (ch c 34); [simpl; lia|].
  destruct (ch c 92).
  - destruct s1 as [|e s2]; [done|].
    destruct (ch e 117).
    + destruct s2 as [|x [|y [|z [|t s3]]]]; try done.
      destruct (hex4 x y z t); [|done].
      destruct (N.ltb _ 256); [|done]. apply Hpush. simpl. lia.
    + destruct (unescape e); [|done]. apply Hpush. simpl. lia.
  - destruct (N.ltb (code c) 32); [done|]. by apply Hpush.
Qed.

Lemma strip_length p s r : strip p s = Some r → length r + length p = length s.
Proof.
  revert s. induction p as [|a p IH]; intros [|b s]; simpl; try done.
  - by intros [= <-].
  - intros [= <-]. simpl. lia.
  - destruct (Ascii.eqb a b); [|done]. intros H%IH. lia.
Qed.

Lemma literal_progress s r : literal s = Some r → progress s r.
Proof.
  unfold literal. intros H.
  repeat (case_match; simplify_eq; try done);
    match goal with
    | H : strip _ _ = Some _ |- _ => apply strip_length in H; simpl in *; lia
    end.
Qed.

Lemma read_digits_length s acc : length (read_digits s acc).2 ≤ length s.
Proof.
  revert acc. induction s as [|c s IH]; intros acc; simpl; [done|].
  destruct (is_digit c); simpl; [|lia]. specialize (IH (10 * acc + (code c - 48))%N). lia.
Qed.

Lemma scan_number_progress s : progress s (scan_number s).
Proof.
  unfold scan_number, scan_sign, scan_nat.
  destruct s as [|c s']; [done|].
  assert (∀ t, length t ≤ length (c :: s') →
            progress (c :: s')
              ('(n, s2) ← match t with
                          | c0 :: t' =>
                              if ch c0 48 then Ok (0%N, t')
                              else if is_digit c0 then Ok (read_digits t 0)
                              else Err JSONDecodeError
                          | [] => Err JSONDecodeError
                          end;
               (if float_follows s2 then Err NotModelled
                else Ok (JInt (if true then - Z.of_N n else Z.of_N n), s2))
               : res (json * text))
            ∧ progress (c :: s')
              ('(n, s2) ← match t with
                          | c0 :: t' =>
                              if ch c0 48 then Ok (0%N, t')
                              else if is_digit c0 then Ok (read_digits t 0)
                              else Err JSONDecodeError
                          | [] => Err JSONDecodeError
                          end;
               (if float_follows s2 then Err NotModelled
                else Ok (JInt (if false then - Z.of_N n else Z.of_N n), s2))
               : res (json * text))) as Hnat.
  { intros [|c0 t'] Hle; [done|]. simpl in Hle.
    destruct (ch c0 48).
    - cbn. destruct (float_follows t'); simpl; split; (done || lia).
    - destruct (is_digit c0) eqn:Hd; [|done].
      cbn [read_digits]. rewrite Hd.
      pose proof (read_digits_length t' (10 * 0 + (code c0 - 48))%N) as Hlen.
      destruct (read_digits t' _) as [m s2]. cbn in Hlen |- *.
      destruct (float_follows s2); simpl; split; (done || lia). }
  destruct (ch c 45); cbn [mbind res_bind].
  - apply (Hnat s'). simpl. lia.
  - by apply (Hnat (c :: s')).
Qed.

Lemma parse_progress n :
  (∀ s, 2 * length s < n → progress s (parse_value n s))
  ∧ (∀ s, 2 * length s + 1 < n → s ≠ [] → progress s (parse_array n s))
  ∧ (∀ s, 2 * length s + 1 < n → s ≠ [] → progress s (parse_object n s)).
Proof.
  induction n as [|n (IHv & IHa & IHo)]; [split_and!; intros; lia|].
  split_and!.
  - intros [|c s'] Hn; [done|]. cbn [parse_value]. simpl in Hn.
    destruct (ch c 34).
    { destruct s' as [|x s'']; [done|].
      pose proof (scanstring_progress _ (x :: s'') (Nat.le_refl _) ltac:(done)) as Hs.
      destruct (scanstring (x :: s'')) as [[str r]|e]; simpl in *; [lia|done]. }
    destruct (ch c 123).
    { pose proof (skip_ws_length s') as Hws.
      destruct (skip_ws s') as [|c1 r1]; [done|]. simpl in Hws.
      destruct (ch c1 125); [simpl; lia|].
      specialize (IHo (c1 :: r1) ltac:(simpl; lia) ltac:(done)).
      destruct (parse_object n (c1 :: r1)) as [[pairs r]|e]; simpl in *; [lia|done]. }
    destruct (ch c 91).
    { pose proof (skip_ws_length s') as Hws.
      destruct (skip_ws s') as [|c1 r1]; [done|]. simpl in Hws.
      destruct (ch c1 93); [simpl; lia|].
      specialize (IHa (c1 :: r1) ltac:(simpl; lia) ltac:(done)).
      destruct (parse_array n (c1 :: r1)) as [[vs r]|e]; simpl in *; [lia|done]. }
    destruct (literal (c :: s')) as [r|] eqn:Hlit.
    + by apply literal_progress in Hlit.
    + apply scan_number_progress.
  - intros s Hn Hs. cbn [parse_array].
    specialize (IHv s ltac:(lia)).
    destruct (parse_value n s) as [[v s1]|e]; [|done]. simpl in IHv.
    cbn [mbind res_bind].
    pose proof (skip_ws_length s1) as Hws.
    destruct (skip_ws s1) as [|c s2]; [done|]. simpl in Hws.
    destruct (ch c 93); [simpl; lia|].
    destruct (ch c 44); [|done].
    pose proof (skip_ws_length s2) as Hws2.
    destruct (skip_ws s2) as [|x s3] eqn:Hs2.
    { destruct n as [|[|n']]; [lia..|]. cbn. done. }
    specialize (IHa (x :: s3) ltac:(simpl in *; lia) ltac:(done)).
    destruct (parse_array n (x :: s3)) as [[vs r]|e]; simpl in *; [lia|done].
  - intros [|q s0] Hn Hs; [done|]. cbn [parse_object]. simpl in Hn.
    destruct (ch q 34); [|done].
    destruct s0 as [|x s0']; [done|].
    pose proof (scanstring_progress _ (x :: s0') (Nat.le_refl _) ltac:(done)) as Hkey.
    destruct (scanstring (x :: s0')) as [[key s1]|e]; [|done]. simpl in Hkey.
    cbn [mbind res_bind].
    pose proof (skip_ws_length s1) as Hws1.
    destruct (skip_ws s1) as [|colon s2]; [done|]. simpl in Hws1.
    destruct (ch colon 58); [|done].
    pose proof (skip_ws_length s2) as Hws2.
    specialize (IHv (skip_ws s2) ltac:(simpl in *; lia)).
    destruct (parse_value n (skip_ws s2)) as [[v s3]|e]; [|done]. simpl in IHv.
    cbn [mbind res_bind].
    pose proof (skip_ws_length s3) as Hws3.
    destruct (skip_ws s3) as [|c s4]; [done|]. simpl in Hws3.
    destruct (ch c 125); [simpl; lia|].
    destruct (ch c 44); [|done].
    pose proof (skip_ws_length s4) as Hws4.
    destruct (skip_ws s4) as [|y s5] eqn:Hs4.
    { destruct n; [simpl in *; lia|]. done. }
    specialize (IHo (y :: s5) ltac:(simpl in *; lia) ltac:(done)).
    destruct (parse_object n (y :: s5)) as [[kvs r]|e]; simpl in *; [lia|done].
Qed.

(** [json_loads] never fails for want of nested calls: twice the length of
    the text is bound enough. *)
Lemma json_loads_bound s : json_loads s ≠ Err RecursionError.
Proof.
  unfold json_loads.
  destruct (parse_progress (S (2 * length s))) as (Hv & _).
  pose proof (skip_ws_length s) as Hws.
  specialize (Hv (skip_ws s) ltac:(lia)).
  destruct (parse_value _ (skip_ws s)) as [[j rest]|e]; cbn [mbind res_bind].
  - by destruct (skip_ws rest).
  - simpl in Hv. by intros [= ->].
Qed.

(** * The specification, claim by claim *)

Lemma sample_loaded : loaded sample_world sample_handle sample_document.
Proof.
  eexists. split; [vm_compute; reflexivity|].
  apply (bool_decide_unpack _). vm_compute. exact I.
Defined.

Lemma matches_insert name index ps i pin pin' :
  ps !! i = Some pin → name_is name pin' = name_is name pin →
  matches name index (<[i := pin']> ps) = matches name index ps.
Proof.
  revert index i. induction ps as [|p ps IH]; intros index [|i]; simpl; try done.
  - intros [= ->] ->. done.
  - intros Hi Hn. by rewrite (IH _ _ Hi Hn).
Qed.

Lemma name_is_jset name pin k x :
  k ≠ "package" → name_is name (jset pin k x) = name_is name pin.
Proof.
  intros Hk. unfold name_is. destruct pin; try done. simpl.
  by rewrite dict_get_set_ne.
Qed.

Lemma has_package_jset pin k x :
  has_package pin = true → has_package (jset pin k x) = true.
Proof.
  unfold has_package. destruct pin as [| | | | |d]; try done. simpl.
  destruct (decide (k = "package")) as [->|Hk].
  - by rewrite dict_get_set_eq.
  - by rewrite dict_get_set_ne.
Qed.

Lemma pins_of_with_pins j ps ps' :
  pins_of j = Some ps → pins_of (with_pins j ps') = Some ps'.
Proof.
  intros (jo & Hjo & Hjp)%pins_of_inv. unfold with_pins, pins_of. rewrite Hjo.
  rewrite (jget_jset_eq _ _ _ _ Hjo). simpl.
  by rewrite (jget_jset_eq _ _ _ _ Hjp).
Qed.

Lemma new_state_lookup st b r v :
  dict_get (new_state st b r v) "branch" = Some (jof b)
  ∧ dict_get (new_state st b r v) "revision" = Some (jof r)
  ∧ dict_get (new_state st b r v) "version" = Some (jof v)
  ∧ ∀ k, k ≠ "branch" → k ≠ "revision" → k ≠ "version" →
         dict_get (new_state st b r v) k = dict_get st k.
Proof.
  unfold new_state. split_and!.
  - do 2 rewrite dict_get_set_ne by done. apply dict_get_set_eq.
  - rewrite dict_get_set_ne by done. apply dict_get_set_eq.
  - apply dict_get_set_eq.
  - intros k ? ? ?. by do 3 rewrite dict_get_set_ne by done.
Qed.

Lemma new_state_triple st b r v :
  st.*1 = ["branch"; "revision"; "version"] →
  new_state st b r v = [("branch", jof b); ("revision", jof r); ("version", jof v)].
Proof.
  destruct st as [|[k1 x1] [|[k2 x2] [|[k3 x3] [|? ?]]]]; try done.
  intros [= -> -> ->]. done.
Qed.

(** C1 — [update_dependency] on a pin of the document overwrites the
    [branch], [revision] and [version] entries of its state with the values
    given, whatever they were, and a [read_dependency] that follows returns
    the state with exactly these values: a state made of the three keys
    comes back as the triple given. *)
Theorem update_then_read w self j ps name i pin st b r v :
  loaded w self j → pins_of j = Some ps →
  Forall (λ p, has_package p = true) ps →
  find_pin name ps = Some i → ps !! i = Some pin →
  jget pin "state" = Some (JDict st) →
  forallb (λ kv, hashable_json kv.2) st = true →
  ∃ w1 c w2,
    update_dependency self name b r v w = (Ok tt, w1)
    ∧ read_dependency self name w1 = (Ok c, w2)
    ∧ snapshot (store w2) c = Some (JDict (new_state st b r v))
    ∧ dict_get (new_state st b r v) "branch" = Some (jof b)
    ∧ dict_get (new_state st b r v) "revision" = Some (jof r)
    ∧ dict_get (new_state st b r v) "version" = Some (jof v)
    ∧ (∀ k, k ≠ "branch" → k ≠ "revision" → k ≠ "version" →
            dict_get (new_state st b r v) k = dict_get st k)
    ∧ (st.*1 = ["branch"; "revision"; "version"] →
       new_state st b r v
       = [("branch", jof b); ("revision", jof r); ("version", jof v)]).
Proof.
  intros (fp & Hld) Hpins Hall Hfind Hpin Hst Hhash.
  destruct (update_dependency_spec w self j fp ps name i pin st b r v
              Hld Hpins Hall Hfind Hpin Hst)
    as (w1 & fp1 & Hld1 & _ & _ & _ & _ & Hupd).
  rewrite Hhash in Hupd. destruct Hupd as [Hupd _].
  set (st' := new_state st b r v) in *.
  set (pin' := jset pin "state" (JDict st')) in *.
  pose proof (pins_of_with_pins j ps (<[i := pin']> ps) Hpins) as Hpins1.
  assert (Forall (λ p, has_package p = true) (<[i := pin']> ps)) as Hall1.
  { apply Forall_insert; [done|]. apply has_package_jset.
    rewrite Forall_forall in Hall. apply Hall. by eapply list_elem_of_lookup_2. }
  assert (find_pin name (<[i := pin']> ps) = Some i) as Hfind1.
  { unfold find_pin. rewrite (matches_insert _ _ _ _ pin); [done|done|].
    by apply name_is_jset. }
  destruct (read_dependency_spec w1 self _ fp1 _ name i pin' (JDict st')
              Hld1 Hpins1 Hall1 Hfind1)
    as (c & ext & fpc & Hread & Hb).
  { apply list_lookup_insert_eq. by eapply lookup_lt_Some. }
  { by eapply jget_jset_eq. }
  exists w1, c, (set_store w1 (store w1 ++ ext)).
  destruct (new_state_lookup st b r v) as (? & ? & ? & ?).
  split_and!; try done.
  - simpl. rewrite <-(app_nil_r ext), app_assoc. rewrite <-app_assoc.
    by eapply built_snapshot.
  - apply new_state_triple.
Qed.

Lemma update_then_read_witness :
  loaded sample_world sample_handle sample_document
  ∧ ∃ w1 c w2,
      update_dependency sample_handle "X" (Some "dogfooding") (Some "abc123") None
        sample_world = (Ok tt, w1)
      ∧ read_dependency sample_handle "X" w1 = (Ok c, w2)
      ∧ snapshot (store w2) c
        = Some (JDict [("branch", JStr "dogfooding"); ("revision", JStr "abc123");
                       ("version", JNull)]).
Proof.
  split; [exact sample_loaded|].
  destruct (update_then_read sample_world sample_handle sample_document
              [sample_pin; other_pin] "X" 0 sample_pin sample_state
              (Some "dogfooding") (Some "abc123") None)
    as (w1 & c & w2 & Hupd & Hread & Hsnap & _);
    [exact sample_loaded|reflexivity|repeat constructor|reflexivity
    |reflexivity|reflexivity|reflexivity|].
  by exists w1, c, w2.
Defined.

Lemma includes_intro (before sub after : string) : includes sub (before +:+ sub +:+ after).
Proof. by exists before, after. Qed.

Lemma string_app_assoc (a b c : string) : (a +:+ b) +:+ c = a +:+ (b +:+ c).
Proof.
  induction a as [|x a IH]; [done|].
  change (String x ((a +:+ b) +:+ c) = String x (a +:+ b +:+ c)). by rewrite IH.
Qed.

Lemma pin_not_found_includes p name :
  includes p (pin_not_found_message p name)
  ∧ includes name (pin_not_found_message p name).
Proof.
  unfold pin_not_found_message. split.
  - exists EmptyString, (" does not contain pin named " +:+ String QUOTE name
                 +:+ String QUOTE EmptyString). done.
  - exists (p +:+ " does not contain pin named " +:+ String QUOTE EmptyString),
      (String QUOTE EmptyString).
    rewrite !string_app_assoc. done.
Qed.

(** C2 — when no pin of the document has the name asked for, both
    [update_dependency] and [read_dependency] raise the exception whose
    message names the file and the package, and the world they leave is the
    world they found: the document, the files and the output are untouched. *)
Theorem pin_not_found w self j ps name :
  loaded w self j → pins_of j = Some ps →
  Forall (λ p, has_package p = true) ps →
  Forall (λ pin, name_is name pin = false) ps →
  let e := Exception (pin_not_found_message (path self) name) in
  read_dependency self name w = (Err e, w)
  ∧ (∀ b r v, update_dependency self name b r v w = (Err e, w))
  ∧ get_package self name w = (Err e, w)
  ∧ includes (path self) (pin_not_found_message (path self) name)
  ∧ includes name (pin_not_found_message (path self) name).
Proof.
  intros Hld Hpins Hall Hnone%find_pin_None e.
  destruct (not_found_spec w self j ps name Hld Hpins Hall Hnone) as (Hg & Hr & Hu).
  destruct (pin_not_found_includes (path self) name). by split_and!.
Qed.

Lemma pin_not_found_witness :
  loaded sample_world sample_handle sample_document
  ∧ read_dependency sample_handle "Z" sample_world
    = (Err (Exception (pin_not_found_message sample_path "Z")), sample_world)
  ∧ ∀ b r v, update_dependency sample_handle "Z" b r v sample_world
    = (Err (Exception (pin_not_found_message sample_path "Z")), sample_world).
Proof.
  split; [exact sample_loaded|].
  destruct (pin_not_found sample_world sample_handle sample_document
              [sample_pin; other_pin] "Z")
    as (Hread & Hupd & _);
    [exact sample_loaded|reflexivity|repeat constructor|repeat constructor|].
  by split.
Defined.

Lemma dict_set_same {A} (d : list (string * A)) k x :
  dict_get d k = Some x → dict_set d k x = d.
Proof.
  induction d as [|[k' y] d IH]; simpl; [done|].
  destruct (decide (k' = k)); [by intros [= ->]|]. intros H. by rewrite IH.
Qed.

Lemma jset_same j k x : jget j k = Some x → jset j k x = j.
Proof. destruct j; try done. simpl. intros H. by rewrite dict_set_same. Qed.

Lemma with_pins_same j ps : pins_of j = Some ps → with_pins j ps = j.
Proof.
  intros (jo & Hjo & Hjp)%pins_of_inv. unfold with_pins. rewrite Hjo.
  by rewrite (jset_same jo _ _ Hjp), (jset_same j _ _ Hjo).
Qed.

Lemma new_state_same st b r v :
  dict_get st "branch" = Some (jof b) →
  dict_get st "revision" = Some (jof r) →
  dict_get st "version" = Some (jof v) →
  new_state st b r v = st.
Proof.
  intros Hb Hr Hv. unfold new_state.
  by rewrite (dict_set_same st _ _ Hb), (dict_set_same st _ _ Hr),
    (dict_set_same st _ _ Hv).
Qed.

Lemma atom_eq_to_val x : atom_eq (to_val x) (to_val x) = true.
Proof.
  destruct x as [|b|z|s| |]; simpl; try done.
  - by apply bool_decide_eq_true.
  - apply Z.eqb_refl.
  - by apply bool_decide_eq_true.
Qed.

(** A state differs from itself by nothing. *)
Lemma xor_items_same st : xor_items (state_items st) (state_items st) = [].
Proof.
  assert (∀ l : list (string * val),
            Forall (λ kv, item_in kv (state_items st) = true) l →
            List.filter (λ kv, negb (item_in kv (state_items st))) l = []) as Hfilter.
  { induction 1 as [|kv l Hkv _ IH]; simpl; [done|]. by rewrite Hkv. }
  unfold xor_items. rewrite Hfilter; [done|].
  apply Forall_forall. intros kv Hkv. unfold item_in.
  apply existsb_exists. exists kv. split; [by apply list_elem_of_In|].
  apply andb_true_intro. split; [by apply bool_decide_eq_true|].
  apply list_elem_of_fmap in Hkv as ([k x] & -> & _). apply atom_eq_to_val.
Qed.

(** C10 — [update_dependency] on a pin of the document changes the
    [branch], [revision] and [version] entries of the state of that pin and
    nothing else.  The document it leaves is the document it found with
    these three entries set in the state of that pin: the other keys of the
    state, the other keys of the pin (its name and its repository URL among
    them), the other pins, the other keys of ['object'], the other keys of
    the document (its format version among them) and the files are as they
    were. *)
Theorem update_frame w self j ps name i pin st b r v :
  loaded w self j → pins_of j = Some ps →
  Forall (λ p, has_package p = true) ps →
  find_pin name ps = Some i → ps !! i = Some pin →
  jget pin "state" = Some (JDict st) →
  ∃ res w' j' ps' pin' st',
    update_dependency self name b r v w = (res, w')
    ∧ (forallb (λ kv, hashable_json kv.2) st = true → res = Ok tt)
    ∧ loaded w' self j'
    ∧ files w' = files w
    ∧ j' = with_pins j ps'
    ∧ ps' = <[i := pin']> ps
    ∧ pin' = jset pin "state" (JDict st')
    ∧ st' = new_state st b r v
    ∧ (∀ k, k ≠ "object" → jget j' k = jget j k)
    ∧ (∀ o, jget j "object" = Some o →
         ∃ o', jget j' "object" = Some o'
           ∧ ∀ k, k ≠ "pins" → jget o' k = jget o k)
    ∧ pins_of j' = Some ps'
    ∧ length ps' = length ps
    ∧ (∀ i', i' ≠ i → ps' !! i' = ps !! i')
    ∧ ps' !! i = Some pin'
    ∧ (∀ k, k ≠ "state" → jget pin' k = jget pin k)
    ∧ jget pin' "state" = Some (JDict st')
    ∧ dict_get st' "branch" = Some (jof b)
    ∧ dict_get st' "revision" = Some (jof r)
    ∧ dict_get st' "version" = Some (jof v)
    ∧ (∀ k, k ≠ "branch" → k ≠ "revision" → k ≠ "version" →
            dict_get st' k = dict_get st k).
Proof.
  intros (fp & Hld) Hpins Hall Hfind Hpin Hst.
  destruct (update_dependency_spec w self j fp ps name i pin st b r v
              Hld Hpins Hall Hfind Hpin Hst)
    as (w1 & fp1 & Hld1 & _ & _ & _ & Hfiles & Hupd).
  set (st' := new_state st b r v) in *.
  set (pin' := jset pin "state" (JDict st')) in *.
  destruct (new_state_lookup st b r v) as (Hb & Hr & Hv & Hother).
  exists (if forallb (λ kv, hashable_json kv.2) st then Ok tt else Err TypeError),
    w1, (with_pins j (<[i := pin']> ps)), (<[i := pin']> ps), pin', st'.
  split_and!; try done.
  - by destruct (forallb _ st); destruct Hupd.
  - by intros ->.
  - by eapply loaded_at_loaded.
  - intros k Hk. destruct (pins_of_inv _ _ Hpins) as (jo & Hjo & _).
    unfold with_pins. rewrite Hjo. destruct j; try done. simpl.
    by rewrite dict_get_set_ne.
  - intros o Ho. unfold with_pins. rewrite Ho.
    exists (jset o "pins" (JList (<[i := pin']> ps))).
    split; [by eapply jget_jset_eq|].
    intros k Hk. destruct o; try done. simpl. by rewrite dict_get_set_ne.
  - by eapply pins_of_with_pins.
  - apply length_insert.
  - intros i' Hi'. by apply list_lookup_insert_ne.
  - apply list_lookup_insert_eq. by eapply lookup_lt_Some.
  - intros k Hk. unfold pin'. destruct pin; try done. simpl.
    by rewrite dict_get_set_ne.
  - by eapply jget_jset_eq.
Qed.

Lemma update_frame_witness :
  loaded sample_world sample_handle sample_document
  ∧ ∃ w' j' ps',
      update_dependency sample_handle "X" (Some "dogfooding") (Some "abc123") None
        sample_world = (Ok tt, w')
      ∧ loaded w' sample_handle j'
      ∧ j'
        = JDict [("object",
                  JDict [("pins",
                          JList [JDict [("package", JStr "X");
                                        ("repositoryURL", JStr "https://example.com/X");
                                        ("state",
                                         JDict [("branch", JStr "dogfooding");
                                                ("revision", JStr "abc123");
                                                ("version", JNull)])];
                                 other_pin])]);
                 ("version", JInt 1)]
      ∧ jget j' "version" = Some (JInt 1)
      ∧ pins_of j' = Some ps'
      ∧ ps' !! 1 = Some other_pin.
Proof.
  split; [exact sample_loaded|].
  destruct (update_frame sample_world sample_handle sample_document
              [sample_pin; other_pin] "X" 0 sample_pin sample_state
              (Some "dogfooding") (Some "abc123") None)
    as (res & w' & j' & ps' & pin' & st' & Hupd & Hres & Hld & _ & Hj' & Hps'
        & Hpin' & Hst' & Hkeys & _ & Hpins & _ & Hothers & _);
    [exact sample_loaded|reflexivity|repeat constructor|reflexivity
    |reflexivity|reflexivity|].
  exists w', j', ps'. split_and!; try done.
  - by rewrite <-(Hres eq_refl).
  - by rewrite Hj', Hps', Hpin', Hst'.
  - by rewrite Hkeys.
  - by rewrite Hothers.
Defined.

(** An assignment [v[k] = x] is such a mutation. *)
Lemma setitem_mutated_through v k x w w' j :
  snapshot (store w) v = Some j →
  py_setitem v k x w = (Ok tt, w') → mutated_through v w w'.
Proof.
  unfold snapshot, py_setitem, mutated_through, footprint.
  destruct (snap _ _ v) as [[j' fp]|] eqn:Hs; [|done]. intros _.
  destruct v as [| | | |l]; try done.
  destruct (store w !! l) as [[d|xs]|] eqn:Hl; try done. intros [= <-]. simpl.
  rewrite length_insert. split; [done|]. intros a _ Ha.
  apply list_lookup_insert_ne. intros <-. apply Ha.
  apply snap_ref_inv in Hs as (? & ? & ? & _ & _ & _ & _ & ->).
  apply elem_of_cons. by left.
Qed.

(** C4 — [read_dependency] on a pin of the document returns a value equal
    to the state of the pin, made of objects that are no part of the
    document: the call leaves the document, the files and the output as
    they were, and whatever the caller then does to the value returned, the
    document is the same and a second [read_dependency] returns the same
    state again. *)
Theorem read_returns_independent_copy w self j ps name i pin jst :
  loaded w self j → pins_of j = Some ps →
  Forall (λ p, has_package p = true) ps →
  find_pin name ps = Some i → ps !! i = Some pin →
  jget pin "state" = Some jst →
  ∃ c w1,
    read_dependency self name w = (Ok c, w1)
    ∧ snapshot (store w1) c = Some jst
    ∧ loaded w1 self j
    ∧ files w1 = files w ∧ stdout w1 = stdout w
    ∧ (∀ a, a ∈ footprint (store w1) c → length (store w) ≤ a)
    ∧ ∀ w2, mutated_through c w1 w2 →
        loaded w2 self j
        ∧ ∃ c' w3, read_dependency self name w2 = (Ok c', w3)
            ∧ snapshot (store w3) c' = Some jst.
Proof.
  intros (fp & Hld) Hpins Hall Hfind Hpin Hst.
  destruct (read_dependency_spec w self j fp ps name i pin jst
              Hld Hpins Hall Hfind Hpin Hst)
    as (c & ext & fpc & Hread & Hb).
  set (w1 := set_store w (store w ++ ext)) in *.
  pose proof (loaded_at_extend _ _ _ _ ext Hld) as Hld1. fold w1 in Hld1.
  assert (snap (length (store w1)) (store w1) c = Some (jst, fpc)) as Hc.
  { destruct Hb as (Hs & _). specialize (Hs (length (store w1)) []).
    rewrite app_nil_r in Hs. apply Hs. simpl. rewrite length_app. lia. }
  assert (footprint (store w1) c = fpc) as Hfpc by (unfold footprint; by rewrite Hc).
  exists c, w1. split_and!; try done.
  - unfold snapshot. by rewrite Hc.
  - by eapply loaded_at_loaded.
  - rewrite Hfpc. intros a Ha. destruct Hb as (_ & _ & Hin). apply Hin in Ha. lia.
  - intros w2 (Hlen & Hagree). rewrite Hfpc in Hagree.
    assert (loaded_at w2 self j fp) as Hld2.
    { destruct Hld as [Hs Hnd]. destruct Hld1 as [Hs1 _]. split; [|done].
      eapply snap_mono; [|exact Hlen]. eapply snap_frame; [exact Hs1|].
      intros a Ha. pose proof (snap_footprint_lt _ _ _ _ _ _ Hs Ha) as Hlt.
      apply Hagree.
      - simpl. rewrite length_app. lia.
      - intros Ha'. destruct Hb as (_ & _ & Hin). apply Hin in Ha'. lia. }
    split; [by eapply loaded_at_loaded|].
    destruct (read_dependency_spec w2 self j fp ps name i pin jst
                Hld2 Hpins Hall Hfind Hpin Hst)
      as (c' & ext' & fpc' & Hread' & Hb').
    exists c', (set_store w2 (store w2 ++ ext')). split; [done|].
    simpl. rewrite <-(app_nil_r ext'), app_assoc, <-app_assoc.
    by eapply built_snapshot.
Qed.

Lemma read_returns_independent_copy_witness :
  loaded sample_world sample_handle sample_document
  ∧ ∃ c w1,
      read_dependency sample_handle "X" sample_world = (Ok c, w1)
      ∧ snapshot (store w1) c = Some (JDict sample_state)
      ∧ ∀ w2, mutated_through c w1 w2 →
          loaded w2 sample_handle sample_document
          ∧ ∃ c' w3, read_dependency sample_handle "X" w2 = (Ok c', w3)
              ∧ snapshot (store w3) c' = Some (JDict sample_state).
Proof.
  split; [exact sample_loaded|].
  destruct (read_returns_independent_copy sample_world sample_handle sample_document
              [sample_pin; other_pin] "X" 0 sample_pin (JDict sample_state))
    as (c & w1 & Hread & Hsnap & _ & _ & _ & _ & Hmut);
    [exact sample_loaded|reflexivity|repeat constructor|reflexivity
    |reflexivity|reflexivity|].
  by exists c, w1.
Defined.

Lemma matches_first name index ps i pin :
  ps !! i = Some pin → name_is name pin = true →
  (∀ i' pin', i' < i → ps !! i' = Some pin' → name_is name pin' = false) →
  head (matches name index ps) = Some (index + i).
Proof.
  revert index i. induction ps as [|p ps IH]; intros index [|i]; simpl; try done.
  - intros [= ->] -> _. simpl. f_equal. lia.
  - intros Hi Hname Hfirst. rewrite (Hfirst 0 p) by (done || lia).
    rewrite (IH (S index) i); [f_equal; lia|done|done|].
    intros i' pin' Hlt. apply (Hfirst (S i')). lia.
Qed.

Lemma find_pin_first name ps i pin :
  ps !! i = Some pin → name_is name pin = true →
  (∀ i' pin', i' < i → ps !! i' = Some pin' → name_is name pin' = false) →
  find_pin name ps = Some i.
Proof. intros. unfold find_pin. by erewrite matches_first. Qed.

(** [v[k] = x] through a reference to a dict of the document. *)
Lemma setitem_at w self j fp p l d k x jx :
  loaded_at w self j fp →
  walk (store w) (packages self) p = Some (VRef l) →
  jat j p = Some (JDict d) → val_of jx = Some x →
  ∃ w' fp',
    py_setitem (VRef l) k x w = (Ok tt, w')
    ∧ loaded_at w' self (jput j p (JDict (dict_set d k jx))) fp'.
Proof.
  intros (Hs & Hnd) Hw Hat Hx.
  destruct (snap_walk _ _ _ _ _ _ _ Hs Hw) as (jc & fpc & Hat' & Hsc & _ & Hndc).
  specialize (Hndc Hnd). simplify_eq.
  destruct (snap_dict_inv _ _ _ _ _ Hsc) as (m & l' & d0 & rs & Hm & [= <-] & Hl & _).
  destruct (snap_setitem _ _ _ _ _ _ k x jx Hsc Hndc Hl Hx) as (fpc' & Hsc' & Hsub & Hnd').
  set (h' := <[l := ODict (dict_set d0 k x)]> (store w)) in *.
  assert (∀ a, a ∉ fpc → h' !! a = store w !! a) as Hagree.
  { intros a Ha. apply list_lookup_insert_ne. intros <-. apply Ha.
    apply snap_ref_inv in Hsc as (? & ? & ? & _ & _ & _ & _ & ->).
    apply elem_of_cons. by left. }
  destruct (snap_put p _ _ h' _ _ _ _ _ _ _ _ Hs Hnd Hw Hsc Hagree Hsc' Hsub Hnd')
    as (fp' & Hs' & _ & Hndfp' & _).
  exists (set_store w h'), fp'. split.
  - unfold py_setitem. by rewrite Hl.
  - split; [|done]. simpl. unfold h' at 1. by rewrite length_insert.
Qed.

(** C8 — [__get_package] scans the pins in order and answers with the pin
    at the lowest index that has the name, so with two pins of one name the
    first is found.  What it returns is the very element the pins list of
    the document holds at that index, not a copy: an assignment through it
    is an assignment to the pin of the document. *)
Theorem get_package_first_match_by_reference w self j ps name i pin :
  loaded w self j → pins_of j = Some ps →
  Forall (λ p, has_package p = true) ps →
  ps !! i = Some pin → name_is name pin = true →
  (∀ i' pin', i' < i → ps !! i' = Some pin' → name_is name pin' = false) →
  ∃ l,
    get_package self name w = (Ok (VRef l), w)
    ∧ pin_ref self i (store w) = Ok (VRef l)
    ∧ snapshot (store w) (VRef l) = Some pin
    ∧ ∀ k x jx, val_of jx = Some x →
        ∃ w', py_setitem (VRef l) k x w = (Ok tt, w')
          ∧ loaded w' self (with_pins j (<[i := jset pin k jx]> ps)).
Proof.
  intros Hld Hpins Hall Hpin Hname Hfirst.
  pose proof (find_pin_first name ps i pin Hpin Hname Hfirst) as Hfind.
  pose proof (get_package_spec w self j ps name Hld Hpins Hall) as Hgp.
  rewrite Hfind in Hgp.
  destruct Hgp as (l & p & pin0 & fpp & Hget & Hpin0 & Hw & Hat & Hsp & Hput & Href).
  simplify_eq. exists l. split_and!; [done|done| |].
  - unfold snapshot. by rewrite (snap_mono _ (length (store w)) _ _ _ Hsp) by lia.
  - intros k x jx Hx. destruct Hld as (fp & Hld).
    assert (∃ d, pin = JDict d) as [d ->].
    { rewrite Forall_forall in Hall.
      specialize (Hall pin (list_elem_of_lookup_2 _ _ _ Hpin)).
      unfold has_package in Hall. destruct pin; try done. by eexists. }
    destruct (setitem_at w self j fp p l d k x jx Hld Hw Hat Hx) as (w' & fp' & Hset & Hld').
    exists w'. split; [done|]. exists fp'.
    rewrite <-(app_nil_r p), Hput in Hld'. done.
Qed.

Lemma twin_loaded : loaded twin_world twin_handle twin_document.
Proof.
  eexists. split; [vm_compute; reflexivity|].
  apply (bool_decide_unpack _). vm_compute. exact I.
Defined.

Lemma get_package_first_match_by_reference_witness :
  loaded twin_world twin_handle twin_document
  ∧ ∃ l, get_package twin_handle "X" twin_world = (Ok (VRef l), twin_world)
      ∧ pin_ref twin_handle 1 (store twin_world) = Ok (VRef l)
      ∧ snapshot (store twin_world) (VRef l) = Some (twin_pin "first").
Proof.
  split; [exact twin_loaded|].
  destruct (get_package_first_match_by_reference twin_world twin_handle twin_document
              [other_pin; twin_pin "first"; twin_pin "second"] "X" 1 (twin_pin "first"))
    as (l & Hget & Href & Hsnap & _);
    [exact twin_loaded|reflexivity|repeat constructor|reflexivity|reflexivity| |].
  - intros [|i'] pin' Hlt; [|lia]. by intros [= <-].
  - by exists l.
Defined.

(** ** Whatever the outcome *)

(** When the comprehension of [__get_package] runs to its end, every pin
    has a ['package']. *)
Lemma matching_Ok_inv n h name xs rs index l :
  Forall2 (λ x r, snap n h x = Some r) xs rs →
  matching name index xs h = Ok l →
  Forall (λ p, has_package p = true) rs.*1.
Proof.
  intros Hrs. revert index l.
  induction Hrs as [|x [p fp] xs rs Hx _ IH]; intros index l; csimpl; [constructor|].
  destruct (py_getitem x "package" h) as [vn|] eqn:Hg; [|done]. csimpl.
  destruct (matching name (S index) xs h) as [rest|] eqn:Hm; [|done]. intros _.
  constructor; [|by eapply IH].
  unfold py_getitem in Hg. destruct x as [| | | |lx]; try done.
  destruct (h !! lx) as [[d|?]|] eqn:Hl; try done.
  destruct (dict_get d "package") as [y|] eqn:Hd; [|done].
  apply snap_ref_inv in Hx as (n' & o & rs' & -> & Hl' & Hrs' & -> & _).
  simplify_eq. unfold has_package. simpl.
  rewrite dict_get_index in Hd. rewrite dict_get_index.
  apply Forall2_length in Hrs'. simpl in Hrs'. rewrite !length_fmap in Hrs'.
  rewrite fst_zip by (rewrite !length_fmap; lia).
  destruct (key_index d.*1 "package") as [i|] eqn:Hi; [|done]. simpl in *.
  rewrite snd_zip by (rewrite !length_fmap; lia).
  apply lookup_lt_Some in Hd. rewrite length_fmap in Hd.
  destruct (rs'.*1 !! i) eqn:Hr; [done|].
  apply lookup_ge_None in Hr. rewrite length_fmap in Hr. lia.
Qed.

(** [__get_package] either raises, leaving the world as it is, or every pin
    has a ['package'] and one of them the name. *)
Lemma get_package_cases w self j ps name :
  loaded w self j → pins_of j = Some ps →
  (∃ e, get_package self name w = (Err e, w))
  ∨ (Forall (λ p, has_package p = true) ps ∧ ∃ i, find_pin name ps = Some i).
Proof.
  intros Hld Hpins.
  destruct (decide (Forall (λ p, has_package p = true) ps)) as [Hall|Hnot].
  - pose proof (get_package_spec w self j ps name Hld Hpins Hall) as Hgp.
    destruct (find_pin name ps) as [i|]; [right|left]; eauto.
  - left. destruct Hld as (fp & Hs & _).
    destruct (pins_of_inv _ _ Hpins) as (jo & Hjo & Hjp).
    destruct (getitem_snap _ _ _ _ _ _ _ Hs Hjo) as (i1 & vo & fpo & Hgo & _ & _ & Hso & _).
    destruct (getitem_snap _ _ _ _ _ _ _ Hso Hjp) as (i2 & vp & fpp & Hgp & _ & _ & Hsp & _).
    destruct (snap_list_inv _ _ _ _ _ Hsp)
      as (n' & lp & xs & rs & Hn & -> & Hlp & Hrs & -> & _).
    unfold get_package.
    rewrite (lift_ok _ _ _ _ Hgo), (lift_ok _ _ _ _ Hgp).
    rewrite (lift_ok (py_iter (VRef lp)) _ w xs) by (simpl; by rewrite Hlp).
    destruct (matching name 0 xs (store w)) as [l|e] eqn:Hm.
    + exfalso. apply Hnot. by eapply matching_Ok_inv.
    + exists e. by apply lift_err.
Qed.

Lemma setitem_not_dict w v k x jst fp n :
  snap n (store w) v = Some (jst, fp) → (∀ d, jst ≠ JDict d) →
  py_setitem v k x w = (Err TypeError, w).
Proof.
  intros Hs Hnd. unfold py_setitem. destruct v as [| | | |l]; try done.
  apply snap_ref_inv in Hs as (n' & o & rs & -> & -> & _ & -> & _).
  destruct o; [|done]. by edestruct Hnd.
Qed.

(** [update_dependency], with whatever outcome, leaves a loaded document
    with as many pins as before. *)
Lemma update_dependency_any w self j ps name b r v :
  loaded w self j → pins_of j = Some ps →
  ∃ j' ps', loaded (update_dependency self name b r v w).2 self j'
    ∧ pins_of j' = Some ps' ∧ length ps' = length ps.
Proof.
  intros Hld Hpins.
  destruct (get_package_cases w self j ps name Hld Hpins) as [[e He]|(Hall & i & Hfind)].
  { exists j, ps. unfold update_dependency. by rewrite (bind_err _ _ _ _ _ He). }
  destruct (find_pin_Some _ _ _ Hfind) as (pin & Hpin & _).
  pose proof Hld as (fp & Hlda).
  destruct (jget pin "state") as [jst|] eqn:Hst; last first.
  { (* package['state'] raises KeyError *)
    pose proof (get_package_spec w self j ps name Hld Hpins Hall) as Hgp.
    rewrite Hfind in Hgp.
    destruct Hgp as (l & p & pin0 & fpp & Hget & Hpin0 & _ & _ & Hsp & _).
    simplify_eq. exists j, ps. unfold update_dependency.
    rewrite (bind_ok _ _ _ _ _ Hget).
    assert (∃ d, pin = JDict d) as [d ->].
    { rewrite Forall_forall in Hall.
      specialize (Hall pin (list_elem_of_lookup_2 _ _ _ Hpin)).
      unfold has_package in Hall. destruct pin; try done. by eexists. }
    by rewrite (lift_err _ _ _ _ (getitem_KeyError _ _ _ _ _ _ Hsp Hst)). }
  assert ((∃ st, jst = JDict st) ∨ ¬ ∃ st, jst = JDict st) as [[st ->]|Hnd].
  { destruct jst; try (right; by intros [? ?]). left. by eexists. }
  - destruct (update_dependency_spec w self j fp ps name i pin st b r v
                Hlda Hpins Hall Hfind Hpin Hst)
      as (w1 & fp1 & Hld1 & _ & _ & _ & _ & Hupd).
    eexists _, _. split_and!; [|by eapply pins_of_with_pins|apply length_insert].
    destruct (forallb _ st); destruct Hupd as [-> _]; by eapply loaded_at_loaded.
  - (* the state is not a dict: the first assignment raises TypeError *)
    pose proof (get_package_spec w self j ps name Hld Hpins Hall) as Hgp.
    rewrite Hfind in Hgp.
    destruct Hgp as (l & p & pin0 & fpp & Hget & Hpin0 & Hw & Hat & Hsp & _).
    simplify_eq.
    destruct (copy_state _ _ _ _ _ _ _ _ Hlda Hw Hat Hst)
      as (vs & c & ext & fpc & Hg & Hcopy & Hb).
    destruct (getitem_snap _ _ _ _ _ _ _ Hsp Hst) as (? & vs' & fps & Hg' & _ & _ & Hss & _).
    simplify_eq.
    exists j, ps. unfold update_dependency.
    rewrite (bind_ok _ _ _ _ _ Hget), (lift_ok _ _ _ _ Hg), (bind_ok _ _ _ _ _ Hcopy).
    erewrite lift_ok by (by apply getitem_extend).
    erewrite bind_err; last first.
    { eapply setitem_not_dict; [by apply snap_extend|]. intros d ->. apply Hnd. eauto. }
    split; [|done]. eapply loaded_at_loaded. by apply loaded_at_extend.
Qed.

(** [read_dependency], with whatever outcome, leaves the document as it
    was. *)
Lemma read_dependency_any w self j ps name :
  loaded w self j → pins_of j = Some ps →
  loaded (read_dependency self name w).2 self j.
Proof.
  intros Hld Hpins.
  destruct (get_package_cases w self j ps name Hld Hpins) as [[e He]|(Hall & i & Hfind)].
  { unfold read_dependency. by rewrite (bind_err _ _ _ _ _ He). }
  destruct (find_pin_Some _ _ _ Hfind) as (pin & Hpin & _).
  pose proof Hld as (fp & Hlda).
  destruct (jget pin "state") as [jst|] eqn:Hst.
  - destruct (read_dependency_spec w self j fp ps name i pin jst
                Hlda Hpins Hall Hfind Hpin Hst) as (c & ext & fpc & -> & _).
    eapply loaded_at_loaded. by apply loaded_at_extend.
  - pose proof (get_package_spec w self j ps name Hld Hpins Hall) as Hgp.
    rewrite Hfind in Hgp.
    destruct Hgp as (l & p & pin0 & fpp & Hget & Hpin0 & _ & _ & Hsp & _).
    simplify_eq. unfold read_dependency. rewrite (bind_ok _ _ _ _ _ Hget).
    assert (∃ d, pin = JDict d) as [d ->].
    { rewrite Forall_forall in Hall.
      specialize (Hall pin (list_elem_of_lookup_2 _ _ _ Hpin)).
      unfold has_package in Hall. destruct pin; try done. by eexists. }
    by rewrite (lift_err _ _ _ _ (getitem_KeyError _ _ _ _ _ _ Hsp Hst)).
Qed.

(** C9 — once a document is loaded, [get_number_of_dependencies] returns
    the length of its pins list, and goes on returning that number after
    any sequence of [update_dependency], [read_dependency],
    [get_number_of_dependencies] and [save], whether they succeed or raise:
    no operation adds or removes a pin. *)
Theorem pin_count_invariant w self j ps (ops : list operation) :
  loaded w self j → pins_of j = Some ps →
  get_number_of_dependencies self w = (Ok (length ps), w)
  ∧ ∃ j' ps',
      loaded (foldl (after self) w ops) self j'
      ∧ pins_of j' = Some ps'
      ∧ length ps' = length ps
      ∧ get_number_of_dependencies self (foldl (after self) w ops)
        = (Ok (length ps), foldl (after self) w ops).
Proof.
  intros Hld Hpins.
  split; [by eapply get_number_of_dependencies_spec|].
  revert w j ps Hld Hpins. induction ops as [|o ops IH]; intros w j ps Hld Hpins.
  - exists j, ps. split_and!; try done. by eapply get_number_of_dependencies_spec.
  - simpl.
    assert (∃ j1 ps1, loaded (after self w o) self j1
              ∧ pins_of j1 = Some ps1 ∧ length ps1 = length ps)
      as (j1 & ps1 & Hld1 & Hpins1 & Hlen1).
    { destruct o as [name b r v|name| |]; simpl.
      - by eapply update_dependency_any.
      - exists j, ps. split_and!; try done. by eapply read_dependency_any.
      - exists j, ps. by rewrite (get_number_of_dependencies_spec _ _ _ _ Hld Hpins).
      - exists j, ps. rewrite (save_spec _ _ _ Hld). by split_and!. }
    destruct (IH _ _ _ Hld1 Hpins1) as (j' & ps' & ? & ? & ? & ?).
    exists j', ps'. rewrite <-Hlen1. by split_and!; try congruence.
Qed.

Lemma pin_count_invariant_witness :
  loaded sample_world sample_handle sample_document
  ∧ get_number_of_dependencies sample_handle sample_world = (Ok 2, sample_world)
  ∧ let w := foldl (after sample_handle) sample_world
               [UpdateDependency "X" (Some "dogfooding") (Some "abc123") None;
                ReadDependency "Y"; UpdateDependency "Z" None None None; Save] in
    get_number_of_dependencies sample_handle w = (Ok 2, w).
Proof.
  split; [exact sample_loaded|].
  destruct (pin_count_invariant sample_world sample_handle sample_document
              [sample_pin; other_pin]
              [UpdateDependency "X" (Some "dogfooding") (Some "abc123") None;
               ReadDependency "Y"; UpdateDependency "Z" None None None; Save])
    as (Hcount & j' & ps' & _ & _ & _ & Hafter);
    [exact sample_loaded|reflexivity|].
  by split.
Defined.

(** ** Indentation *)

Lemma code_step_plain depth c :
  plain c = true → code_step depth c = Some (depth, Code).
Proof.
  unfold plain, code_step. intros Hc. apply negb_true_iff in Hc.
  rewrite !orb_false_iff in Hc. by destruct Hc as [[[[-> ->] ->] ->] ->].
Qed.

Lemma indented_plain depth cs rest :
  Forall (λ c, plain c = true) cs →
  indented depth Code (cs ++ rest) = indented depth Code rest.
Proof.
  induction 1 as [|c cs Hc _ IH]; [done|].
  cbn [app indented]. by rewrite (code_step_plain depth c Hc).
Qed.

Lemma is_digit_plain c : is_digit c = true → plain c = true.
Proof.
  unfold is_digit, plain, is_open, is_close, ch.
  intros [H1%N.leb_le H2%N.leb_le]%andb_prop.
  apply negb_true_iff. rewrite !orb_false_iff.
  split_and!; apply N.eqb_neq; lia.
Qed.

Lemma int_repr_plain z : Forall (λ c, plain c = true) (int_repr z).
Proof.
  assert (∀ n, Forall (λ c, plain c = true) (digits n)) as Hdigits.
  { intros n. destruct (digits_spec n) as (ds & -> & Hall & _).
    eapply Forall_impl; [done|]. apply is_digit_plain. }
  unfold int_repr. destruct (Z.ltb z 0); [constructor; [done|]|]; apply Hdigits.
Qed.

Lemma indented_escape_char depth c rest :
  indented depth InString (escape_char c ++ rest) = indented depth InString rest.
Proof. destruct c as [[] [] [] [] [] [] [] []]; reflexivity. Qed.

Lemma indented_string depth s rest :
  indented depth Code (encode_basestring_ascii s ++ rest) = indented depth Code rest.
Proof.
  unfold encode_basestring_ascii. rewrite <-app_comm_cons, <-app_assoc.
  change (indented depth InString (mjoin (escape_char <$> list_ascii_of_string s)
                                     ++ QUOTE :: rest) = indented depth Code rest).
  induction (list_ascii_of_string s) as [|c cs IH]; [done|]. csimpl.
  by rewrite <-app_assoc, indented_escape_char.
Qed.

(** The spaces at the start of a line are counted. *)
Lemma margin_spaces depth k : ∀ n s,
  indented depth (Margin n) (replicate k SPACE ++ s)
  = indented depth (Margin (n + k)) s.
Proof.
  induction k as [|k IH]; intros n s.
  - by rewrite Nat.add_0_r.
  - cbn [replicate app indented].
    change (ch SPACE 32) with true. cbn match. rewrite IH. f_equal. f_equal. lia.
Qed.

(** A line that starts with a value. *)
Lemma margin_value depth n c s :
  is_ws c = false → is_close c = false →
  indented depth (Margin n) (c :: s)
  = Nat.eqb n (2 * depth) && indented depth Code (c :: s).
Proof.
  intros Hws Hclose.
  assert (ch c 32 = false) as Hsp.
  { unfold is_ws in Hws. rewrite !orb_false_iff in Hws. by destruct Hws as [[[? ?] ?] ?]. }
  cbn [indented]. by rewrite Hsp, Hclose.
Qed.

(** A line that starts with a closing bracket. *)
Lemma margin_close depth c s :
  is_close c = true →
  indented (S depth) (Margin (2 * depth)) (c :: s) = indented depth Code s.
Proof.
  intros Hclose.
  assert (ch c 32 = false) as Hsp.
  { unfold is_close in Hclose. apply orb_prop in Hclose as [->%ch_eq| ->%ch_eq]; done. }
  cbn [indented pred]. rewrite Hsp, Hclose.
  change (Nat.ltb 0 (S depth)) with true. by rewrite Nat.eqb_refl.
Qed.

(** The line break and the indentation that follow an opening bracket. *)
Lemma opened_newline depth c s :
  is_ws c = false → is_close c = false →
  indented depth Opened (newline_indent depth ++ c :: s)
  = indented depth Code (c :: s).
Proof.
  intros Hws Hclose. unfold newline_indent.
  change (indented depth (Margin 0) (replicate (2 * depth) SPACE ++ c :: s)
          = indented depth Code (c :: s)).
  rewrite margin_spaces, margin_value by done.
  by rewrite Nat.add_0_l, Nat.eqb_refl.
Qed.

(** The comma, the line break and the indentation between two items. *)
Lemma indented_separator depth c s :
  is_ws c = false → is_close c = false →
  indented depth Code (item_separator depth ++ c :: s)
  = indented depth Code (c :: s).
Proof.
  intros Hws Hclose. unfold item_separator, newline_indent.
  change (indented depth (Margin 0) (replicate (2 * depth) SPACE ++ c :: s)
          = indented depth Code (c :: s)).
  rewrite margin_spaces, margin_value by done.
  by rewrite Nat.add_0_l, Nat.eqb_refl.
Qed.

(** The line break, the indentation and the closing bracket that end a
    list or an object. *)
Lemma indented_newline_close depth c s :
  is_close c = true →
  indented (S depth) Code (newline_indent depth ++ c :: s)
  = indented depth Code s.
Proof.
  intros Hclose. unfold newline_indent.
  change (indented (S depth) (Margin 0) (replicate (2 * depth) SPACE ++ c :: s)
          = indented depth Code s).
  rewrite margin_spaces, Nat.add_0_l. by apply margin_close.
Qed.

Lemma indented_join level (chunks : list text) rest :
  Forall (λ t, (∃ c t', t = c :: t' ∧ is_ws c = false ∧ is_close c = false)
               ∧ ∀ s, indented level Code (t ++ s) = indented level Code s) chunks →
  indented level Code
    (mjoin ((λ x, item_separator level ++ x) <$> chunks) ++ rest)
  = indented level Code rest.
Proof.
  induction 1 as [|t chunks [(c & t' & -> & Hws & Hcl) Ht] _ IH]; [done|].
  rewrite fmap_cons.
  change (mjoin ((item_separator level ++ c :: t') :: ?l))
    with ((item_separator level ++ c :: t') ++ mjoin l).
  rewrite <-!app_assoc, <-app_comm_cons, indented_separator by done.
  rewrite app_comm_cons, Ht. apply IH.
Qed.

(** The encoder lays a value out with an indentation of two spaces. *)
Lemma encode_indented j : ∀ level, transparent level j.
Proof.
  induction j as [|b|z|s|js IH|d IH] using json_ind; intros level rest.
  - done.
  - by destruct b.
  - apply indented_plain, int_repr_plain.
  - apply indented_string.
  - destruct js as [|j js]; [done|].
    cbn [encode]. rewrite <-app_comm_cons.
    change (indented (S level) Opened
              ((newline_indent (S level)
                  ++ join (item_separator (S level)) (encode false (S level) <$> j :: js)
                  ++ newline_indent level ++ ["]"%char]) ++ rest)
            = indented level Code rest).
    rewrite <-!app_assoc, fmap_cons, join_cons, <-!app_assoc.
    destruct (encode_head false (S level) j) as (c & t & Hc & Hws & H93 & H125).
    rewrite Hc, <-app_comm_cons, opened_newline
      by (done || (unfold is_close; by rewrite H93, H125)).
    rewrite app_comm_cons, <-Hc.
    apply Forall_cons in IH as [Hj Hjs]. rewrite (Hj (S level)).
    rewrite indented_join.
    + by apply indented_newline_close.
    + apply Forall_fmap. eapply Forall_impl; [done|]. intros x Hx. split.
      * destruct (encode_head false (S level) x) as (c' & t' & -> & ? & H1 & H2).
        exists c', t'. split_and!; try done. unfold is_close. by rewrite H1, H2.
      * apply Hx.
  - destruct d as [|kv d]; [done|].
    cbn [encode]. rewrite <-app_comm_cons, <-list_fmap_compose.
    change (encode_item ∘ _) with (plain_item (S level)).
    change (indented (S level) Opened
              ((newline_indent (S level)
                  ++ join (item_separator (S level)) (plain_item (S level) <$> kv :: d)
                  ++ newline_indent level ++ ["}"%char]) ++ rest)
            = indented level Code rest).
    assert (∀ x : string * json, transparent (S level) x.2 →
              (∃ c t', plain_item (S level) x = c :: t'
                 ∧ is_ws c = false ∧ is_close c = false)
              ∧ ∀ s, indented (S level) Code (plain_item (S level) x ++ s)
                     = indented (S level) Code s) as Hitem.
    { intros x Hx. split; [by eexists _, _|]. intros s.
      unfold plain_item, encode_item. cbn [fst snd].
      rewrite <-!app_assoc, indented_string. unfold key_separator.
      change (indented (S level) Code (encode false (S level) x.2 ++ s)
              = indented (S level) Code s). apply Hx. }
    rewrite <-!app_assoc, fmap_cons, join_cons, <-!app_assoc.
    apply Forall_cons in IH as [Hkv Hd].
    destruct (Hitem kv (Hkv (S level))) as [(c & t & Hc & Hws & Hcl) Hpass].
    rewrite Hc, <-app_comm_cons, opened_newline by done.
    rewrite app_comm_cons, <-Hc, Hpass, indented_join.
    + by apply indented_newline_close.
    + apply Forall_fmap. eapply Forall_impl; [done|]. intros x Hx. apply Hitem, Hx.
Qed.

(** Texts that are not laid out so: on one line, and with four spaces. *)
Lemma one_line_not_indented : indented 0 Code (txt "[1,2]") = false.
Proof. reflexivity. Qed.

Lemma four_spaces_not_indented :
  indented 0 Code
    ("["%char :: NEWLINE :: txt "    1" ++ NEWLINE :: txt "]" ++ [NEWLINE]) = false.
Proof. reflexivity. Qed.

Lemma two_spaces_indented :
  indented 0 Code
    ("["%char :: NEWLINE :: txt "  1" ++ NEWLINE :: txt "]" ++ [NEWLINE]) = true.
Proof. reflexivity. Qed.

(** The encoding of a value does not end with a line break. *)
Lemma encode_last sort level j :
  ∃ t c, encode sort level j = t ++ [c] ∧ ch c 10 = false.
Proof.
  destruct j as [|[]|z|s|[|j js]|[|kv d]]; cbn [encode].
  - by exists (txt "nul"), "l"%char.
  - by exists (txt "tru"), "e"%char.
  - by exists (txt "fals"), "e"%char.
  - assert (∀ n, ∃ t c, digits n = t ++ [c] ∧ ch c 10 = false) as Hdigits.
    { intros n. destruct (digits_spec n) as (ds & -> & Hall & _ & Hne).
      destruct ds as [|c ds _] using rev_ind; [done|].
      exists ds, c. split; [done|]. apply Forall_app in Hall as [_ [Hc _]%Forall_cons].
      apply is_digit_plain in Hc. unfold plain in Hc. apply negb_true_iff in Hc.
      rewrite !orb_false_iff in Hc. by destruct Hc as [_ ?]. }
    unfold int_repr. destruct (Z.ltb z 0).
    + destruct (Hdigits (Z.abs_N z)) as (t & c & -> & ?). by exists ("-"%char :: t), c.
    + apply Hdigits.
  - unfold encode_basestring_ascii. by eexists (QUOTE :: _), QUOTE.
  - by exists ["["%char], "]"%char.
  - eexists ("["%char :: _), "]"%char. split; [|done].
    by rewrite app_comm_cons, !app_assoc.
  - by exists ["{"%char], "}"%char.
  - eexists ("{"%char :: _), "}"%char. split; [|done].
    by rewrite app_comm_cons, !app_assoc.
Qed.

(** ** Saving *)

Lemma same_content_canon j : unique_keys j = true → same_content j (canon j).
Proof.
  induction j as [|b|z|s|js IH|d IH] using json_ind; intros Hu;
    try by constructor.
  - cbn [canon]. constructor. cbn [unique_keys] in Hu.
    apply forallb_Forall in Hu.
    induction IH as [|j js Hj _ IHjs]; csimpl; [constructor|].
    apply Forall_cons in Hu as [? ?]. constructor; auto.
  - cbn [canon]. constructor; [symmetry; apply canon_keys|].
    intros k.
    change (option_Forall2 same_content (jget (JDict d) k) (jget (canon (JDict d)) k)).
    rewrite jget_canon by done.
    destruct (jget (JDict d) k) as [x|] eqn:Hx; constructor.
    cbn [unique_keys] in Hu. apply andb_prop in Hu as [Hnd Hu].
    apply bool_decide_eq_true in Hnd. apply forallb_Forall in Hu.
    apply dict_get_elem in Hx; [|done].
    rewrite Forall_forall in IH, Hu.
    apply (IH _ Hx), (Hu _ Hx).
Qed.

Lemma indented_encode j :
  indented 0 Code (encode false 0 j ++ [NEWLINE]) = true.
Proof. by rewrite encode_indented. Qed.

Lemma unsorted_loaded : loaded unsorted_world unsorted_handle unsorted_document.
Proof.
  eexists. split; [vm_compute; reflexivity|].
  apply (bool_decide_unpack _). vm_compute. exact I.
Defined.

(** C6 — [save] writes to the path of the handle the whole document and
    nothing else: the text [json.dump] yields, followed by one line break.
    Read back, that text is the document with the keys of every dict in
    sorted order (so the same content, and every list, the pins among them,
    in the order it has in memory).  The text is laid out with an
    indentation of two spaces: every opening bracket of a list or object
    that is not empty and every comma between two items is followed by a
    line break, every line starts with two spaces per bracket open, and a
    closing bracket comes first on a line of its own.  The payload does not
    itself end with a line break.  The document in memory is as it was. *)
Theorem save_writes_canonical_text w self j :
  loaded w self j → unique_keys j = true →
  ∃ payload,
    save self w
    = (Ok tt, World (store w) (<[path self := payload ++ [NEWLINE]]> (files w))
                (stdout w ++ [Saving (path self)]))
    ∧ payload = encode true 0 j
    ∧ payload = encode false 0 (canon j)
    ∧ json_loads (payload ++ [NEWLINE]) = Ok (canon j)
    ∧ same_content j (canon j)
    ∧ keys_sorted (canon j) = true
    ∧ (∀ ps, pins_of j = Some ps → pins_of (canon j) = Some (canon <$> ps))
    ∧ indented 0 Code (payload ++ [NEWLINE]) = true
    ∧ (∃ t c, payload = t ++ [c] ∧ c ≠ NEWLINE).
Proof.
  intros Hld Hu. exists (encode true 0 j).
  split_and!.
  - by apply save_spec.
  - done.
  - apply encode_sorted.
  - rewrite encode_sorted. by apply json_loads_encode, unique_keys_canon.
  - by apply same_content_canon.
  - by apply keys_sorted_canon.
  - intros ps. by apply pins_of_canon.
  - rewrite encode_sorted. apply indented_encode.
  - destruct (encode_last true 0 j) as (t & c & -> & Hc).
    exists t, c. split; [done|]. by intros ->.
Qed.

Lemma save_writes_canonical_text_witness :
  loaded unsorted_world unsorted_handle unsorted_document
  ∧ unique_keys unsorted_document = true
  ∧ canon unsorted_document = sample_document
  ∧ ∃ payload,
      save unsorted_handle unsorted_world
      = (Ok tt, World (store unsorted_world)
                  (<[sample_path := payload ++ [NEWLINE]]> ∅) [Saving sample_path])
      ∧ json_loads (payload ++ [NEWLINE]) = Ok sample_document
      ∧ indented 0 Code (payload ++ [NEWLINE]) = true.
Proof.
  split; [exact unsorted_loaded|]. split; [reflexivity|]. split; [reflexivity|].
  destruct (save_writes_canonical_text unsorted_world unsorted_handle
              unsorted_document)
    as (payload & Hsave & _ & _ & Hloads & _ & _ & _ & Hind & _);
    [exact unsorted_loaded|reflexivity|].
  exists payload. by split_and!.
Defined.

(** ** Construction *)

Lemma unsupported_includes p found :
  includes p (unsupported_message p found)
  ∧ includes found (unsupported_message p found)
  ∧ includes (string_of_list_ascii (int_repr SUPPORTED_PACKAGE_RESOLVED_VERSION))
      (unsupported_message p found).
Proof.
  unfold unsupported_message. split_and!.
  - eexists EmptyString, _. done.
  - eexists (p +:+ " uses version "), _. by rewrite !string_app_assoc.
  - eexists (p +:+ " uses version " +:+ found
               +:+ " but `package_resolved.py` supports " +:+ "version "), _.
    by rewrite !string_app_assoc.
Qed.

Lemma init_result_unsupported p self j msg :
  init_result p self j = Err (Exception msg) ↔
  ∃ ver, jget j "version" = Some ver
         ∧ jne_int ver SUPPORTED_PACKAGE_RESOLVED_VERSION = true
         ∧ msg = unsupported_message p (py_str ver).
Proof.
  unfold init_result. destruct j as [| | | | |d]; cbn [jget];
    try (split; [done|by intros (? & ? & _)]).
  destruct (dict_get d "version") as [ver|]; [|split; [done|by intros (? & ? & _)]].
  destruct (jne_int ver SUPPORTED_PACKAGE_RESOLVED_VERSION) eqn:Hne; split.
  - intros [= <-]. by exists ver.
  - intros (? & [= <-] & _ & ->). done.
  - done.
  - intros (? & [= <-] & ? & _). congruence.
Qed.

(** C3 — constructing a handle on a file that holds a JSON document raises
    the exception for an unsupported format exactly when the document has a
    ['version'] and that version is not equal to 1, as Python's [!=] has it
    (on an integer version: when the integer is not 1).  The message names
    the path, the version found and the version supported.  No handle is
    returned then; otherwise the handle returned holds the whole document
    under the path given. *)
Theorem unsupported_format w p content j :
  files w !! p = Some content → json_loads content = Ok j →
  ((∃ msg, (init p w).1 = Err (Exception msg))
   ↔ ∃ ver, jget j "version" = Some ver
            ∧ jne_int ver SUPPORTED_PACKAGE_RESOLVED_VERSION = true)
  ∧ (∀ z, jget j "version" = Some (JInt z) →
       (∃ msg, (init p w).1 = Err (Exception msg)) ↔ z ≠ 1%Z)
  ∧ (∀ ver, jget j "version" = Some ver →
       if jne_int ver SUPPORTED_PACKAGE_RESOLVED_VERSION then
         (init p w).1 = Err (Exception (unsupported_message p (py_str ver)))
         ∧ includes p (unsupported_message p (py_str ver))
         ∧ includes (py_str ver) (unsupported_message p (py_str ver))
         ∧ includes "1" (unsupported_message p (py_str ver))
       else
         ∃ self, (init p w).1 = Ok self ∧ path self = p
                 ∧ loaded (init p w).2 self j).
Proof.
  intros Hfile Hloads.
  destruct (init_spec w p content j Hfile Hloads)
    as (self & ext & fp & Hpath & _ & Hld & Hinit).
  cbv zeta in Hld, Hinit. rewrite Hinit. cbn [fst snd].
  assert ((∃ msg, init_result p self j = Err (Exception msg))
          ↔ ∃ ver, jget j "version" = Some ver
                   ∧ jne_int ver SUPPORTED_PACKAGE_RESOLVED_VERSION = true) as Hiff.
  { split.
    - intros (msg & (ver & ? & ? & _)%init_result_unsupported). by exists ver.
    - intros (ver & ? & ?). exists (unsupported_message p (py_str ver)).
      apply init_result_unsupported. by exists ver. }
  split_and!.
  - done.
  - intros z Hz. rewrite Hiff. split.
    + intros (ver & Hver & Hne) ->. rewrite Hz in Hver. by injection Hver as <-.
    + intros Hne. exists (JInt z). split; [done|]. cbn [jne_int].
      apply negb_true_iff, Z.eqb_neq. done.
  - intros ver Hver.
    destruct (jne_int ver SUPPORTED_PACKAGE_RESOLVED_VERSION) eqn:Hne.
    + split; [|apply unsupported_includes].
      apply init_result_unsupported. by exists ver.
    + exists self. split_and!; [|done|by eapply loaded_at_loaded].
      unfold init_result. destruct j as [| | | | |d]; try done.
      cbn [jget] in Hver. by rewrite Hver, Hne.
Qed.

Lemma unsupported_format_witness :
  files future_world !! sample_path
    = Some (encode true 0 future_document ++ [NEWLINE])
  ∧ json_loads (encode true 0 future_document ++ [NEWLINE]) = Ok future_document
  ∧ (init sample_path future_world).1
    = Err (Exception
             ("Package.resolved uses version 2 but `package_resolved.py` "
              +:+ "supports version 1. Update `package_resolved.py` to new format.")).
Proof.
  split; [reflexivity|]. split; [vm_compute; reflexivity|].
  destruct (unsupported_format future_world sample_path
              (encode true 0 future_document ++ [NEWLINE]) future_document)
    as (_ & _ & Hver); [reflexivity|vm_compute; reflexivity|].
  apply (Hver (JInt 2) eq_refl).
Defined.

(** ** Saving and loading again *)

Lemma init_Ok_inv p w self w1 :
  init p w = (Ok self, w1) →
  ∃ content j, files w !! p = Some content ∧ json_loads content = Ok j.
Proof.
  intros Hinit. destruct (files w !! p) as [content|] eqn:Hfile.
  - destruct (json_loads content) as [j|e] eqn:Hloads; [by eauto|].
    exfalso. revert Hinit. unfold init. rewrite print_ok.
    set (w0 := World (store w) (files w) (stdout w ++ [Opening p])).
    rewrite (bind_ok _ _ w0 content w0) by (unfold open_read; simpl; by rewrite Hfile).
    by rewrite (bind_err _ _ w0 e w0) by (unfold json_load; by rewrite Hloads).
  - exfalso. revert Hinit. unfold init. rewrite print_ok.
    set (w0 := World (store w) (files w) (stdout w ++ [Opening p])).
    by rewrite (bind_err _ _ w0 (FileNotFoundError p) w0)
      by (unfold open_read; simpl; by rewrite Hfile).
Qed.

Lemma init_result_Ok p self0 j self :
  init_result p self0 j = Ok self →
  self = self0
  ∧ ∃ ver, jget j "version" = Some ver
           ∧ jne_int ver SUPPORTED_PACKAGE_RESOLVED_VERSION = false.
Proof.
  unfold init_result. destruct j as [| | | | |d]; try done. cbn [jget].
  destruct (dict_get d "version") as [ver|]; [|done].
  destruct (jne_int ver SUPPORTED_PACKAGE_RESOLVED_VERSION) eqn:Hne; [done|].
  intros [= <-]. eauto.
Qed.

Lemma init_result_supported p self j ver :
  jget j "version" = Some ver →
  jne_int ver SUPPORTED_PACKAGE_RESOLVED_VERSION = false →
  init_result p self j = Ok self.
Proof.
  unfold init_result. destruct j as [| | | | |d]; try done. cbn [jget].
  by intros -> ->.
Qed.

Lemma jne_int_canon j z : jne_int (canon j) z = jne_int j z.
Proof. by destruct j. Qed.

Lemma same_content_pins ps :
  forallb unique_keys ps = true → Forall2 same_content ps (canon <$> ps).
Proof.
  intros Hu%forallb_Forall. induction Hu as [|pin ps Hpin _ IH]; csimpl; constructor.
  - by apply same_content_canon.
  - done.
Qed.

Lemma unique_keys_pins j ps :
  unique_keys j = true → pins_of j = Some ps → forallb unique_keys ps = true.
Proof.
  unfold pins_of. intros Hu Hpins.
  destruct (jget j "object") as [o|] eqn:Ho; [|done]. cbn in Hpins.
  destruct (jget o "pins") as [pl|] eqn:Hpl; [|done]. cbn in Hpins.
  destruct pl as [| | | |ps'|]; try done. injection Hpins as ->.
  apply (unique_keys_jget _ _ _ Hu) in Ho.
  by apply (unique_keys_jget _ _ _ Ho) in Hpl.
Qed.

(** C5 — a handle constructed on a file holds the document [j] read from
    the file; saving it at once and constructing a handle on the same path
    again succeeds, and the second handle holds [j] with the keys of every
    dict in sorted order: the same content, and the pins, position by
    position, with the same content as the pins of [j]. *)
Theorem save_reload_round_trip w p self w1 :
  init p w = (Ok self, w1) →
  ∃ content j w2 self' w3,
    files w !! p = Some content ∧ json_loads content = Ok j
    ∧ loaded w1 self j
    ∧ save self w1 = (Ok tt, w2)
    ∧ init p w2 = (Ok self', w3)
    ∧ loaded w3 self' (canon j)
    ∧ same_content j (canon j)
    ∧ keys_sorted (canon j) = true
    ∧ (∀ ps, pins_of j = Some ps →
         pins_of (canon j) = Some (canon <$> ps)
         ∧ Forall2 same_content ps (canon <$> ps)).
Proof.
  intros Hinit.
  destruct (init_Ok_inv _ _ _ _ Hinit) as (content & j & Hfile & Hloads).
  destruct (init_spec w p content j Hfile Hloads)
    as (self0 & ext & fp & Hpath & _ & Hld & Hinit0).
  cbv zeta in Hld, Hinit0. rewrite Hinit in Hinit0.
  injection Hinit0 as Hres Hw1. symmetry in Hres.
  apply init_result_Ok in Hres as (-> & ver & Hver & Hne).
  rewrite <-Hw1 in Hld. apply loaded_at_loaded in Hld.
  pose proof (json_loads_unique _ _ Hloads) as Hu.
  pose proof (save_spec w1 self0 j Hld) as Hsave.
  set (w2 := World (store w1)
               (<[path self0 := encode true 0 j ++ [NEWLINE]]> (files w1))
               (stdout w1 ++ [Saving (path self0)])) in *.
  assert (files w2 !! p = Some (encode true 0 j ++ [NEWLINE])) as Hfile2.
  { unfold w2. cbn [files]. rewrite Hpath. apply lookup_insert_eq. }
  assert (json_loads (encode true 0 j ++ [NEWLINE]) = Ok (canon j)) as Hloads2.
  { rewrite encode_sorted. by apply json_loads_encode, unique_keys_canon. }
  destruct (init_spec w2 p _ (canon j) Hfile2 Hloads2)
    as (self' & ext' & fp' & _ & _ & Hld' & Hinit').
  cbv zeta in Hld', Hinit'.
  rewrite (init_result_supported p self' (canon j) (canon ver)) in Hinit'; cycle 1.
  { by rewrite jget_canon, Hver. }
  { by rewrite jne_int_canon. }
  eexists content, j, w2, self', _. split_and!; try done.
  - by eapply loaded_at_loaded.
  - by apply same_content_canon.
  - by apply keys_sorted_canon.
  - intros ps Hps. split; [by apply pins_of_canon|].
    eapply same_content_pins, unique_keys_pins; done.
Qed.

Lemma save_reload_round_trip_witness :
  ∃ self w1,
    init sample_path unsorted_file_world = (Ok self, w1)
    ∧ loaded w1 self unsorted_document
    ∧ ∃ w2 self' w3,
        save self w1 = (Ok tt, w2)
        ∧ init sample_path w2 = (Ok self', w3)
        ∧ loaded w3 self' sample_document
        ∧ pins_of sample_document = Some [sample_pin; other_pin].
Proof.
  eexists _, _. split; [vm_compute; reflexivity|].
  match goal with |- context [loaded ?w1 ?self _] =>
    destruct (save_reload_round_trip unsorted_file_world sample_path self w1)
      as (content & j & w2 & self' & w3 & Hfile & Hloads & Hld & Hsave & Hinit
          & Hld' & _); [vm_compute; reflexivity|]
  end.
  assert (content = encode false 0 unsorted_document ++ [NEWLINE]) as ->
    by (apply (inj Some); by rewrite <-Hfile).
  assert (Ok j = Ok unsorted_document) as [= ->]
    by (rewrite <-Hloads; vm_compute; reflexivity).
  split; [done|]. by exists w2, self', w3.
Defined.

(** * Further properties of the operations *)

(** ** [__init__]: what can go wrong *)

Lemma init_open w p :
  init p w
  = (content ← open_read p;
     packages ← json_load content;
     version ← lift (py_getitem packages "version");
     if ne_int version SUPPORTED_PACKAGE_RESOLVED_VERSION then
       found ← lift (format version);
       raise (Exception (unsupported_message p found))
     else mret (Handle p packages))
      (World (store w) (files w) (stdout w ++ [Opening p])).
Proof. done. Qed.

Lemma init_decode_error w p content e :
  files w !! p = Some content → json_loads content = Err e →
  init p w = (Err e, World (store w) (files w) (stdout w ++ [Opening p])).
Proof.
  intros Hfile Hloads. rewrite init_open.
  set (w0 := World (store w) (files w) (stdout w ++ [Opening p])).
  rewrite (bind_ok _ _ w0 content w0) by (unfold open_read; simpl; by rewrite Hfile).
  by rewrite (bind_err _ _ w0 e w0) by (unfold json_load; by rewrite Hloads).
Qed.

Lemma skip_ws_blank s : Forall (λ c, is_ws c = true) s → skip_ws s = [].
Proof. induction 1 as [|c s Hc _ IH]; simpl; [done|]. by rewrite Hc. Qed.

(** X1 — constructing a handle on a path that names no file raises
    [FileNotFoundError] for that path, after the opening notice; nothing
    is loaded. *)
Theorem init_missing_file w p :
  files w !! p = None →
  init p w
  = (Err (FileNotFoundError p),
     World (store w) (files w) (stdout w ++ [Opening p])).
Proof.
  intros Hfile. rewrite init_open.
  set (w0 := World (store w) (files w) (stdout w ++ [Opening p])).
  by rewrite (bind_err _ _ w0 (FileNotFoundError p) w0)
    by (unfold open_read; simpl; by rewrite Hfile).
Qed.

Lemma init_missing_file_witness :
  files sample_world !! sample_path = None
  ∧ (init sample_path sample_world).1 = Err (FileNotFoundError sample_path).
Proof.
  split; [reflexivity|].
  by rewrite (init_missing_file sample_world sample_path eq_refl).
Defined.

(** X2 — constructing a handle on a file that is empty, or holds white
    space only, raises the decoder's error; nothing is loaded. *)
Theorem init_blank_file w p content :
  files w !! p = Some content →
  Forall (λ c, is_ws c = true) content →
  init p w
  = (Err JSONDecodeError, World (store w) (files w) (stdout w ++ [Opening p])).
Proof.
  intros Hfile Hblank. apply (init_decode_error w p content); [done|].
  unfold json_loads. by rewrite skip_ws_blank.
Qed.

Lemma init_blank_file_witness :
  (init sample_path (World [] {[ sample_path := [SPACE; NEWLINE] ]} [])).1
  = Err JSONDecodeError.
Proof.
  rewrite (init_blank_file _ sample_path [SPACE; NEWLINE]);
    [done|reflexivity|repeat constructor].
Defined.

(** X3 — constructing a handle on a document that declares no version
    raises [KeyError] for ['version'] when the document is an object, and
    [TypeError] when it is any other JSON value; the version check is not
    reached. *)
Theorem init_without_version w p content j :
  files w !! p = Some content → json_loads content = Ok j →
  jget j "version" = None →
  (init p w).1
  = Err (match j with
         | JDict _ => KeyError (VStr "version")
         | _ => TypeError
         end)
  ∧ files (init p w).2 = files w
  ∧ stdout (init p w).2 = stdout w ++ [Opening p].
Proof.
  intros Hfile Hloads Hver.
  destruct (init_spec w p content j Hfile Hloads)
    as (self & ext & fp & _ & _ & _ & Hinit).
  cbv zeta in Hinit. rewrite Hinit. split; [|done]. cbn [fst].
  unfold init_result. destruct j as [| | | | |d]; try done.
  cbn [jget] in Hver. by rewrite Hver.
Qed.

Lemma init_without_version_witness :
  json_loads (encode true 0 versionless_document ++ [NEWLINE])
  = Ok versionless_document
  ∧ (init sample_path versionless_world).1 = Err (KeyError (VStr "version")).
Proof.
  split; [vm_compute; reflexivity|].
  destruct (init_without_version versionless_world sample_path
              (encode true 0 versionless_document ++ [NEWLINE])
              versionless_document) as (Hinit & _);
    [reflexivity|vm_compute; reflexivity|reflexivity|].
  exact Hinit.
Defined.

(** X4 — whatever its outcome, constructing a handle prints the opening
    notice and nothing else, writes no file, and leaves every object that
    was in the store as it was: it only adds objects. *)
Theorem init_effects w p :
  files (init p w).2 = files w
  ∧ stdout (init p w).2 = stdout w ++ [Opening p]
  ∧ ∃ ext, store (init p w).2 = store w ++ ext.
Proof.
  destruct (files w !! p) as [content|] eqn:Hfile.
  - destruct (json_loads content) as [j|e] eqn:Hloads.
    + destruct (init_spec w p content j Hfile Hloads)
        as (self & ext & fp & _ & _ & _ & Hinit).
      cbv zeta in Hinit. rewrite Hinit. split_and!; try done. by exists ext.
    + rewrite (init_decode_error w p content e Hfile Hloads).
      split_and!; try done. exists []. by rewrite app_nil_r.
  - rewrite init_open.
    set (w0 := World (store w) (files w) (stdout w ++ [Opening p])).
    rewrite (bind_err _ _ w0 (FileNotFoundError p) w0)
      by (unfold open_read; simpl; by rewrite Hfile).
    split_and!; try done. exists []. by rewrite app_nil_r.
Qed.

(** ** Documents that lack a key *)

Lemma pins_KeyError w self j k :
  loaded w self j → missing_key j = Some k →
  ∀ B (f : val → M B),
    (object ← lift (py_getitem (packages self) "object");
     pins ← lift (py_getitem object "pins");
     f pins) w = (Err (KeyError (VStr k)), w).
Proof.
  intros (fp & Hs & _) Hk B f. unfold missing_key in Hk.
  destruct j as [| | | | |d]; try done.
  destruct (dict_get d "object") as [jo|] eqn:Hjo.
  - destruct jo as [| | | | |o]; try done.
    destruct (dict_get o "pins") eqn:Hjp; [done|]. injection Hk as <-.
    destruct (getitem_snap _ _ _ _ _ "object" (JDict o) Hs Hjo)
      as (i1 & vo & fpo & Hgo & _ & _ & Hso & _).
    rewrite (lift_ok _ _ _ _ Hgo).
    by rewrite (lift_err _ _ _ _ (getitem_KeyError _ _ _ _ _ _ Hso Hjp)).
  - injection Hk as <-.
    by rewrite (lift_err _ _ _ _ (getitem_KeyError _ _ _ _ _ _ Hs Hjo)).
Qed.

Lemma pinless_loaded : loaded pinless_world pinless_handle pinless_document.
Proof.
  eexists. split; [vm_compute; reflexivity|].
  apply (bool_decide_unpack _). vm_compute. exact I.
Defined.

(** X5 — on a document without ['object'], or whose ['object'] is an
    object without ['pins'], every operation that looks at the pins raises
    [KeyError] for the key that is missing and changes nothing. *)
Theorem pins_missing w self j k :
  loaded w self j → missing_key j = Some k →
  get_number_of_dependencies self w = (Err (KeyError (VStr k)), w)
  ∧ (∀ name, read_dependency self name w = (Err (KeyError (VStr k)), w))
  ∧ (∀ name b r v,
       update_dependency self name b r v w = (Err (KeyError (VStr k)), w)).
Proof.
  intros Hld Hk.
  assert (∀ name, get_package self name w = (Err (KeyError (VStr k)), w)) as Hget.
  { intros name. unfold get_package. by apply (pins_KeyError w self j). }
  split_and!.
  - unfold get_number_of_dependencies. by apply (pins_KeyError w self j).
  - intros name. unfold read_dependency. by rewrite (bind_err _ _ _ _ _ (Hget name)).
  - intros name b r v. unfold update_dependency.
    by rewrite (bind_err _ _ _ _ _ (Hget name)).
Qed.

Lemma pins_missing_witness :
  loaded pinless_world pinless_handle pinless_document
  ∧ get_number_of_dependencies pinless_handle pinless_world
    = (Err (KeyError (VStr "pins")), pinless_world).
Proof.
  split; [exact pinless_loaded|].
  destruct (pins_missing pinless_world pinless_handle pinless_document "pins")
    as (Hcount & _); [exact pinless_loaded|reflexivity|].
  exact Hcount.
Defined.

(** ** Pins that lack a key *)

Lemma matching_KeyError n h name xs rs index k d :
  Forall2 (λ x r, snap n h x = Some r) xs rs →
  rs.*1 !! k = Some (JDict d) → dict_get d "package" = None →
  (∀ i pin, i < k → rs.*1 !! i = Some pin → has_package pin = true) →
  matching name index xs h = Err (KeyError (VStr "package")).
Proof.
  intros Hrs. revert index k.
  induction Hrs as [|x [jx fx] xs rs Hx _ IH]; intros index k Hk Hd Hbefore;
    [done|].
  cbn [matching]. destruct k as [|k].
  - cbn in Hk. injection Hk as ->.
    by rewrite (getitem_KeyError _ _ _ _ _ _ Hx Hd).
  - assert (has_package jx = true) as Hjx by (apply (Hbefore 0); [lia|done]).
    unfold has_package in Hjx.
    destruct (jget jx "package") as [jn|] eqn:Hjn; [|done].
    destruct (getitem_snap _ _ _ _ _ _ _ Hx Hjn) as (? & vn & ? & -> & _).
    cbn [mbind res_bind].
    rewrite (IH (S index) k); [done|done|done|].
    intros i pin Hi. apply (Hbefore (S i)). lia.
Qed.

Lemma nameless_loaded : loaded nameless_world nameless_handle nameless_document.
Proof.
  eexists. split; [vm_compute; reflexivity|].
  apply (bool_decide_unpack _). vm_compute. exact I.
Defined.

(** X6 — the lookup evaluates ['package'] on every pin before it picks
    one: when some pin is an object without ['package'] (the pins before it
    having one), looking up any name raises [KeyError] for ['package'], even
    a name that an earlier pin has, and [read_dependency] and
    [update_dependency] raise it too, leaving everything as it was. *)
Theorem lookup_scans_every_pin w self j ps k d name :
  loaded w self j → pins_of j = Some ps →
  ps !! k = Some (JDict d) → dict_get d "package" = None →
  (∀ i pin, i < k → ps !! i = Some pin → has_package pin = true) →
  let e := KeyError (VStr "package") in
  get_package self name w = (Err e, w)
  ∧ read_dependency self name w = (Err e, w)
  ∧ ∀ b r v, update_dependency self name b r v w = (Err e, w).
Proof.
  intros (fp & Hs & _) (jo & Hjo & Hjp)%pins_of_inv Hk Hd Hbefore e.
  destruct (getitem_snap _ _ _ _ _ _ _ Hs Hjo) as (i1 & vo & fpo & Hgo & _ & _ & Hso & _).
  destruct (getitem_snap _ _ _ _ _ _ _ Hso Hjp) as (i2 & vp & fpp & Hgp & _ & _ & Hsp & _).
  destruct (snap_list_inv _ _ _ _ _ Hsp)
    as (n' & lp & xs & rs & Hn & -> & Hlp & Hrs & -> & _).
  assert (get_package self name w = (Err e, w)) as Hget.
  { unfold get_package.
    rewrite (lift_ok _ _ _ _ Hgo), (lift_ok _ _ _ _ Hgp).
    rewrite (lift_ok (py_iter (VRef lp)) _ w xs) by (simpl; by rewrite Hlp).
    apply lift_err. by eapply matching_KeyError. }
  split_and!; [done| |intros b r v].
  - unfold read_dependency. by rewrite (bind_err _ _ _ _ _ Hget).
  - unfold update_dependency. by rewrite (bind_err _ _ _ _ _ Hget).
Qed.

Lemma lookup_scans_every_pin_witness :
  loaded nameless_world nameless_handle nameless_document
  ∧ name_is "X" sample_pin = true
  ∧ read_dependency nameless_handle "X" nameless_world
    = (Err (KeyError (VStr "package")), nameless_world).
Proof.
  split; [exact nameless_loaded|]. split; [reflexivity|].
  destruct (lookup_scans_every_pin nameless_world nameless_handle
              nameless_document [sample_pin; nameless_pin] 1
              [("repositoryURL", JStr "https://example.com/Y");
               ("state", JDict sample_state)] "X")
    as (_ & Hread & _);
    [exact nameless_loaded|reflexivity|reflexivity|reflexivity| |exact Hread].
  intros [|i] pin Hi; [|lia]. by intros [= <-].
Defined.

(** ** A pin without a usable state *)

Lemma pin_is_dict ps i pin :
  Forall (λ p, has_package p = true) ps → ps !! i = Some pin → ∃ d, pin = JDict d.
Proof.
  intros Hall Hpin. rewrite Forall_forall in Hall.
  specialize (Hall pin (list_elem_of_lookup_2 _ _ _ Hpin)).
  unfold has_package in Hall. destruct pin; try done. by eexists.
Qed.

Lemma stateless_loaded : loaded stateless_world stateless_handle stateless_document.
Proof.
  eexists. split; [vm_compute; reflexivity|].
  apply (bool_decide_unpack _). vm_compute. exact I.
Defined.

Lemma unresolved_loaded :
  loaded unresolved_world unresolved_handle unresolved_document.
Proof.
  eexists. split; [vm_compute; reflexivity|].
  apply (bool_decide_unpack _). vm_compute. exact I.
Defined.

(** X7 — when the pin found has no ['state'], [read_dependency] and
    [update_dependency] raise [KeyError] for ['state'] and change nothing:
    the update fails before its first assignment. *)
Theorem state_missing w self j ps name i pin :
  loaded w self j → pins_of j = Some ps →
  Forall (λ p, has_package p = true) ps →
  find_pin name ps = Some i → ps !! i = Some pin →
  jget pin "state" = None →
  read_dependency self name w = (Err (KeyError (VStr "state")), w)
  ∧ ∀ b r v,
      update_dependency self name b r v w = (Err (KeyError (VStr "state")), w).
Proof.
  intros Hld Hpins Hall Hfind Hpin Hst.
  pose proof (get_package_spec w self j ps name Hld Hpins Hall) as Hgp.
  rewrite Hfind in Hgp.
  destruct Hgp as (l & p & pin0 & fpp & Hget & Hpin0 & _ & _ & Hsp & _).
  simplify_eq.
  destruct (pin_is_dict _ _ _ Hall Hpin) as [d ->].
  pose proof (getitem_KeyError _ _ _ _ _ _ Hsp Hst) as Hkey.
  split; [|intros b r v].
  - unfold read_dependency. rewrite (bind_ok _ _ _ _ _ Hget).
    by rewrite (lift_err _ _ _ _ Hkey).
  - unfold update_dependency. rewrite (bind_ok _ _ _ _ _ Hget).
    by rewrite (lift_err _ _ _ _ Hkey).
Qed.

Lemma state_missing_witness :
  loaded stateless_world stateless_handle stateless_document
  ∧ update_dependency stateless_handle "X" (Some "main") None None stateless_world
    = (Err (KeyError (VStr "state")), stateless_world).
Proof.
  split; [exact stateless_loaded|].
  destruct (state_missing stateless_world stateless_handle stateless_document
              [JDict [("package", JStr "X")]] "X" 0 (JDict [("package", JStr "X")]))
    as (_ & Hupd);
    [exact stateless_loaded|reflexivity|repeat constructor|reflexivity
    |reflexivity|reflexivity|].
  apply Hupd.
Defined.

(** X8 — when the state of the pin found is not an object ([null], a
    string, a number, a list), [update_dependency] raises [TypeError] at
    its first assignment: the document is as it was, no file is written
    and nothing is printed. *)
Theorem state_not_object w self j ps name i pin jst b r v :
  loaded w self j → pins_of j = Some ps →
  Forall (λ p, has_package p = true) ps →
  find_pin name ps = Some i → ps !! i = Some pin →
  jget pin "state" = Some jst → (∀ d, jst ≠ JDict d) →
  ∃ w', update_dependency self name b r v w = (Err TypeError, w')
    ∧ loaded w' self j
    ∧ files w' = files w ∧ stdout w' = stdout w.
Proof.
  intros Hld Hpins Hall Hfind Hpin Hst Hnd.
  pose proof Hld as (fp & Hlda).
  pose proof (get_package_spec w self j ps name Hld Hpins Hall) as Hgp.
  rewrite Hfind in Hgp.
  destruct Hgp as (l & p & pin0 & fpp & Hget & Hpin0 & Hw & Hat & Hsp & _).
  simplify_eq.
  destruct (copy_state _ _ _ _ _ _ _ _ Hlda Hw Hat Hst)
    as (vs & c & ext & fpc & Hg & Hcopy & Hb).
  destruct (getitem_snap _ _ _ _ _ _ _ Hsp Hst) as (? & vs' & fps & Hg' & _ & _ & Hss & _).
  simplify_eq.
  exists (set_store w (store w ++ ext)). split_and!; try done.
  - unfold update_dependency.
    rewrite (bind_ok _ _ _ _ _ Hget), (lift_ok _ _ _ _ Hg), (bind_ok _ _ _ _ _ Hcopy).
    erewrite lift_ok by (by apply getitem_extend).
    erewrite bind_err; [done|].
    eapply setitem_not_dict; [by apply snap_extend|done].
  - eapply loaded_at_loaded. by apply loaded_at_extend.
Qed.

Lemma state_not_object_witness :
  loaded unresolved_world unresolved_handle unresolved_document
  ∧ ∃ w', update_dependency unresolved_handle "X" (Some "main") None None
            unresolved_world = (Err TypeError, w')
      ∧ loaded w' unresolved_handle unresolved_document.
Proof.
  split; [exact unresolved_loaded|].
  destruct (state_not_object unresolved_world unresolved_handle
              unresolved_document [unresolved_pin] "X" 0 unresolved_pin JNull
              (Some "main") None None)
    as (w' & Hupd & Hld & _);
    [exact unresolved_loaded|reflexivity|repeat constructor|reflexivity
    |reflexivity|reflexivity|done|].
  by exists w'.
Defined.

(** ** One update after another *)

Lemma dict_set_comm {A} (d : list (string * A)) k k' x y :
  k ≠ k' → is_Some (dict_get d k) →
  dict_set (dict_set d k' y) k x = dict_set (dict_set d k x) k' y.
Proof.
  intros Hne. induction d as [|[k0 y0] d IH]; cbn [dict_get dict_set].
  - by intros [? ?].
  - intros Hk. destruct (decide (k0 = k)) as [->|Hk0].
    + rewrite decide_False by done. cbn [dict_set].
      rewrite decide_True by done. by rewrite decide_False by done.
    + destruct (decide (k0 = k')) as [->|Hk0'].
      * cbn [dict_set]. rewrite decide_False by done. by rewrite decide_True by done.
      * cbn [dict_set]. rewrite !decide_False by done. by rewrite IH.
Qed.

Lemma dict_set_keys {A} (d : list (string * A)) k x :
  (dict_set d k x).*1 = if decide (k ∈ d.*1) then d.*1 else d.*1 ++ [k].
Proof.
  induction d as [|[k0 y0] d IH]; cbn [dict_set].
  - by rewrite decide_False by (by intros ?%elem_of_nil).
  - destruct (decide (k0 = k)) as [->|Hk0]; csimpl.
    + by rewrite decide_True by (by left).
    + rewrite IH. destruct (decide (k ∈ d.*1)) as [Hin|Hout].
      * by rewrite decide_True by (by right).
      * rewrite decide_False; [done|]. by intros [?|?]%elem_of_cons.
Qed.

Lemma new_state_new_state st b r v b' r' v' :
  new_state (new_state st b r v) b' r' v' = new_state st b' r' v'.
Proof.
  unfold new_state.
  rewrite (dict_set_comm (dict_set (dict_set st "branch" (jof b)) "revision" (jof r))
             "branch" "version") by (done || (rewrite dict_get_set_ne by done;
                                              rewrite dict_get_set_eq; by eexists)).
  rewrite (dict_set_comm (dict_set st "branch" (jof b)) "branch" "revision")
    by (done || (rewrite dict_get_set_eq; by eexists)).
  rewrite dict_set_set.
  rewrite (dict_set_comm (dict_set (dict_set st "branch" (jof b')) "revision" (jof r))
             "revision" "version") by (done || (rewrite dict_get_set_eq; by eexists)).
  by rewrite !dict_set_set.
Qed.

Lemma with_pins_with_pins j ps ps1 ps2 :
  pins_of j = Some ps → with_pins (with_pins j ps1) ps2 = with_pins j ps2.
Proof.
  intros (jo & Hjo & Hjp)%pins_of_inv. unfold with_pins. rewrite Hjo.
  rewrite (jget_jset_eq _ _ _ _ Hjo). by rewrite !jset_jset.
Qed.

Lemma find_pin_insert name ps i pin pin' :
  ps !! i = Some pin → name_is name pin' = name_is name pin →
  find_pin name (<[i := pin']> ps) = find_pin name ps.
Proof. intros Hpin Hname. unfold find_pin. by erewrite matches_insert. Qed.

Lemma hashable_new_state st b r v :
  forallb (λ kv : string * json, hashable_json kv.2) st = true →
  forallb (λ kv : string * json, hashable_json kv.2) (new_state st b r v) = true.
Proof.
  intros Hst. unfold new_state.
  repeat (apply hashable_dict_set; [apply hashable_jof|]). done.
Qed.

(** What one successful [update_dependency] leaves behind, in the shape the
    next operation needs. *)
Lemma update_step w self j fp ps name i pin st b r v :
  loaded_at w self j fp → pins_of j = Some ps →
  Forall (λ p, has_package p = true) ps →
  find_pin name ps = Some i → ps !! i = Some pin →
  jget pin "state" = Some (JDict st) →
  forallb (λ kv, hashable_json kv.2) st = true →
  let st' := new_state st b r v in
  let pin' := jset pin "state" (JDict st') in
  let ps' := <[i := pin']> ps in
  ∃ w' fp',
    update_dependency self name b r v w = (Ok tt, w')
    ∧ stdout w' = stdout w ++ update_notices name st st'
    ∧ files w' = files w
    ∧ loaded_at w' self (with_pins j ps') fp'
    ∧ pins_of (with_pins j ps') = Some ps'
    ∧ Forall (λ p, has_package p = true) ps'
    ∧ (∀ name', find_pin name' ps' = find_pin name' ps)
    ∧ ps' !! i = Some pin'
    ∧ jget pin' "state" = Some (JDict st')
    ∧ forallb (λ kv, hashable_json kv.2) st' = true.
Proof.
  intros Hld Hpins Hall Hfind Hpin Hst Hhash st' pin' ps'.
  destruct (update_dependency_spec w self j fp ps name i pin st b r v
              Hld Hpins Hall Hfind Hpin Hst)
    as (w1 & fp1 & Hld1 & _ & _ & _ & Hfiles & Hupd).
  rewrite Hhash in Hupd. destruct Hupd as [Hupd Hout].
  exists w1, fp1. split_and!; try done.
  - by eapply pins_of_with_pins.
  - apply Forall_insert; [done|]. apply has_package_jset.
    rewrite Forall_forall in Hall. apply Hall. by eapply list_elem_of_lookup_2.
  - intros name'. eapply find_pin_insert; [done|]. by apply name_is_jset.
  - apply list_lookup_insert_eq. by eapply lookup_lt_Some.
  - by eapply jget_jset_eq.
  - by apply hashable_new_state.
Qed.

(** X9 — of two updates of one pin the last one wins: the document they
    leave is the document the second alone would have left. *)
Theorem update_last_wins w self j ps name i pin st b r v b' r' v' :
  loaded w self j → pins_of j = Some ps →
  Forall (λ p, has_package p = true) ps →
  find_pin name ps = Some i → ps !! i = Some pin →
  jget pin "state" = Some (JDict st) →
  forallb (λ kv, hashable_json kv.2) st = true →
  ∃ w1 w2 w2' j2,
    update_dependency self name b r v w = (Ok tt, w1)
    ∧ update_dependency self name b' r' v' w1 = (Ok tt, w2)
    ∧ update_dependency self name b' r' v' w = (Ok tt, w2')
    ∧ loaded w2 self j2 ∧ loaded w2' self j2.
Proof.
  intros (fp & Hld) Hpins Hall Hfind Hpin Hst Hhash.
  destruct (update_step w self j fp ps name i pin st b r v
              Hld Hpins Hall Hfind Hpin Hst Hhash)
    as (w1 & fp1 & Hupd1 & _ & _ & Hld1 & Hpins1 & Hall1 & Hfind1 & Hpin1
        & Hst1 & Hhash1).
  rewrite <-(Hfind1 name) in Hfind.
  destruct (update_step w1 self _ fp1 _ name i _ _ b' r' v'
              Hld1 Hpins1 Hall1 Hfind Hpin1 Hst1 Hhash1)
    as (w2 & fp2 & Hupd2 & _ & _ & Hld2 & _).
  rewrite (Hfind1 name) in Hfind.
  destruct (update_step w self j fp ps name i pin st b' r' v'
              Hld Hpins Hall Hfind Hpin Hst Hhash)
    as (w2' & fp2' & Hupd2' & _ & _ & Hld2' & _).
  rewrite (with_pins_with_pins j ps) in Hld2 by done.
  rewrite list_insert_insert_eq, jset_jset, new_state_new_state in Hld2.
  eexists w1, w2, w2', _. split_and!; try done; by eapply loaded_at_loaded.
Qed.

Lemma update_last_wins_witness :
  loaded sample_world sample_handle sample_document
  ∧ ∃ w1 w2 w2' j2,
      update_dependency sample_handle "X" (Some "dogfooding") None None
        sample_world = (Ok tt, w1)
      ∧ update_dependency sample_handle "X" None (Some "abc123") None w1
        = (Ok tt, w2)
      ∧ update_dependency sample_handle "X" None (Some "abc123") None
          sample_world = (Ok tt, w2')
      ∧ loaded w2 sample_handle j2 ∧ loaded w2' sample_handle j2.
Proof.
  split; [exact sample_loaded|].
  apply (update_last_wins sample_world sample_handle sample_document
           [sample_pin; other_pin] "X" 0 sample_pin sample_state);
    [exact sample_loaded|reflexivity|repeat constructor|reflexivity
    |reflexivity|reflexivity|reflexivity].
Defined.

(** X10 — [update_dependency] is idempotent: made a second time with the
    same values it finds nothing to change, says so, and leaves the
    document the first call left. *)
Theorem update_twice w self j ps name i pin st b r v :
  loaded w self j → pins_of j = Some ps →
  Forall (λ p, has_package p = true) ps →
  find_pin name ps = Some i → ps !! i = Some pin →
  jget pin "state" = Some (JDict st) →
  forallb (λ kv, hashable_json kv.2) st = true →
  ∃ w1 w2 j1,
    update_dependency self name b r v w = (Ok tt, w1)
    ∧ loaded w1 self j1
    ∧ update_dependency self name b r v w1 = (Ok tt, w2)
    ∧ loaded w2 self j1
    ∧ stdout w2 = stdout w1 ++ [UpToDate name].
Proof.
  intros (fp & Hld) Hpins Hall Hfind Hpin Hst Hhash.
  destruct (update_step w self j fp ps name i pin st b r v
              Hld Hpins Hall Hfind Hpin Hst Hhash)
    as (w1 & fp1 & Hupd1 & _ & _ & Hld1 & Hpins1 & Hall1 & Hfind1 & Hpin1
        & Hst1 & Hhash1).
  rewrite <-(Hfind1 name) in Hfind.
  destruct (update_step w1 self _ fp1 _ name i _ _ b r v
              Hld1 Hpins1 Hall1 Hfind Hpin1 Hst1 Hhash1)
    as (w2 & fp2 & Hupd2 & Hout2 & _ & Hld2 & _).
  rewrite (with_pins_with_pins j ps) in Hld2 by done.
  rewrite list_insert_insert_eq, jset_jset, new_state_new_state in Hld2.
  rewrite new_state_new_state in Hout2.
  unfold update_notices in Hout2. rewrite xor_items_same in Hout2.
  eexists w1, w2, _. split_and!; try done; by eapply loaded_at_loaded.
Qed.

Lemma update_twice_witness :
  loaded sample_world sample_handle sample_document
  ∧ ∃ w1 w2,
      update_dependency sample_handle "X" (Some "dogfooding") None None
        sample_world = (Ok tt, w1)
      ∧ update_dependency sample_handle "X" (Some "dogfooding") None None w1
        = (Ok tt, w2)
      ∧ stdout w2 = stdout w1 ++ [UpToDate "X"].
Proof.
  split; [exact sample_loaded|].
  destruct (update_twice sample_world sample_handle sample_document
              [sample_pin; other_pin] "X" 0 sample_pin sample_state
              (Some "dogfooding") None None)
    as (w1 & w2 & j1 & Hupd1 & _ & Hupd2 & _ & Hout);
    [exact sample_loaded|reflexivity|repeat constructor|reflexivity
    |reflexivity|reflexivity|reflexivity|].
  by exists w1, w2.
Defined.

(** X11 — updates of two different pins commute: made in either order
    they both succeed and leave the same document. *)
Theorem updates_commute w self j ps
    name1 i1 pin1 st1 b1 r1 v1 name2 i2 pin2 st2 b2 r2 v2 :
  loaded w self j → pins_of j = Some ps →
  Forall (λ p, has_package p = true) ps →
  find_pin name1 ps = Some i1 → ps !! i1 = Some pin1 →
  jget pin1 "state" = Some (JDict st1) →
  forallb (λ kv, hashable_json kv.2) st1 = true →
  find_pin name2 ps = Some i2 → ps !! i2 = Some pin2 →
  jget pin2 "state" = Some (JDict st2) →
  forallb (λ kv, hashable_json kv.2) st2 = true →
  i1 ≠ i2 →
  ∃ wa wab wb wba j',
    update_dependency self name1 b1 r1 v1 w = (Ok tt, wa)
    ∧ update_dependency self name2 b2 r2 v2 wa = (Ok tt, wab)
    ∧ update_dependency self name2 b2 r2 v2 w = (Ok tt, wb)
    ∧ update_dependency self name1 b1 r1 v1 wb = (Ok tt, wba)
    ∧ loaded wab self j' ∧ loaded wba self j'.
Proof.
  intros (fp & Hld) Hpins Hall Hfind1 Hpin1 Hst1 Hhash1 Hfind2 Hpin2 Hst2 Hhash2 Hne.
  destruct (update_step w self j fp ps name1 i1 pin1 st1 b1 r1 v1
              Hld Hpins Hall Hfind1 Hpin1 Hst1 Hhash1)
    as (wa & fpa & Hupda & _ & _ & Hlda & Hpinsa & Halla & Hfinda & _).
  destruct (update_step wa self _ fpa _ name2 i2 pin2 st2 b2 r2 v2
              Hlda Hpinsa Halla)
    as (wab & fpab & Hupdab & _ & _ & Hldab & _); try done.
  { by rewrite Hfinda. }
  { by rewrite list_lookup_insert_ne. }
  destruct (update_step w self j fp ps name2 i2 pin2 st2 b2 r2 v2
              Hld Hpins Hall Hfind2 Hpin2 Hst2 Hhash2)
    as (wb & fpb & Hupdb & _ & _ & Hldb & Hpinsb & Hallb & Hfindb & _).
  destruct (update_step wb self _ fpb _ name1 i1 pin1 st1 b1 r1 v1
              Hldb Hpinsb Hallb)
    as (wba & fpba & Hupdba & _ & _ & Hldba & _); try done.
  { by rewrite Hfindb. }
  { by rewrite list_lookup_insert_ne. }
  rewrite (with_pins_with_pins j ps) in Hldab, Hldba by done.
  rewrite list_insert_insert_ne in Hldba by done.
  eexists wa, wab, wb, wba, _. split_and!; try done; by eapply loaded_at_loaded.
Qed.

Lemma updates_commute_witness :
  loaded sample_world sample_handle sample_document
  ∧ ∃ wa wab wb wba j',
      update_dependency sample_handle "X" (Some "dogfooding") None None
        sample_world = (Ok tt, wa)
      ∧ update_dependency sample_handle "Y" None None (Some "2.0.0") wa
        = (Ok tt, wab)
      ∧ update_dependency sample_handle "Y" None None (Some "2.0.0")
          sample_world = (Ok tt, wb)
      ∧ update_dependency sample_handle "X" (Some "dogfooding") None None wb
        = (Ok tt, wba)
      ∧ loaded wab sample_handle j' ∧ loaded wba sample_handle j'.
Proof.
  split; [exact sample_loaded|].
  apply (updates_commute sample_world sample_handle sample_document
           [sample_pin; other_pin] "X" 0 sample_pin sample_state
           (Some "dogfooding") None None "Y" 1 other_pin
           [("branch", JStr "main"); ("revision", JStr "0f1e2d");
            ("version", JNull)]);
    [exact sample_loaded|reflexivity|repeat constructor|reflexivity
    |reflexivity|reflexivity|reflexivity|reflexivity|reflexivity|reflexivity
    |reflexivity|lia].
Defined.

(** ** What an update reports, and what it adds *)

Lemma dict_get_Some_elem {A} (d : list (string * A)) k x :
  dict_get d k = Some x → (k, x) ∈ d.
Proof.
  induction d as [|[k0 y0] d IH]; cbn [dict_get]; [done|].
  destruct (decide (k0 = k)) as [->|?].
  - intros [= ->]. by left.
  - intros ?. right. auto.
Qed.

Lemma atom_eq_jof x y :
  hashable_json y = true → atom_eq (to_val (jof x)) (to_val y) = true → y = jof x.
Proof.
  destruct x as [s|], y as [|[]|z|s'| |]; try done; cbn.
  by intros _ ->%bool_decide_eq_true.
Qed.

(** An item of the new state that the old state does not have. *)
Lemma item_in_old st k x :
  NoDup st.*1 → forallb (λ kv, hashable_json kv.2) st = true →
  dict_get st k ≠ Some (jof x) →
  item_in (k, to_val (jof x)) (state_items st) = false.
Proof.
  intros Hnd Hhash Hne. unfold item_in.
  apply not_true_is_false. intros ([k' y'] & Hin & Heq)%existsb_exists.
  apply list_elem_of_In in Hin.
  apply list_elem_of_fmap in Hin as ([k0 y] & [= -> ->] & Hin).
  cbn [fst snd] in Heq.
  apply andb_prop in Heq as [->%bool_decide_eq_true Heq].
  apply forallb_Forall in Hhash. rewrite Forall_forall in Hhash.
  apply atom_eq_jof in Heq; [|apply (Hhash _ Hin)]. subst y.
  apply Hne. by apply dict_get_elem.
Qed.

Lemma xor_items_changed st st' k x :
  NoDup st.*1 → forallb (λ kv, hashable_json kv.2) st = true →
  dict_get st k ≠ Some (jof x) → dict_get st' k = Some (jof x) →
  0 < length (xor_items (state_items st) (state_items st')).
Proof.
  intros Hnd Hhash Hne Hnew. unfold xor_items. rewrite length_app.
  assert ((k, to_val (jof x))
          ∈ List.filter (λ kv, negb (item_in kv (state_items st))) (state_items st'))
    as Hin.
  { apply list_elem_of_In, filter_In. split.
    - apply list_elem_of_In. unfold state_items.
      apply list_elem_of_fmap. exists (k, jof x). split; [done|].
      by apply dict_get_Some_elem.
    - by rewrite item_in_old. }
  destruct (List.filter _ (state_items st')); [by apply elem_of_nil in Hin|].
  simpl. lia.
Qed.

Lemma xor_items_same_items st st' :
  same_items st st' → xor_items (state_items st) (state_items st') = [].
Proof.
  intros Hsame.
  assert (∀ d l : list (string * json),
            (∀ kv, kv ∈ l → kv ∈ d) →
            List.filter (λ kv, negb (item_in kv (state_items d))) (state_items l) = [])
    as Hfilter.
  { intros d l. induction l as [|[k x] l IH]; intros Hin; [done|].
    cbn [state_items fmap list_fmap List.filter fst snd].
    assert (item_in (k, to_val x) (state_items d) = true) as ->.
    { unfold item_in. apply existsb_exists. exists (k, to_val x). split.
      - apply list_elem_of_In. unfold state_items.
        apply list_elem_of_fmap. exists (k, x). split; [done|].
        apply Hin. by left.
      - cbn [fst snd]. apply andb_true_intro.
        split; [by apply bool_decide_eq_true|apply atom_eq_to_val]. }
    cbn [negb]. apply IH. intros kv Hkv. apply Hin. by right. }
  unfold xor_items. rewrite !Hfilter; [done| |]; intros kv Hkv; by apply Hsame.
Qed.

Lemma new_state_NoDup st b r v : NoDup st.*1 → NoDup (new_state st b r v).*1.
Proof. intros Hnd. unfold new_state. by do 3 apply dict_set_keys_NoDup. Qed.

(** With the values given in place of the old ones, an item of the state
    before or after that the other lacks is an item for one of the three
    keys, and the value given for it is not the value the state had. *)
Lemma differing_item_value st b r v :
  NoDup st.*1 → differing_item st (new_state st b r v) →
  dict_get st "branch" ≠ Some (jof b)
  ∨ dict_get st "revision" ≠ Some (jof r)
  ∨ dict_get st "version" ≠ Some (jof v).
Proof.
  intros Hnd ([k y] & Hdiff).
  pose proof (new_state_NoDup st b r v Hnd) as Hnd'.
  destruct (new_state_lookup st b r v) as (Hb & Hr & Hv & Hother).
  assert (∀ k0 x, dict_get (new_state st b r v) k0 = Some (jof x) → k = k0 →
            dict_get st k0 ≠ Some (jof x)) as Hkey.
  { intros k0 x Hnew -> Hold.
    destruct Hdiff as [[Hin Hout]|[Hin Hout]].
    - apply (dict_get_elem _ _ _ Hnd) in Hin.
      rewrite Hold in Hin. injection Hin as <-.
      apply Hout. by apply dict_get_Some_elem.
    - apply (dict_get_elem _ _ _ Hnd') in Hin.
      rewrite Hnew in Hin. injection Hin as <-.
      apply Hout. by apply dict_get_Some_elem. }
  destruct (decide (k = "branch")) as [Hkb|Hkb]; [left; by eapply Hkey|].
  destruct (decide (k = "revision")) as [Hkr|Hkr]; [right; left; by eapply Hkey|].
  destruct (decide (k = "version")) as [Hkv|Hkv]; [right; right; by eapply Hkey|].
  exfalso. specialize (Hother k ltac:(done) ltac:(done) ltac:(done)).
  destruct Hdiff as [[Hin Hout]|[Hin Hout]].
  - apply (dict_get_elem _ _ _ Hnd) in Hin. rewrite <-Hother in Hin.
    apply Hout. by apply dict_get_Some_elem.
  - apply (dict_get_elem _ _ _ Hnd') in Hin. rewrite Hother in Hin.
    apply Hout. by apply dict_get_Some_elem.
Qed.

Lemma value_differing_item st b r v :
  NoDup st.*1 →
  dict_get st "branch" ≠ Some (jof b)
  ∨ dict_get st "revision" ≠ Some (jof r)
  ∨ dict_get st "version" ≠ Some (jof v) →
  differing_item st (new_state st b r v).
Proof.
  intros Hnd Hdiff.
  destruct (new_state_lookup st b r v) as (Hb & Hr & Hv & _).
  assert (∀ k x, dict_get (new_state st b r v) k = Some (jof x) →
            dict_get st k ≠ Some (jof x) →
            differing_item st (new_state st b r v)) as Hkey.
  { intros k x Hnew Hold. exists (k, jof x). right.
    split; [by apply dict_get_Some_elem|].
    intros Hin. apply Hold. by apply (dict_get_elem _ _ _ Hnd). }
  destruct Hdiff as [H|[H|H]];
    [exact (Hkey _ _ Hb H)|exact (Hkey _ _ Hr H)|exact (Hkey _ _ Hv H)].
Qed.

(** C7 — [update_dependency] with the values the pin already has changes
    nothing: the document stays as it was, a [read_dependency] that follows
    returns the same state, and the notice is [UpToDate], not [Updated].
    With a value that differs from the one the state holds the notice is
    [Updated], followed by the state before and the state after.  What
    decides between the two is the symmetric difference of the items of the
    state before and of the state after: [UpToDate] when the two states have
    the same items, [Updated] when one has an item that the other lacks. *)
Theorem same_values_up_to_date w self j ps name i pin st b r v :
  loaded w self j → pins_of j = Some ps →
  Forall (λ p, has_package p = true) ps →
  find_pin name ps = Some i → ps !! i = Some pin →
  jget pin "state" = Some (JDict st) →
  forallb (λ kv, hashable_json kv.2) st = true →
  let st' := new_state st b r v in
  let up_to_date := [UpToDate name] in
  let updated := [Updated name; OldState (JDict st); NewState (JDict st')] in
  ∃ w',
    update_dependency self name b r v w = (Ok tt, w')
    ∧ (∃ c w2, read_dependency self name w' = (Ok c, w2)
         ∧ snapshot (store w2) c = Some (JDict st'))
    ∧ (dict_get st "branch" = Some (jof b) →
       dict_get st "revision" = Some (jof r) →
       dict_get st "version" = Some (jof v) →
       st' = st ∧ same_items st st'
       ∧ loaded w' self j
       ∧ stdout w' = stdout w ++ up_to_date)
    ∧ (NoDup st.*1 →
       dict_get st "branch" ≠ Some (jof b)
       ∨ dict_get st "revision" ≠ Some (jof r)
       ∨ dict_get st "version" ≠ Some (jof v) →
       differing_item st st' ∧ stdout w' = stdout w ++ updated)
    ∧ (same_items st st' → stdout w' = stdout w ++ up_to_date)
    ∧ (NoDup st.*1 → differing_item st st' → stdout w' = stdout w ++ updated).
Proof.
  intros (fp & Hld) Hpins Hall Hfind Hpin Hst Hhash st' up_to_date updated.
  destruct (update_step w self j fp ps name i pin st b r v
              Hld Hpins Hall Hfind Hpin Hst Hhash)
    as (w1 & fp1 & Hupd & Hout & _ & Hld1 & Hpins1 & Hall1 & Hfind1 & Hpin1
        & Hst1 & _).
  fold st' in Hout, Hld1, Hpins1, Hall1, Hfind1, Hpin1, Hst1.
  assert (same_items st st' → stdout w1 = stdout w ++ up_to_date) as Hsame.
  { intros Hsame. rewrite Hout. unfold update_notices.
    by rewrite xor_items_same_items. }
  assert (dict_get st "branch" ≠ Some (jof b)
          ∨ dict_get st "revision" ≠ Some (jof r)
          ∨ dict_get st "version" ≠ Some (jof v) →
          NoDup st.*1 → stdout w1 = stdout w ++ updated) as Hvalue.
  { intros Hdiff Hnd. rewrite Hout. unfold update_notices.
    destruct (new_state_lookup st b r v) as (Hb & Hr & Hv & _).
    assert (0 < length (xor_items (state_items st) (state_items st'))) as Hlen.
    { destruct Hdiff as [?|[?|?]]; by eapply xor_items_changed. }
    apply Nat.ltb_lt in Hlen. by rewrite Hlen. }
  exists w1. split_and!.
  - done.
  - rewrite <-(Hfind1 name) in Hfind.
    destruct (read_dependency_spec w1 self _ fp1 _ name i _ _
                Hld1 Hpins1 Hall1 Hfind Hpin1 Hst1)
      as (c & ext & fpc & Hread & Hb).
    exists c, (set_store w1 (store w1 ++ ext)). split; [done|].
    simpl. rewrite <-(app_nil_r ext), app_assoc, <-app_assoc.
    by eapply built_snapshot.
  - intros Hb Hr Hv.
    assert (st' = st) as Heq by (by apply new_state_same).
    assert (same_items st st') as Hitems by (by rewrite Heq).
    split_and!; [done|done| |by apply Hsame].
    rewrite Heq in Hld1.
    rewrite (jset_same _ _ _ Hst), (list_insert_id _ _ _ Hpin),
      (with_pins_same _ _ Hpins) in Hld1.
    by eapply loaded_at_loaded.
  - intros Hnd Hdiff. split; [by apply value_differing_item|by apply Hvalue].
  - done.
  - intros Hnd Hdiff. apply Hvalue; [|done]. by eapply differing_item_value.
Qed.

Lemma same_values_up_to_date_witness :
  loaded sample_world sample_handle sample_document
  ∧ ∃ w', update_dependency sample_handle "X" None None (Some "1.0.0") sample_world
          = (Ok tt, w')
      ∧ loaded w' sample_handle sample_document
      ∧ stdout w' = stdout sample_world ++ [UpToDate "X"]
      ∧ ∃ c w2, read_dependency sample_handle "X" w' = (Ok c, w2)
          ∧ snapshot (store w2) c = Some (JDict sample_state).
Proof.
  split; [exact sample_loaded|].
  destruct (same_values_up_to_date sample_world sample_handle sample_document
              [sample_pin; other_pin] "X" 0 sample_pin sample_state
              None None (Some "1.0.0"))
    as (w' & Hupd & Hread & Hsame & _);
    [exact sample_loaded|reflexivity|repeat constructor|reflexivity
    |reflexivity|reflexivity|reflexivity|].
  destruct Hsame as (_ & _ & Hld & Hout); [reflexivity..|].
  by exists w'.
Defined.

(** X12 — when one of the three values given differs from the one the
    state holds (or the state lacks that key), [update_dependency] reports
    the update, with the state before and the state after. *)
Theorem changed_values_reported w self j ps name i pin st b r v :
  loaded w self j → pins_of j = Some ps →
  Forall (λ p, has_package p = true) ps →
  find_pin name ps = Some i → ps !! i = Some pin →
  jget pin "state" = Some (JDict st) →
  NoDup st.*1 → forallb (λ kv, hashable_json kv.2) st = true →
  dict_get st "branch" ≠ Some (jof b)
  ∨ dict_get st "revision" ≠ Some (jof r)
  ∨ dict_get st "version" ≠ Some (jof v) →
  ∃ w', update_dependency self name b r v w = (Ok tt, w')
    ∧ stdout w'
      = stdout w ++ [Updated name; OldState (JDict st);
                     NewState (JDict (new_state st b r v))].
Proof.
  intros (fp & Hld) Hpins Hall Hfind Hpin Hst Hnd Hhash Hdiff.
  destruct (update_step w self j fp ps name i pin st b r v
              Hld Hpins Hall Hfind Hpin Hst Hhash)
    as (w1 & fp1 & Hupd & Hout & _).
  exists w1. split; [done|]. rewrite Hout. unfold update_notices.
  destruct (new_state_lookup st b r v) as (Hb & Hr & Hv & _).
  assert (0 < length (xor_items (state_items st)
                        (state_items (new_state st b r v)))) as Hlen.
  { destruct Hdiff as [?|[?|?]]; by eapply xor_items_changed. }
  apply Nat.ltb_lt in Hlen. by rewrite Hlen.
Qed.

Lemma changed_values_reported_witness :
  loaded sample_world sample_handle sample_document
  ∧ ∃ w', update_dependency sample_handle "X" None None (Some "1.0.1")
            sample_world = (Ok tt, w')
      ∧ stdout w'
        = [Updated "X"; OldState (JDict sample_state);
           NewState (JDict [("branch", JNull); ("revision", JNull);
                            ("version", JStr "1.0.1")])].
Proof.
  split; [exact sample_loaded|].
  apply (changed_values_reported sample_world sample_handle sample_document
           [sample_pin; other_pin] "X" 0 sample_pin sample_state
           None None (Some "1.0.1"));
    [exact sample_loaded|reflexivity|repeat constructor|reflexivity
    |reflexivity|reflexivity|apply (bool_decide_unpack _); vm_compute; exact I
    |reflexivity|].
  right. right. by intros [= ?].
Defined.

Lemma dict_set_keys_app {A} (d : list (string * A)) k x :
  (dict_set d k x).*1 = d.*1 ++ if decide (k ∈ d.*1) then [] else [k].
Proof. rewrite dict_set_keys. destruct (decide _); by rewrite ?app_nil_r. Qed.

Lemma absent_app (ks extra : list string) k :
  k ∉ extra →
  (if decide (k ∈ ks ++ extra) then [] else [k])
  = if decide (k ∈ ks) then [] else [k].
Proof.
  intros Hk. destruct (decide (k ∈ ks ++ extra)) as [Hin|Hout].
  - apply elem_of_app in Hin as [Hin|Hin]; [|done]. by rewrite decide_True.
  - rewrite decide_False; [done|]. intros Hin. apply Hout, elem_of_app. by left.
Qed.

Lemma not_elem_absent (ks : list string) k k' :
  k ≠ k' → k ∉ (if decide (k' ∈ ks) then [] else [k']).
Proof.
  intros Hne. destruct (decide _).
  - by intros ?%elem_of_nil.
  - by intros ?%list_elem_of_singleton.
Qed.

Lemma new_state_keys st b r v :
  (new_state st b r v).*1 = st.*1 ++ absent_keys st.
Proof.
  unfold new_state, absent_keys. rewrite !dict_set_keys_app, <-!app_assoc.
  rewrite (absent_app st.*1 _ "revision") by (by apply not_elem_absent).
  rewrite (absent_app st.*1 _ "version"); [done|].
  intros [Hin|Hin]%elem_of_app; revert Hin; by apply not_elem_absent.
Qed.

Lemma partial_loaded : loaded partial_world partial_handle partial_document.
Proof.
  eexists. split; [vm_compute; reflexivity|].
  apply (bool_decide_unpack _). vm_compute. exact I.
Defined.

(** X13 — [update_dependency] completes a state that lacks some of the
    three keys: the keys the state had keep their places, the ones it
    lacked are added after them in the order branch, revision, version,
    and the state read afterwards has all three. *)
Theorem update_adds_absent_keys w self j ps name i pin st b r v :
  loaded w self j → pins_of j = Some ps →
  Forall (λ p, has_package p = true) ps →
  find_pin name ps = Some i → ps !! i = Some pin →
  jget pin "state" = Some (JDict st) →
  forallb (λ kv, hashable_json kv.2) st = true →
  ∃ w1 c w2,
    update_dependency self name b r v w = (Ok tt, w1)
    ∧ read_dependency self name w1 = (Ok c, w2)
    ∧ snapshot (store w2) c = Some (JDict (new_state st b r v))
    ∧ (new_state st b r v).*1 = st.*1 ++ absent_keys st
    ∧ Forall (λ k, is_Some (dict_get (new_state st b r v) k))
        ["branch"; "revision"; "version"].
Proof.
  intros (fp & Hld) Hpins Hall Hfind Hpin Hst Hhash.
  destruct (update_step w self j fp ps name i pin st b r v
              Hld Hpins Hall Hfind Hpin Hst Hhash)
    as (w1 & fp1 & Hupd & _ & _ & Hld1 & Hpins1 & Hall1 & Hfind1 & Hpin1
        & Hst1 & _).
  rewrite <-(Hfind1 name) in Hfind.
  destruct (read_dependency_spec w1 self _ fp1 _ name i _ _
              Hld1 Hpins1 Hall1 Hfind Hpin1 Hst1)
    as (c & ext & fpc & Hread & Hb).
  destruct (new_state_lookup st b r v) as (? & ? & ? & _).
  exists w1, c, (set_store w1 (store w1 ++ ext)).
  split_and!; try done.
  - simpl. rewrite <-(app_nil_r ext), app_assoc, <-app_assoc.
    by eapply built_snapshot.
  - apply new_state_keys.
  - repeat constructor; by eexists.
Qed.

Lemma update_adds_absent_keys_witness :
  loaded partial_world partial_handle partial_document
  ∧ ∃ w1 c w2,
      update_dependency partial_handle "X" (Some "main") None None partial_world
      = (Ok tt, w1)
      ∧ read_dependency partial_handle "X" w1 = (Ok c, w2)
      ∧ snapshot (store w2) c
        = Some (JDict [("revision", JNull); ("branch", JStr "main");
                       ("version", JNull)]).
Proof.
  split; [exact partial_loaded|].
  destruct (update_adds_absent_keys partial_world partial_handle
              partial_document [partial_pin] "X" 0 partial_pin
              [("revision", JStr "0f1e2d")] (Some "main") None None)
    as (w1 & c & w2 & Hupd & Hread & Hsnap & _);
    [exact partial_loaded|reflexivity|repeat constructor|reflexivity
    |reflexivity|reflexivity|reflexivity|].
  by exists w1, c, w2.
Defined.

(** ** What [save] writes *)

Lemma ascii_only_app a b : ascii_only (a ++ b) = ascii_only a && ascii_only b.
Proof. apply forallb_app. Qed.

Lemma ascii_only_mjoin (chunks : list text) :
  Forall (λ t, ascii_only t = true) chunks → ascii_only (mjoin chunks) = true.
Proof.
  induction 1 as [|t chunks Ht _ IH]; [done|].
  change (mjoin (t :: chunks)) with (t ++ mjoin chunks).
  by rewrite ascii_only_app, Ht, IH.
Qed.

Lemma ascii_only_join sep (chunks : list text) :
  ascii_only sep = true →
  Forall (λ t, ascii_only t = true) chunks → ascii_only (join sep chunks) = true.
Proof.
  intros Hsep [|t rest Ht Hchunks]; [done|].
  rewrite join_cons, ascii_only_app, Ht. cbn [andb].
  apply ascii_only_mjoin, Forall_fmap. eapply Forall_impl; [done|].
  intros x Hx. cbn. by rewrite ascii_only_app, Hsep, Hx.
Qed.

Lemma ascii_only_escape_char c : ascii_only (escape_char c) = true.
Proof. destruct c as [[] [] [] [] [] [] [] []]; reflexivity. Qed.

Lemma ascii_only_string s : ascii_only (encode_basestring_ascii s) = true.
Proof.
  unfold encode_basestring_ascii.
  change (ascii_only (mjoin (escape_char <$> list_ascii_of_string s) ++ [QUOTE]) = true).
  rewrite ascii_only_app, ascii_only_mjoin; [done|].
  apply Forall_fmap, Forall_forall. intros c _. apply ascii_only_escape_char.
Qed.

Lemma ascii_only_digits n : ascii_only (digits n) = true.
Proof.
  destruct (digits_spec n) as (ds & -> & Hall & _).
  induction Hall as [|c ds Hc _ IH]; [done|].
  cbn [ascii_only forallb]. fold (ascii_only ds). rewrite IH, andb_true_r.
  unfold is_digit in Hc. apply andb_prop in Hc as [_ Hc%N.leb_le].
  apply N.ltb_lt. lia.
Qed.

Lemma ascii_only_int_repr z : ascii_only (int_repr z) = true.
Proof.
  unfold int_repr. destruct (Z.ltb z 0); [|apply ascii_only_digits].
  cbn [ascii_only forallb]. apply ascii_only_digits.
Qed.

Lemma ascii_only_newline_indent level : ascii_only (newline_indent level) = true.
Proof.
  unfold newline_indent. cbn [ascii_only forallb].
  induction (2 * level) as [|n IH]; [done|]. done.
Qed.

Lemma ascii_only_encode sort j : ∀ level, ascii_only (encode sort level j) = true.
Proof.
  induction j as [|b|z|s|js IH|d IH] using json_ind; intros level.
  - done.
  - by destruct b.
  - apply ascii_only_int_repr.
  - apply ascii_only_string.
  - destruct js as [|j js]; [done|]. cbn [encode].
    change (ascii_only
              (newline_indent (S level)
                 ++ join (item_separator (S level)) (encode sort (S level) <$> j :: js)
                 ++ newline_indent level ++ ["]"%char]) = true).
    rewrite !ascii_only_app, !ascii_only_newline_indent, ascii_only_join; [done| |].
    + apply (ascii_only_newline_indent (S level)).
    + apply Forall_fmap. eapply Forall_impl; [done|]. intros x Hx. apply Hx.
  - destruct d as [|kv d]; [done|]. cbn [encode].
    set (items := (λ kv0 : string * json, (kv0.1, encode sort (S level) kv0.2))
                    <$> kv :: d).
    change (ascii_only
              (newline_indent (S level)
                 ++ join (item_separator (S level))
                      (encode_item <$> (if sort then sorted_items items else items))
                 ++ newline_indent level ++ ["}"%char]) = true).
    rewrite !ascii_only_app, !ascii_only_newline_indent, ascii_only_join; [done| |].
    + apply (ascii_only_newline_indent (S level)).
    + assert (Forall (λ t, ascii_only t = true) (encode_item <$> items)) as Hitems.
      { unfold items. rewrite <-list_fmap_compose. apply Forall_fmap.
        eapply Forall_impl; [done|]. intros x Hx.
        unfold compose, encode_item. cbn [fst snd].
        by rewrite !ascii_only_app, ascii_only_string, Hx. }
      destruct sort; [|done].
      by rewrite sorted_items_perm.
Qed.

(** X14 — whatever the document holds, the file [save] writes is ASCII
    text: every other character of a string is written as an escape. *)
Theorem saved_text_is_ascii w self j :
  loaded w self j →
  ∃ content,
    files (save self w).2 !! path self = Some content
    ∧ ascii_only content = true.
Proof.
  intros Hld. rewrite (save_spec w self j Hld). cbn [snd files].
  eexists. split; [apply lookup_insert_eq|].
  by rewrite ascii_only_app, ascii_only_encode.
Qed.

Lemma accented_loaded : loaded accented_world accented_handle accented_document.
Proof.
  eexists. split; [vm_compute; reflexivity|].
  apply (bool_decide_unpack _). vm_compute. exact I.
Defined.

Lemma saved_text_is_ascii_witness :
  loaded accented_world accented_handle accented_document
  ∧ ascii_only (txt accented_name) = false
  ∧ ∃ content,
      files (save accented_handle accented_world).2 !! sample_path = Some content
      ∧ ascii_only content = true.
Proof.
  split; [exact accented_loaded|]. split; [reflexivity|].
  apply (saved_text_is_ascii accented_world accented_handle accented_document).
  exact accented_loaded.
Defined.

(** X15 — [save] is idempotent and touches one file: a second [save]
    leaves the files as the first left them, no other path is written, and
    the objects of the store are not changed. *)
Theorem save_twice w self j :
  loaded w self j →
  ∃ w1 w2,
    save self w = (Ok tt, w1)
    ∧ save self w1 = (Ok tt, w2)
    ∧ files w2 = files w1
    ∧ store w2 = store w
    ∧ (∀ q, q ≠ path self → files w1 !! q = files w !! q)
    ∧ stdout w2 = stdout w ++ [Saving (path self); Saving (path self)].
Proof.
  intros Hld. pose proof (save_spec w self j Hld) as Hsave1.
  set (w1 := World (store w)
               (<[path self := encode true 0 j ++ [NEWLINE]]> (files w))
               (stdout w ++ [Saving (path self)])) in *.
  assert (loaded w1 self j) as Hld1 by done.
  pose proof (save_spec w1 self j Hld1) as Hsave2.
  eexists w1, _. split_and!; try done.
  - cbn [files w1]. apply insert_insert_eq.
  - intros q Hq. cbn [files w1]. by apply lookup_insert_ne.
  - cbn [stdout w1]. by rewrite <-app_assoc.
Qed.

Lemma save_twice_witness :
  loaded sample_world sample_handle sample_document
  ∧ ∃ w1 w2,
      save sample_handle sample_world = (Ok tt, w1)
      ∧ save sample_handle w1 = (Ok tt, w2)
      ∧ files w2 = files w1.
Proof.
  split; [exact sample_loaded|].
  destruct (save_twice sample_world sample_handle sample_document)
    as (w1 & w2 & Hs1 & Hs2 & Hfiles & _); [exact sample_loaded|].
  by exists w1, w2.
Defined.

(** ** Loading, updating, saving, loading again *)

Lemma loaded_at_inj w self j fp j' fp' :
  loaded_at w self j fp → loaded_at w self j' fp' → j = j' ∧ fp = fp'.
Proof. intros [Hs _] [Hs' _]. rewrite Hs in Hs'. by injection Hs' as -> ->. Qed.

Lemma loaded_inj w self j j' : loaded w self j → loaded w self j' → j = j'.
Proof. intros (fp & H) (fp' & H'). by destruct (loaded_at_inj _ _ _ _ _ _ H H'). Qed.

(** What a successful [__init__] has done. *)
Lemma init_loaded p w self w1 :
  init p w = (Ok self, w1) →
  ∃ content j fp ext ver,
    files w !! p = Some content ∧ json_loads content = Ok j
    ∧ unique_keys j = true
    ∧ jget j "version" = Some ver
    ∧ jne_int ver SUPPORTED_PACKAGE_RESOLVED_VERSION = false
    ∧ path self = p
    ∧ w1 = World (store w ++ ext) (files w) (stdout w ++ [Opening p])
    ∧ loaded_at w1 self j fp
    ∧ ∀ l, l ∈ fp → length (store w) ≤ l.
Proof.
  intros Hinit.
  destruct (init_Ok_inv _ _ _ _ Hinit) as (content & j & Hfile & Hloads).
  destruct (init_spec w p content j Hfile Hloads)
    as (self0 & ext & fp & Hpath & Hb & Hld & Hinit0).
  cbv zeta in Hld, Hinit0. rewrite Hinit in Hinit0.
  injection Hinit0 as Hres Hw1. symmetry in Hres.
  apply init_result_Ok in Hres as (-> & ver & Hver & Hne).
  exists content, j, fp, ext, ver. split_and!; try done.
  - by eapply json_loads_unique.
  - by rewrite Hw1.
  - intros l Hl. destruct Hb as (_ & _ & Hrange). apply (Hrange l Hl).
Qed.

(** Loading the file that [save] wrote. *)
Lemma init_saved w p j ver :
  files w !! p = Some (encode true 0 j ++ [NEWLINE]) →
  unique_keys j = true →
  jget j "version" = Some ver →
  jne_int ver SUPPORTED_PACKAGE_RESOLVED_VERSION = false →
  ∃ self w' fp,
    init p w = (Ok self, w') ∧ path self = p ∧ loaded_at w' self (canon j) fp.
Proof.
  intros Hfile Hu Hver Hne.
  assert (json_loads (encode true 0 j ++ [NEWLINE]) = Ok (canon j)) as Hloads.
  { rewrite encode_sorted. by apply json_loads_encode, unique_keys_canon. }
  destruct (init_spec w p _ (canon j) Hfile Hloads)
    as (self & ext & fp & Hpath & _ & Hld & Hinit).
  cbv zeta in Hld, Hinit.
  rewrite (init_result_supported p self (canon j) (canon ver)) in Hinit; cycle 1.
  { by rewrite jget_canon, Hver. }
  { by rewrite jne_int_canon. }
  by eexists self, _, fp.
Qed.

Lemma forallb_dict_set {A} (P : A → bool) (d : list (string * A)) k x :
  forallb (λ kv, P kv.2) d = true → P x = true →
  forallb (λ kv, P kv.2) (dict_set d k x) = true.
Proof.
  intros Hd Hx. induction d as [|[k0 y0] d IH]; cbn [dict_set forallb].
  - cbn. by rewrite Hx.
  - cbn [forallb] in Hd. apply andb_prop in Hd as [Hy Hd].
    destruct (decide (k0 = k)); cbn [forallb snd] in *.
    + by rewrite Hx, Hd.
    + by rewrite Hy, IH.
Qed.

Lemma unique_keys_dict_set d k x :
  unique_keys (JDict d) = true → unique_keys x = true →
  unique_keys (JDict (dict_set d k x)) = true.
Proof.
  cbn [unique_keys]. intros [Hnd Hd]%andb_prop Hx.
  apply bool_decide_eq_true in Hnd. apply andb_true_intro. split.
  - apply bool_decide_eq_true. by apply dict_set_keys_NoDup.
  - by apply (forallb_dict_set unique_keys).
Qed.

Lemma unique_keys_jset j k x :
  unique_keys j = true → unique_keys x = true → unique_keys (jset j k x) = true.
Proof.
  destruct j as [| | | | |d]; try done. apply unique_keys_dict_set.
Qed.

Lemma unique_keys_jof x : unique_keys (jof x) = true.
Proof. by destruct x. Qed.

Lemma unique_keys_new_state st b r v :
  unique_keys (JDict st) = true → unique_keys (JDict (new_state st b r v)) = true.
Proof.
  intros Hst. unfold new_state.
  repeat (apply unique_keys_dict_set; [|apply unique_keys_jof]). done.
Qed.

Lemma unique_keys_with_pins j ps ps' :
  unique_keys j = true → pins_of j = Some ps →
  forallb unique_keys ps' = true → unique_keys (with_pins j ps') = true.
Proof.
  intros Hu Hpins Hps'. destruct (pins_of_inv _ _ Hpins) as (jo & Hjo & Hjp).
  unfold with_pins. rewrite Hjo.
  apply unique_keys_jset; [done|]. apply unique_keys_jset; [|done].
  by eapply unique_keys_jget.
Qed.

Lemma unique_keys_updated j ps i pin st b r v :
  unique_keys j = true → pins_of j = Some ps → ps !! i = Some pin →
  jget pin "state" = Some (JDict st) →
  unique_keys
    (with_pins j (<[i := jset pin "state" (JDict (new_state st b r v))]> ps)) = true.
Proof.
  intros Hu Hpins Hpin Hst.
  pose proof (unique_keys_pins _ _ Hu Hpins) as Hps.
  apply forallb_Forall in Hps.
  assert (unique_keys pin = true) as Hupin.
  { rewrite Forall_forall in Hps. apply Hps. by eapply list_elem_of_lookup_2. }
  eapply unique_keys_with_pins; [done|done|].
  apply forallb_Forall, Forall_insert; [done|].
  apply unique_keys_jset; [done|]. apply unique_keys_new_state.
  by eapply unique_keys_jget.
Qed.

Lemma jget_with_pins_ne j ps k : k ≠ "object" → jget (with_pins j ps) k = jget j k.
Proof.
  intros Hk. unfold with_pins. destruct (jget j "object") as [o|]; [|done].
  destruct j as [| | | | |d]; try done. cbn [jset jget].
  by apply dict_get_set_ne.
Qed.

Lemma has_package_canon pin :
  unique_keys pin = true → has_package (canon pin) = has_package pin.
Proof.
  intros Hu. unfold has_package. rewrite jget_canon by done.
  by destruct (jget pin "package").
Qed.

Lemma name_is_canon name pin :
  unique_keys pin = true → name_is name (canon pin) = name_is name pin.
Proof.
  intros Hu. unfold name_is. rewrite jget_canon by done.
  destruct (jget pin "package") as [[]|]; done.
Qed.

Lemma matches_canon name ps :
  Forall (λ p, unique_keys p = true) ps →
  ∀ index, matches name index (canon <$> ps) = matches name index ps.
Proof.
  induction 1 as [|pin ps Hpin _ IH]; intros index; [done|].
  rewrite fmap_cons. cbn [matches]. by rewrite name_is_canon, IH.
Qed.

Lemma canon_jof x : canon (jof x) = jof x.
Proof. by destruct x. Qed.

(** X16 — an update that is saved is what the next load reads: after
    [update_dependency] and [save] on a handle, a handle constructed anew on
    the same path reads the pin with the three values given. *)
Theorem update_persists w p self w0 j ps name i pin st b r v :
  init p w = (Ok self, w0) → loaded w0 self j →
  pins_of j = Some ps →
  Forall (λ p, has_package p = true) ps →
  find_pin name ps = Some i → ps !! i = Some pin →
  jget pin "state" = Some (JDict st) →
  forallb (λ kv, hashable_json kv.2) st = true →
  ∃ w1 w2 self' w3 c w4 st',
    update_dependency self name b r v w0 = (Ok tt, w1)
    ∧ save self w1 = (Ok tt, w2)
    ∧ init p w2 = (Ok self', w3)
    ∧ read_dependency self' name w3 = (Ok c, w4)
    ∧ snapshot (store w4) c = Some (JDict st')
    ∧ JDict st' = canon (JDict (new_state st b r v))
    ∧ dict_get st' "branch" = Some (jof b)
    ∧ dict_get st' "revision" = Some (jof r)
    ∧ dict_get st' "version" = Some (jof v).
Proof.
  intros Hinit Hld0 Hpins Hall Hfind Hpin Hst Hhash.
  destruct (init_loaded _ _ _ _ Hinit)
    as (content & j0 & fp & ext & ver & _ & _ & Hu & Hver & Hne & Hpath & _
        & Hlda & _).
  assert (j = j0) as <- by (eapply loaded_inj; [done|by eapply loaded_at_loaded]).
  destruct (update_step w0 self j fp ps name i pin st b r v
              Hlda Hpins Hall Hfind Hpin Hst Hhash)
    as (w1 & fp1 & Hupd & _ & _ & Hld1 & Hpins1 & Hall1 & Hfind1 & Hpin1
        & Hst1 & _).
  set (st1 := new_state st b r v) in *.
  set (pin1 := jset pin "state" (JDict st1)) in *.
  set (ps1 := <[i := pin1]> ps) in *.
  set (j1 := with_pins j ps1) in *.
  assert (unique_keys j1 = true) as Hu1 by (by eapply unique_keys_updated).
  pose proof (save_spec w1 self j1 (loaded_at_loaded _ _ _ _ Hld1)) as Hsave.
  set (w2 := World (store w1)
               (<[path self := encode true 0 j1 ++ [NEWLINE]]> (files w1))
               (stdout w1 ++ [Saving (path self)])) in *.
  destruct (init_saved w2 p j1 ver) as (self' & w3 & fp3 & Hinit' & _ & Hld3);
    [|done| |done|].
  { unfold w2. cbn [files]. rewrite Hpath. apply lookup_insert_eq. }
  { unfold j1. by rewrite jget_with_pins_ne. }
  pose proof (unique_keys_pins _ _ Hu1 Hpins1) as Hups1.
  apply forallb_Forall in Hups1.
  assert (unique_keys pin1 = true) as Hupin1.
  { rewrite Forall_forall in Hups1. apply Hups1. by eapply list_elem_of_lookup_2. }
  destruct (read_dependency_spec w3 self' (canon j1) fp3 (canon <$> ps1) name i
              (canon pin1) (canon (JDict st1)))
    as (c & ext' & fpc & Hread & Hb); try done.
  { by apply pins_of_canon. }
  { apply Forall_fmap. rewrite Forall_forall in Hall1, Hups1 |- *.
    intros x Hx. cbn. rewrite has_package_canon; auto. }
  { unfold find_pin. rewrite matches_canon by done.
    fold (find_pin name ps1). by rewrite Hfind1. }
  { by rewrite list_lookup_fmap, Hpin1. }
  { by rewrite jget_canon, Hst1. }
  assert (unique_keys (JDict st1) = true) as Hust1
    by (by eapply unique_keys_jget).
  destruct (new_state_lookup st b r v) as (Hb' & Hr' & Hv' & _).
  exists w1, w2, self', w3, c, (set_store w3 (store w3 ++ ext')),
    (sorted_items ((λ kv : string * json, (kv.1, canon kv.2)) <$> st1)).
  change (JDict (sorted_items ((λ kv : string * json, (kv.1, canon kv.2)) <$> st1)))
    with (canon (JDict st1)).
  split_and!; try done.
  - simpl. rewrite <-(app_nil_r ext'), app_assoc, <-app_assoc.
    by eapply built_snapshot.
  - change (jget (canon (JDict st1)) "branch" = Some (jof b)).
    rewrite jget_canon by done. cbn [jget]. fold st1 in Hb'.
    rewrite Hb'. cbn. by rewrite canon_jof.
  - change (jget (canon (JDict st1)) "revision" = Some (jof r)).
    rewrite jget_canon by done. cbn [jget]. fold st1 in Hr'.
    rewrite Hr'. cbn. by rewrite canon_jof.
  - change (jget (canon (JDict st1)) "version" = Some (jof v)).
    rewrite jget_canon by done. cbn [jget]. fold st1 in Hv'.
    rewrite Hv'. cbn. by rewrite canon_jof.
Qed.

Lemma update_persists_witness :
  ∃ self w0,
    init sample_path sample_file_world = (Ok self, w0)
    ∧ loaded w0 self sample_document
    ∧ ∃ w1 w2 self' w3 c w4,
        update_dependency self "X" (Some "dogfooding") (Some "abc123") None w0
        = (Ok tt, w1)
        ∧ save self w1 = (Ok tt, w2)
        ∧ init sample_path w2 = (Ok self', w3)
        ∧ read_dependency self' "X" w3 = (Ok c, w4)
        ∧ snapshot (store w4) c
          = Some (JDict [("branch", JStr "dogfooding");
                         ("revision", JStr "abc123"); ("version", JNull)]).
Proof.
  eexists _, _. split; [vm_compute; reflexivity|].
  match goal with |- loaded ?w0 ?self _ ∧ _ =>
    assert (loaded w0 self sample_document) as Hld
      by (eexists; split; [vm_compute; reflexivity|];
          apply (bool_decide_unpack _); vm_compute; exact I);
    destruct (update_persists sample_file_world sample_path self w0
                sample_document [sample_pin; other_pin] "X" 0 sample_pin
                sample_state (Some "dogfooding") (Some "abc123") None)
      as (w1 & w2 & self' & w3 & c & w4 & st' & Hupd & Hsave & Hinit & Hread
          & Hsnap & Hcanon & _);
      [vm_compute; reflexivity|exact Hld|reflexivity|repeat constructor
      |reflexivity|reflexivity|reflexivity|reflexivity|]
  end.
  split; [exact Hld|]. exists w1, w2, self', w3, c, w4.
  split_and!; try done. rewrite Hsnap. f_equal. rewrite Hcanon. reflexivity.
Defined.

(** ** Two handles *)

(** X17 — two handles do not share objects, even when constructed on the
    same file: an [update_dependency] through the second leaves the
    document of the first as it was, whether the update returns or raises
    on an unhashable value. *)
Theorem handles_are_independent
    w p q self1 w1 self2 w2 j1 j2 ps name i pin st b r v :
  init p w = (Ok self1, w1) → init q w1 = (Ok self2, w2) →
  loaded w2 self1 j1 → loaded w2 self2 j2 →
  pins_of j2 = Some ps →
  Forall (λ p, has_package p = true) ps →
  find_pin name ps = Some i → ps !! i = Some pin →
  jget pin "state" = Some (JDict st) →
  loaded (update_dependency self2 name b r v w2).2 self1 j1
  ∧ ∃ j2', loaded (update_dependency self2 name b r v w2).2 self2 j2'
      ∧ pins_of j2'
        = Some (<[i := jset pin "state" (JDict (new_state st b r v))]> ps).
Proof.
  intros Hinit1 Hinit2 Hld1 Hld2 Hpins Hall Hfind Hpin Hst.
  destruct (init_loaded _ _ _ _ Hinit1)
    as (c1 & j1' & fp1 & ext1 & ? & _ & _ & _ & _ & _ & _ & Hw1 & Hlda1 & _).
  destruct (init_loaded _ _ _ _ Hinit2)
    as (c2 & j2' & fp2 & ext2 & ? & _ & _ & _ & _ & _ & _ & Hw2 & Hlda2 & Hfresh).
  assert (j2 = j2') as <- by (eapply loaded_inj; [done|by eapply loaded_at_loaded]).
  assert (loaded_at w2 self1 j1' fp1) as Hlda1'.
  { rewrite Hw2. apply (loaded_at_extend w1 self1 j1' fp1 ext2) in Hlda1.
    destruct Hlda1 as [Hs Hnd]. split; [|done]. exact Hs. }
  assert (j1 = j1') as <- by (eapply loaded_inj; [done|by eapply loaded_at_loaded]).
  destruct (update_dependency_spec w2 self2 j2 fp2 ps name i pin st b r v
              Hlda2 Hpins Hall Hfind Hpin Hst)
    as (w3 & fp3 & Hld3 & _ & Hframe & Hlen & _ & Hupd).
  assert ((update_dependency self2 name b r v w2).2 = w3) as ->.
  { destruct (forallb _ st); by destruct Hupd as [-> _]. }
  split.
  - destruct Hlda1' as [Hs Hnd]. exists fp1. split; [|done].
    eapply snap_mono; [|exact Hlen].
    eapply snap_frame; [exact Hs|]. intros l Hl.
    apply Hframe.
    + intros Hl2. apply Hfresh in Hl2.
      destruct Hlda1 as [Hs1 _].
      pose proof (snap_footprint_lt _ _ _ _ _ _ Hs1 Hl). lia.
    + by eapply snap_footprint_lt.
  - eexists. split; [by eapply loaded_at_loaded|]. by eapply pins_of_with_pins.
Qed.

Lemma handles_are_independent_witness :
  ∃ self1 w1 self2 w2,
    init sample_path sample_file_world = (Ok self1, w1)
    ∧ init sample_path w1 = (Ok self2, w2)
    ∧ loaded w2 self1 sample_document
    ∧ loaded w2 self2 sample_document
    ∧ loaded (update_dependency self2 "X" (Some "dogfooding") None None w2).2
        self1 sample_document.
Proof.
  eexists _, _, _, _. split; [vm_compute; reflexivity|].
  split; [vm_compute; reflexivity|].
  match goal with |- loaded ?w2 ?self1 _ ∧ loaded _ ?self2 _ ∧ _ =>
    assert (loaded w2 self1 sample_document) as Hld1
      by (eexists; split; [vm_compute; reflexivity|];
          apply (bool_decide_unpack _); vm_compute; exact I);
    assert (loaded w2 self2 sample_document) as Hld2
      by (eexists; split; [vm_compute; reflexivity|];
          apply (bool_decide_unpack _); vm_compute; exact I)
  end.
  split; [exact Hld1|]. split; [exact Hld2|].
  eapply (handles_are_independent sample_file_world sample_path sample_path
            _ _ _ _ sample_document sample_document [sample_pin; other_pin]
            "X" 0 sample_pin sample_state);
    [vm_compute; reflexivity|vm_compute; reflexivity|exact Hld1|exact Hld2
    |reflexivity|repeat constructor|reflexivity|reflexivity|reflexivity].
Defined.

(** ** Saving what was loaded from a saved file *)

Lemma ltb_leb s1 s2 : String.ltb s1 s2 = true → String.leb s1 s2 = true.
Proof. unfold String.ltb, String.leb. by destruct (String.compare s1 s2). Qed.

Lemma sorted_items_id {A} (d : list (string * A)) :
  is_sorted d.*1 = true → sorted_items d = d.
Proof.
  unfold sorted_items. induction d as [|kv d IH]; [done|].
  rewrite fmap_cons, is_sorted_cons. intros [Hhead Hd]%andb_prop.
  cbn [foldr]. rewrite IH by done.
  destruct d as [|x d]; [done|]. cbn [insert_item].
  by rewrite (ltb_leb _ _ Hhead).
Qed.

(** A value whose keys are in sorted order is its own canonical form. *)
Lemma canon_id j : keys_sorted j = true → canon j = j.
Proof.
  induction j as [|b|z|s|js IH|d IH] using json_ind; try done.
  - cbn [keys_sorted canon]. intros Hjs%forallb_Forall. f_equal.
    induction IH as [|j js Hj _ IHjs]; [done|].
    apply Forall_cons in Hjs as [? ?]. rewrite fmap_cons. f_equal; auto.
  - cbn [keys_sorted canon]. intros [Hkeys Hd%forallb_Forall]%andb_prop. f_equal.
    assert ((λ kv : string * json, (kv.1, canon kv.2)) <$> d = d) as ->.
    { clear Hkeys. induction IH as [|[k x] d Hx _ IHd]; [done|].
      apply Forall_cons in Hd as [? ?]. rewrite fmap_cons. cbn [fst snd] in *.
      f_equal; [f_equal|]; auto. }
    by apply sorted_items_id.
Qed.

Lemma canon_canon j : unique_keys j = true → canon (canon j) = canon j.
Proof. intros Hu. by apply canon_id, keys_sorted_canon. Qed.

(** X18 — the text [save] writes is stable: a handle constructed on a
    file that [save] wrote saves the same text again, character for
    character. *)
Theorem resave_is_stable w p self w1 :
  init p w = (Ok self, w1) →
  ∃ w2 self' w3 w4 content,
    save self w1 = (Ok tt, w2)
    ∧ init p w2 = (Ok self', w3)
    ∧ save self' w3 = (Ok tt, w4)
    ∧ files w2 !! p = Some content
    ∧ files w4 !! p = Some content
    ∧ files w4 = files w2.
Proof.
  intros Hinit.
  destruct (init_loaded _ _ _ _ Hinit)
    as (c0 & j & fp & ext & ver & _ & _ & Hu & Hver & Hne & Hpath & _ & Hld & _).
  pose proof (save_spec w1 self j (loaded_at_loaded _ _ _ _ Hld)) as Hsave.
  set (w2 := World (store w1)
               (<[path self := encode true 0 j ++ [NEWLINE]]> (files w1))
               (stdout w1 ++ [Saving (path self)])) in *.
  assert (files w2 !! p = Some (encode true 0 j ++ [NEWLINE])) as Hfile2.
  { unfold w2. cbn [files]. rewrite Hpath. apply lookup_insert_eq. }
  destruct (init_saved w2 p j ver Hfile2 Hu Hver Hne)
    as (self' & w3 & fp3 & Hinit' & Hpath' & Hld3).
  destruct (init_loaded _ _ _ _ Hinit')
    as (_ & _ & _ & ext3 & _ & _ & _ & _ & _ & _ & _ & Hw3 & _).
  pose proof (save_spec w3 self' (canon j) (loaded_at_loaded _ _ _ _ Hld3))
    as Hsave'.
  assert (encode true 0 (canon j) = encode true 0 j) as Hsame.
  { by rewrite (encode_sorted (canon j)), canon_canon, <-encode_sorted. }
  rewrite Hsame, Hpath' in Hsave'.
  assert (files w3 = files w2) as Hfiles3 by (by rewrite Hw3).
  eexists w2, self', w3, _, _. split_and!; try done.
  - cbn [files]. apply lookup_insert_eq.
  - cbn [files]. rewrite Hfiles3. unfold w2. cbn [files]. rewrite Hpath.
    apply insert_insert_eq.
Qed.

Lemma resave_is_stable_witness :
  ∃ self w1,
    init sample_path unsorted_file_world = (Ok self, w1)
    ∧ ∃ w2 self' w3 w4,
        save self w1 = (Ok tt, w2)
        ∧ init sample_path w2 = (Ok self', w3)
        ∧ save self' w3 = (Ok tt, w4)
        ∧ files w4 = files w2.
Proof.
  eexists _, _. split; [vm_compute; reflexivity|].
  match goal with |- context [save ?self ?w1] =>
    destruct (resave_is_stable unsorted_file_world sample_path self w1)
      as (w2 & self' & w3 & w4 & content & Hsave & Hinit & Hsave' & _ & _ & Hfiles);
      [vm_compute; reflexivity|]
  end.
  by exists w2, self', w3, w4.
Defined.
